(** * Targeted revision engine of the orchestrator agent

    A shallow embedding of [OrchestratorAgent/orchestrator.py]: the two
    reference propagators, the four surgical patch functions and
    [update_component], with the properties the specification states
    about them; and of the code around them: the loader
    [update_state_from_user_view], the update loop of
    [orchestrate_revision], the keyword fallbacks of
    [identify_components_with_llm] and of the ReAct agent, and the two
    methods of the analysis model, with properties read off the code.

    Conventions of the embedding.
    - [self.state] is a Python dict keyed by strings; it is a
      [gmap string value].  [st !! k] is [self.state.get(k)], insertion
      is assignment and [delete] is [del].
    - A [str] is a Rocq [string] whose characters are the code points
      0..255; [lower] and [isspace] are Python's on that range.
    - Every call to the language model is an input of the function that
      makes it: either the structured reply or the fact that the call
      raised.  The scene model, for which [update_component] writes the
      flag [allow_scene_increase] into the state, replies as a function
      of the state it is created from.
    - Code that can raise runs in the monad [M]: the state written before
      the exception is kept, as a Python [try]/[except] keeps it.
    - A console line that carries a bracketed tag is recorded by its tag
      and its fixed text; untagged progress lines, prompt construction
      and the diagnostic report printed at the end of a propagation are
      not modelled.
    - Dicts held in a list are mutated in place by the source; no dict is
      referenced twice from the state ([update_state_from_user_view]
      builds every one afresh and [model_dump] returns a fresh one), so
      in-place mutation is the replacement of the list element. *)

From Stdlib Require Import ZArith Ascii.
From stdpp Require Import gmap strings list sorting.

(** ** Python strings *)

Definition code (c : ascii) : N := N_of_ascii c.

(** [str.lower] on one code point below 256. *)
Definition lower_char (c : ascii) : ascii :=
  let n := code c in
  if ((65 <=? n) && (n <=? 90))%N then ascii_of_N (n + 32)
  else if ((192 <=? n) && (n <=? 222) && negb (n =? 215))%N
       then ascii_of_N (n + 32)
  else c.

Fixpoint lower (s : string) : string :=
  match s with
  | "" => ""
  | String c s' => String (lower_char c) (lower s')
  end.

(** [str.isspace] on one code point below 256, the separator set of
    [str.split()]. *)
Definition isspace (c : ascii) : bool :=
  let n := code c in
  (((9 <=? n) && (n <=? 13)) || ((28 <=? n) && (n <=? 32))
   || (n =? 133) || (n =? 160))%N.

(** [s.startswith(p)] *)
Fixpoint startswith (p s : string) : bool :=
  match p, s with
  | "", _ => true
  | String a p', String b s' => bool_decide (a = b) && startswith p' s'
  | String _ _, "" => false
  end.

(** [sub in s] *)
Fixpoint str_in (sub s : string) : bool :=
  startswith sub s ||
  match s with
  | "" => false
  | String _ s' => str_in sub s'
  end.

(** [s.replace(old, new)] for a non-empty [old]: scan left to right; at a
    match emit [new] and skip the matched characters. [skip] counts the
    characters of the current match still to be dropped. *)
Fixpoint replace_go (old new : string) (skip : nat) (s : string) : string :=
  match s with
  | "" => ""
  | String c s' =>
      match skip with
      | S k => replace_go old new k s'
      | O =>
          if startswith old s
          then new +:+ replace_go old new (String.length old - 1) s'
          else String c (replace_go old new 0 s')
      end
  end.

(** [s.replace("", new)]: [new] before every character and at the end. *)
Fixpoint replace_empty (new s : string) : string :=
  match s with
  | "" => new
  | String c s' => new +:+ String c (replace_empty new s')
  end.

Definition replace (old new s : string) : string :=
  if decide (old = "") then replace_empty new s else replace_go old new 0 s.

(** [s[n:]] *)
Fixpoint str_drop (n : nat) (s : string) : string :=
  match n, s with
  | S k, String _ s' => str_drop k s'
  | _, _ => s
  end.

(** [old_name.split()[0]]: the first whitespace-delimited token, or
    [None] where the source raises [IndexError] because the split is
    empty. *)
Fixpoint lstrip (s : string) : string :=
  match s with
  | "" => ""
  | String c s' => if isspace c then lstrip s' else s
  end.

Fixpoint take_word (s : string) : string :=
  match s with
  | "" => ""
  | String c s' => if isspace c then "" else String c (take_word s')
  end.

Definition split_first (s : string) : option string :=
  match lstrip s with
  | "" => None
  | w => Some (take_word w)
  end.

(** ** Data model *)

(** A character or a location: a dict with a [name] and further
    descriptive entries, which the engine never inspects.  A dict without
    the key is read through [.get('name', '')] and carries the empty
    name. *)
Record Entity := mkEntity {
  name : string;
  attrs : list (string * string)
}.

(** An entry of [state['dialogue_scenes']]. *)
Module DialogueLine.
Record t := mk {
    character_name : string;
    scene_number : Z;
    line : string
  }.
Definition set_character_name (v : string) (d : t) : t :=
    mk v (scene_number d) (line d).
Definition set_line (v : string) (d : t) : t :=
    mk (character_name d) (scene_number d) v.
End DialogueLine.

(** An entry of a scene's [dialogue_lines]. *)
Module SceneLine.
Record t := mk {
    character_name : string;
    line : string
  }.
Definition set_character_name (v : string) (d : t) : t := mk v (line d).
End SceneLine.

(** A scene in the internal format built by [update_state_from_user_view]. *)
Module Scene.
Record t := mk {
    scene_number : Z;
    environmental_context : string;
    subject_action : string;
    shot_type : string;
    camera_angle : string;
    camera_movement : string;
    camera_perspective : string;
    dialogue_lines : list SceneLine.t
  }.
Definition set_scene_number (v : Z) (s : t) : t :=
    mk v (environmental_context s) (subject_action s) (shot_type s)
       (camera_angle s) (camera_movement s) (camera_perspective s)
       (dialogue_lines s).
Definition set_environmental_context (v : string) (s : t) : t :=
    mk (scene_number s) v (subject_action s) (shot_type s)
       (camera_angle s) (camera_movement s) (camera_perspective s)
       (dialogue_lines s).
Definition set_subject_action (v : string) (s : t) : t :=
    mk (scene_number s) (environmental_context s) v (shot_type s)
       (camera_angle s) (camera_movement s) (camera_perspective s)
       (dialogue_lines s).
Definition set_dialogue_lines (v : list SceneLine.t) (s : t) : t :=
    mk (scene_number s) (environmental_context s) (subject_action s)
       (shot_type s) (camera_angle s) (camera_movement s)
       (camera_perspective s) v.
End Scene.

(** The visual lookbook is an opaque structured blob. *)
Definition Lookbook : Type := list (string * string).

(** The values held by the state dict. *)
Inductive value :=
  | VStr (s : string)
  | VInt (n : Z)
  | VBool (b : bool)
  | VEntities (l : list Entity)
  | VDialogue (l : list DialogueLine.t)
  | VScenes (l : list Scene.t)
  | VLookbook (b : Lookbook).

Abbreviation state := (gmap string value).

(** [x if x else []] for the three kinds of collection. *)
Definition entities_or_empty (o : option value) : list Entity :=
  match o with Some (VEntities l) => l | _ => [] end.
Definition dialogue_or_empty (o : option value) : list DialogueLine.t :=
  match o with Some (VDialogue l) => l | _ => [] end.
Definition scenes_or_empty (o : option value) : list Scene.t :=
  match o with Some (VScenes l) => l | _ => [] end.

(** Truthiness of an optional string and of an optional integer: [None],
    the empty string and zero are false. *)
Definition truthy_str (o : option string) : option string :=
  match o with
  | Some s => if decide (s = "") then None else Some s
  | None => None
  end.
Definition truthy_int (o : option Z) : option Z :=
  match o with
  | Some n => if decide (n = 0%Z) then None else Some n
  | None => None
  end.

(** ** Console output *)

Inductive tag := OK | WARNING | INFO | ERROR | AUTHORIZED | ENFORCED.
Definition console_line : Type := tag * string.

(** ** State, output and exceptions *)

Inductive exn := IndexError | ReError | LLMError.

Inductive res (A : Type) :=
  | Ret (a : A)
  | Raise (e : exn).
Arguments Ret {A} a.
Arguments Raise {A} e.

Definition M (A : Type) : Type := state → res A * state * list console_line.

Definition ret {A} (a : A) : M A := λ st, (Ret a, st, []).

Definition bind {A B} (m : M A) (k : A → M B) : M B := λ st,
  match m st with
  | (Ret a, st1, out1) =>
      match k a st1 with
      | (r, st2, out2) => (r, st2, out1 ++ out2)
      end
  | (Raise e, st1, out1) => (Raise e, st1, out1)
  end.

Notation "x <- m ;; k" := (bind m (λ x, k))
  (at level 100, m at next level, right associativity, only parsing).
Notation "m ;;; k" := (bind m (λ _, k))
  (at level 100, right associativity, only parsing).

Definition raise {A} (e : exn) : M A := λ st, (Raise e, st, []).

(** [try: body except Exception: handler] *)
Definition try_except {A} (body : M A) (handler : exn → M A) : M A := λ st,
  match body st with
  | (Raise e, st1, out1) =>
      match handler e st1 with
      | (r, st2, out2) => (r, st2, out1 ++ out2)
      end
  | r => r
  end.

Definition print (t : tag) (text : string) : M unit :=
  λ st, (Ret tt, st, [(t, text)]).
Definition state_get (k : string) : M (option value) :=
  λ st, (Ret (st !! k), st, []).
Definition state_set (k : string) (v : value) : M unit :=
  λ st, (Ret tt, <[k := v]> st, []).
Definition state_del (k : string) : M unit :=
  λ st, (Ret tt, delete k st, []).
(** [self.state], the dict itself, as the argument of a call. *)
Definition state_read : M state :=
  λ st, (Ret st, st, []).

(** The outcome of a call to the language model or to a generation node. *)
Inductive reply (A : Type) :=
  | Returned (a : A)
  | Raised.
Arguments Returned {A} a.
Arguments Raised {A}.

Definition invoke {A} (r : reply A) : M A :=
  match r with
  | Returned a => ret a
  | Raised => raise LLMError
  end.

Definition final_state {A} (r : res A * state * list console_line) : state :=
  r.1.2.
Definition output {A} (r : res A * state * list console_line)
  : list console_line := r.2.
Definition warned {A} (r : res A * state * list console_line) : Prop :=
  ∃ text, (WARNING, text) ∈ output r.

(** ** ReferencePropagator: character rename *)

(** [name.split()[0] if ' ' in name else name] *)
Definition first_name (n : string) : option string :=
  if str_in " " n then split_first n else Some n.

(** The rewrite of one free-text field: the full name first, else the
    first name; [str.replace] without a count. *)
Definition rename_in_text (old_name new_name old_first new_first text : string)
  : string :=
  if str_in old_name text then replace old_name new_name text
  else if bool_decide (old_first ≠ old_name) && str_in old_first text
       then replace old_first new_first text
  else text.

(** A field is rewritten only when it is present and non-empty. *)
Definition rename_in_field (old_name new_name old_first new_first text : string)
  : string :=
  if decide (text = "") then text
  else rename_in_text old_name new_name old_first new_first text.

Definition rename_speaker (old_name new_name : string) (d : DialogueLine.t)
  : DialogueLine.t :=
  if decide (DialogueLine.character_name d = old_name)
  then DialogueLine.set_character_name new_name d else d.

Definition rename_scene_speaker (old_name new_name : string) (d : SceneLine.t)
  : SceneLine.t :=
  if decide (SceneLine.character_name d = old_name)
  then SceneLine.set_character_name new_name d else d.

(** The body of [for scene in self.state['scenes']] once both first names
    are known. *)
Definition rename_in_scene (old_name new_name old_first new_first : string)
    (scene : Scene.t) : Scene.t :=
  let scene :=
    Scene.set_subject_action
      (rename_in_field old_name new_name old_first new_first
         (Scene.subject_action scene)) scene in
  Scene.set_environmental_context
    (rename_in_field old_name new_name old_first new_first
       (Scene.environmental_context scene)) scene.

(** The loop over the scenes.  Each iteration first renames the speakers of
    the scene's own dialogue lines, then computes the two first names,
    which raises [IndexError] on a name made of spaces only; the scenes
    already visited keep their changes. *)
Fixpoint propagate_character_scenes (old_name new_name : string)
    (scenes : list Scene.t) : list Scene.t * option exn :=
  match scenes with
  | [] => ([], None)
  | scene :: rest =>
      let scene :=
        Scene.set_dialogue_lines
          (rename_scene_speaker old_name new_name <$> Scene.dialogue_lines scene)
          scene in
      match first_name old_name, first_name new_name with
      | Some old_first, Some new_first =>
          let scene :=
            rename_in_scene old_name new_name old_first new_first scene in
          let '(rest', e) :=
            propagate_character_scenes old_name new_name rest in
          (scene :: rest', e)
      | _, _ => (scene :: rest, Some IndexError)
      end
  end.

(** The three parts of [_propagate_character_name_change], in the order
    of the source: the dialogue lines of the state, the scenes, the
    draft. *)
Definition propagate_character_dialogue (old_name new_name : string) : M unit :=
  dialogue <- state_get "dialogue_scenes";;
  match dialogue with
  | Some (VDialogue ((_ :: _) as l)) =>
      state_set "dialogue_scenes"
        (VDialogue (rename_speaker old_name new_name <$> l))
  | _ => ret tt
  end.

Definition propagate_character_scene_list (old_name new_name : string)
  : M unit :=
  scenes <- state_get "scenes";;
  match scenes with
  | Some (VScenes ((_ :: _) as l)) =>
      let '(l', e) := propagate_character_scenes old_name new_name l in
      state_set "scenes" (VScenes l');;;
      match e with Some e => raise e | None => ret tt end
  | _ => ret tt
  end.

Definition propagate_character_draft (old_name new_name : string) : M unit :=
  draft <- state_get "draft";;
  match draft with
  | Some (VStr draft) =>
      if decide (draft = "") then ret tt
      else
        match first_name old_name, first_name new_name with
        | Some old_first, Some new_first =>
            state_set "draft"
              (VStr (rename_in_text old_name new_name old_first new_first draft))
        | _, _ => raise IndexError
        end
  | _ => ret tt
  end.

Definition _propagate_character_name_change (old_name new_name : string)
  : M unit :=
  propagate_character_dialogue old_name new_name;;;
  propagate_character_scene_list old_name new_name;;;
  propagate_character_draft old_name new_name.

(** ** EntityPatcher: characters and locations *)

Inductive Action := add | modify | remove | insert_between.

(** [LocationChange] and [CharacterChange]: the same three fields, the
    payload being called [new_location] or [new_character]. *)
Record EntityChange := mkEntityChange {
  action : Action;
  target_name : option string;
  new_entity : option Entity
}.

(** [loc.get('name', '').lower() == change.target_name.lower()] *)
Definition matches_name (target : string) (e : Entity) : Prop :=
  lower (name e) = lower target.
#[global] Instance matches_name_dec target e : Decision (matches_name target e) :=
  String.eq_dec (lower (name e)) (lower target).

(** [_update_specific_location] and [_update_specific_character] are the
    same text up to the state key, the propagator called on a rename and
    the nouns of the messages; [key] and [propagate] are those
    differences. The action alphabet of the two change models has no
    [insert_between]; the [if]/[elif] chain does nothing for it. *)
Definition update_specific_entity (key : string)
    (propagate : string → string → M unit)
    (original : option value) (llm : reply EntityChange) : M unit :=
  let current := entities_or_empty original in
  try_except
    (change <- invoke llm;;
     updated <-
       match action change with
       | add =>
           match new_entity change with
           | Some new =>
               print OK "Added";;;
               print OK "Preserved existing";;;
               ret (current ++ [new])
           | None =>
               print WARNING "No new entity provided, keeping original";;;
               ret current
           end
       | modify =>
           match truthy_str (target_name change), new_entity change with
           | Some target, Some new =>
               match list_find (matches_name target) current with
               | Some (i, e) =>
                   let old_name := name e in
                   let new_name := name new in
                   print OK "Modified";;;
                   print OK "Preserved others";;;
                   (if decide (old_name ≠ "" ∧ old_name ≠ new_name)
                    then print INFO "Name changed";;;
                         propagate old_name new_name
                    else ret tt);;;
                   ret (<[i := new]> current)
               | None =>
                   print WARNING "Not found, keeping original";;;
                   ret current
               end
           | _, _ =>
               print WARNING "Incomplete modification details, keeping original";;;
               ret current
           end
       | remove =>
           match truthy_str (target_name change) with
           | Some target =>
               match list_find (matches_name target) current with
               | Some (i, _) =>
                   print OK "Removed";;;
                   print OK "Preserved others";;;
                   ret (delete i current)
               | None =>
                   print WARNING "Not found, keeping original";;;
                   ret current
               end
           | None =>
               print WARNING "No target specified for removal, keeping original";;;
               ret current
           end
       | insert_between => ret current
       end;;
     state_set key (VEntities updated))
    (λ _,
       print ERROR "Error in surgical update";;;
       state_set key (VEntities current)).

Definition _update_specific_character
    (original_characters : option value) (llm : reply EntityChange) : M unit :=
  update_specific_entity "characters" _propagate_character_name_change
    original_characters llm.

(** ** EntityPatcher: dialogue lines *)

Record DialogueIdentification := mkDialogueIdentification {
  target_index : option Z;
  target_character : option string
}.

(** Modelled from the spec: the pydantic model [Dialogue] of
    [SagaAgent.models.dialogue] is not among the sources; the patch reads
    its [character_name] and [line]. *)
Record Dialogue := mkDialogue {
  dialogue_character_name : string;
  dialogue_line : string
}.

Record DialogueChange := mkDialogueChange {
  dialogue_action : Action;
  identification : option DialogueIdentification;
  new_dialogue : option Dialogue;
  modified_line : option string;
  dialogue_scene_number : option Z
}.

(** [dlg.get('character_name', '').lower() == target_character.lower()] *)
Definition spoken_by (target : string) (d : DialogueLine.t) : Prop :=
  lower (DialogueLine.character_name d) = lower target.
#[global] Instance spoken_by_dec target d : Decision (spoken_by target d) :=
  String.eq_dec (lower (DialogueLine.character_name d)) (lower target).

Definition _update_specific_dialogue
    (original_dialogue_scenes : option value) (llm : reply DialogueChange)
  : M unit :=
  let current := dialogue_or_empty original_dialogue_scenes in
  try_except
    (change <- invoke llm;;
     updated <-
       match dialogue_action change with
       | add =>
           match new_dialogue change with
           | Some new =>
               let new_line :=
                 DialogueLine.mk
                   (dialogue_character_name new)
                   (match truthy_int (dialogue_scene_number change) with
                    | Some n => n
                    | None => Z.of_nat (length current) + 1
                    end)%Z
                   (dialogue_line new) in
               print OK "Added dialogue";;;
               print OK "Preserved existing lines";;;
               ret (current ++ [new_line])
           | None =>
               print WARNING "No new dialogue provided, keeping original";;;
               ret current
           end
       | modify =>
           match identification change, truthy_str (modified_line change) with
           | Some ident, Some text =>
               match truthy_int (target_index ident) with
               | Some index =>
                   let idx := (index - 1)%Z in
                   if decide (0 ≤ idx < Z.of_nat (length current))%Z
                   then print OK "Modified dialogue line";;;
                        print OK "Preserved other lines";;;
                        ret (alter (DialogueLine.set_line text)
                               (Z.to_nat idx) current)
                   else print WARNING "Target dialogue not found, keeping original";;;
                        ret current
               | None =>
                   match truthy_str (target_character ident) with
                   | Some who =>
                       match list_find (spoken_by who) current with
                       | Some (i, _) =>
                           print OK "Modified dialogue";;;
                           print OK "Preserved other lines";;;
                           ret (alter (DialogueLine.set_line text) i current)
                       | None =>
                           print WARNING "Target dialogue not found, keeping original";;;
                           ret current
                       end
                   | None =>
                       print WARNING "Target dialogue not found, keeping original";;;
                       ret current
                   end
               end
           | _, _ =>
               print WARNING "Incomplete modification details, keeping original";;;
               ret current
           end
       | remove =>
           match identification change with
           | Some ident =>
               match truthy_int (target_index ident) with
               | Some index =>
                   let idx := (index - 1)%Z in
                   if decide (0 ≤ idx < Z.of_nat (length current))%Z
                   then print OK "Removed dialogue line";;;
                        print OK "Preserved other lines";;;
                        ret (delete (Z.to_nat idx) current)
                   else print WARNING "Target dialogue not found, keeping original";;;
                        ret current
               | None =>
                   match truthy_str (target_character ident) with
                   | Some who =>
                       match list_find (spoken_by who) current with
                       | Some (i, _) =>
                           print OK "Removed dialogue";;;
                           print OK "Preserved other lines";;;
                           ret (delete i current)
                       | None =>
                           print WARNING "Target dialogue not found, keeping original";;;
                           ret current
                       end
                   | None =>
                       print WARNING "Target dialogue not found, keeping original";;;
                       ret current
                   end
               end
           | None =>
               print WARNING "No target specified for removal, keeping original";;;
               ret current
           end
       | insert_between => ret current
       end;;
     state_set "dialogue_scenes" (VDialogue updated))
    (λ _,
       print ERROR "Error in surgical dialogue update";;;
       state_set "dialogue_scenes" (VDialogue current)).

(** ** SceneSequencer *)

Record SceneChange := mkSceneChange {
  scene_action : Action;
  target_scene_number : option Z;
  insert_after_scene : option Z;
  num_scenes_to_insert : option Z;
  new_scenes : option (list Scene.t);
  new_scene : option Scene.t
}.

(** [scene.get('scene_number') == n] *)
Definition numbered (n : Z) (s : Scene.t) : Prop := Scene.scene_number s = n.
#[global] Instance numbered_dec n s : Decision (numbered n s) :=
  Z.eq_dec (Scene.scene_number s) n.

(** [l.insert(pos, x)] for [pos] within the list. *)
Definition py_insert {A} (pos : nat) (x : A) (l : list A) : list A :=
  take pos l ++ x :: drop pos l.

(** [for i, new_scene in enumerate(scenes_to_insert):
       updated_scenes.insert(insert_index + i, new_scene)] *)
Fixpoint insert_all {A} (pos : nat) (news : list A) (l : list A) : list A :=
  match news with
  | [] => l
  | x :: news' => insert_all (S pos) news' (py_insert pos x l)
  end.

(** [new_scene['scene_number'] = insert_after + 1 + i] *)
Definition number_new_scenes (insert_after : Z) (news : list Scene.t)
  : list Scene.t :=
  imap (λ i s, Scene.set_scene_number (insert_after + 1 + Z.of_nat i)%Z s) news.

(** [scene['scene_number'] = scene.get('scene_number', 0) + count] *)
Definition shift_scene (count : Z) (s : Scene.t) : Scene.t :=
  Scene.set_scene_number (Scene.scene_number s + count)%Z s.

(** [for scene in updated_scenes[insert_index:]]: renumber in place. *)
Definition renumber_after (insert_index : nat) (count : Z) (l : list Scene.t)
  : list Scene.t :=
  take insert_index l ++ (shift_scene count <$> drop insert_index l).

(** The three loops of [insert_between] once the insertion point is
    known: number the new scenes, renumber the scenes after the insertion
    point, insert the new scenes one by one. *)
Definition insert_scenes (insert_after : Z) (insert_index : nat)
    (news current : list Scene.t) : list Scene.t :=
  let news := number_new_scenes insert_after news in
  let updated := renumber_after insert_index (Z.of_nat (length news)) current in
  insert_all insert_index news updated.

(** The scenes an [insert_between] change supplies: the list if it is not
    empty, else the single scene. *)
Definition scenes_to_insert (change : SceneChange) : list Scene.t :=
  match new_scenes change with
  | Some (s :: l) => s :: l
  | _ => match new_scene change with
         | Some s => [s]
         | None => []
         end
  end.

Definition _update_specific_scene
    (original_scenes : option value) (llm : reply SceneChange) : M unit :=
  let current := scenes_or_empty original_scenes in
  try_except
    (change <- invoke llm;;
     updated <-
       match scene_action change with
       | add =>
           match new_scene change with
           | Some new =>
               print OK "Added scene";;;
               print OK "Preserved existing scenes";;;
               ret (current ++ [new])
           | None =>
               print WARNING "No new scene provided, keeping original";;;
               ret current
           end
       | insert_between =>
           match insert_after_scene change with
           | Some insert_after =>
               match scenes_to_insert change with
               | [] =>
                   print WARNING "No new scenes provided for insertion, keeping original";;;
                   ret current
               | news =>
                   insert_index <-
                     match list_find (numbered insert_after) current with
                     | Some (i, _) => ret (S i)
                     | None =>
                         print WARNING "Scene not found, appending to end";;;
                         ret (length current)
                     end;;
                   let updated :=
                     insert_scenes insert_after insert_index news current in
                   print OK "Total scenes";;;
                   print OK "Scene numbers now";;;
                   ret updated
               end
           | None =>
               print WARNING "No insertion point specified, keeping original";;;
               ret current
           end
       | modify =>
           match truthy_int (target_scene_number change), new_scene change with
           | Some target, Some new =>
               match list_find (numbered target) current with
               | Some (i, _) =>
                   print OK "Modified scene";;;
                   print OK "Preserved other scenes";;;
                   ret (<[i := new]> current)
               | None =>
                   print WARNING "Scene not found, keeping original";;;
                   ret current
               end
           | _, _ =>
               print WARNING "Incomplete modification details, keeping original";;;
               ret current
           end
       | remove =>
           match truthy_int (target_scene_number change) with
           | Some target =>
               match list_find (numbered target) current with
               | Some (i, _) =>
                   print OK "Removed scene";;;
                   print OK "Preserved other scenes";;;
                   ret (delete i current)
               | None =>
                   print WARNING "Scene not found, keeping original";;;
                   ret current
               end
           | None =>
               print WARNING "No target specified for removal, keeping original";;;
               ret current
           end
       end;;
     state_set "scenes" (VScenes updated))
    (λ _,
       print ERROR "Error in surgical scene update";;;
       state_set "scenes" (VScenes current)).

(** ** ReferencePropagator: location rename, and the DocumentAssembler *)

Section Engine.

(** [re.compile(re.escape(old), re.IGNORECASE).sub(new, text)] of the
    Python standard library: the case-insensitive substitution of every
    occurrence, [new] being read as a replacement template; [None] when
    the template is rejected with [re.error]. *)
Variable re_sub : string → string → string → option string.

(** The rewrite of one free-text field, present and non-empty. *)
Definition relocate_text (old_name new_name text : string) : option string :=
  if decide (text = "") then Some text
  else if str_in (lower old_name) (lower text)
       then re_sub old_name new_name text
  else Some text.

Fixpoint propagate_location_scenes (old_name new_name : string)
    (scenes : list Scene.t) : list Scene.t * option exn :=
  match scenes with
  | [] => ([], None)
  | scene :: rest =>
      match relocate_text old_name new_name (Scene.environmental_context scene)
      with
      | Some text =>
          let '(rest', e) := propagate_location_scenes old_name new_name rest in
          (Scene.set_environmental_context text scene :: rest', e)
      | None => (scene :: rest, Some ReError)
      end
  end.

Definition propagate_location_scene_list (old_name new_name : string)
  : M unit :=
  scenes <- state_get "scenes";;
  match scenes with
  | Some (VScenes ((_ :: _) as l)) =>
      let '(l', e) := propagate_location_scenes old_name new_name l in
      state_set "scenes" (VScenes l');;;
      match e with Some e => raise e | None => ret tt end
  | _ => ret tt
  end.

Definition propagate_location_draft (old_name new_name : string) : M unit :=
  draft <- state_get "draft";;
  match draft with
  | Some (VStr draft) =>
      match relocate_text old_name new_name draft with
      | Some text => state_set "draft" (VStr text)
      | None => raise ReError
      end
  | _ => ret tt
  end.

Definition _propagate_location_name_change (old_name new_name : string)
  : M unit :=
  propagate_location_scene_list old_name new_name;;;
  propagate_location_draft old_name new_name.

Definition _update_specific_location
    (original_locations : option value) (llm : reply EntityChange) : M unit :=
  update_specific_entity "locations" _propagate_location_name_change
    original_locations llm.

(** The external collaborators of one revision: the generation nodes,
    which return a dict of results or raise, and the four structured
    replies of the language model. The nodes that [update_component]
    imports ([create_initial_draft], [define_visual_language], ...) are
    not among the sources; a node is taken by its result alone, as a
    graph node that reads the state it is given and returns its updates
    without writing to it.

    The scene model is the collaborator that [update_component] prepares
    the state for: it writes [allow_scene_increase] and
    [number_of_scenes] and then [_update_specific_scene] creates the
    model from the state,
    [LLMService.create_structured_llm(self.state, SceneChange, ...)].
    Its reply is therefore taken as a function of the state the model is
    created from, so that what the model is handed can be told from what
    the revision does. *)
Record Externals := mkExternals {
  node_function : string → reply state;
  location_change : reply EntityChange;
  character_change : reply EntityChange;
  dialogue_change : reply DialogueChange;
  scene_change : state → reply SceneChange
}.

(** The feedback key of each component. *)
Definition component_map : gmap string string :=
  list_to_map
    [("draft", "draft_feedback");
     ("characters", "characters_feedback");
     ("dialogue", "dialogue_feedback");
     ("locations", "locations_feedback");
     ("visual_lookbook", "visual_lookbook_feedback");
     ("scenes", "scenes_feedback")].

Definition increase_keywords : list string :=
  ["add scene"; "add more scene"; "need more scene"; "create more scene";
   "insert scene"; "additional scene"; "more scenes"; "expand scenes";
   "increase scene count"; "add another scene"; "add new scene"].

(** [any(keyword in feedback_lower for keyword in increase_keywords)] *)
Definition allow_increase (feedback : string) : bool :=
  existsb (λ keyword, str_in keyword (lower feedback)) increase_keywords.

(** Truthiness of a value read with [self.state.get]. *)
Definition truthy (o : option value) : bool :=
  match o with
  | None => false
  | Some (VStr s) => negb (bool_decide (s = ""))
  | Some (VInt n) => negb (bool_decide (n = 0%Z))
  | Some (VBool b) => b
  | Some (VEntities l) => negb (bool_decide (l = []))
  | Some (VDialogue l) => negb (bool_decide (length l = 0))
  | Some (VScenes l) => negb (bool_decide (length l = 0))
  | Some (VLookbook b) => negb (bool_decide (length b = 0))
  end.

(** [if feedback_key in self.state: del self.state[feedback_key]] *)
Definition clear (k : string) : M unit := state_del k.

(** [self.state[k] = v] when the snapshot [v] satisfies [cond]. *)
Definition restore (cond : bool) (k : string) (v : option value) : M unit :=
  match v with
  | Some v => if cond then state_set k v else ret tt
  | None => ret tt
  end.

Definition update_component (component_name feedback : string)
    (ext : Externals) : M unit :=
  match component_map !! component_name with
  | None => print WARNING "Unknown component"
  | Some feedback_key =>
      original_title <- state_get "title";;
      original_genre <- state_get "genre";;
      original_tone <- state_get "tone";;
      original_visual_lookbook <- state_get "visual_lookbook";;
      original_draft <- state_get "draft";;
      original_characters <- state_get "characters";;
      original_locations <- state_get "locations";;
      original_dialogue_scenes <- state_get "dialogue_scenes";;
      original_scenes <- state_get "scenes";;
      state_set feedback_key (VStr feedback);;;
      if decide (component_name = "draft") then
        try_except
          (result <- invoke (node_function ext component_name);;
           match result !! "draft" with
           | Some draft =>
               state_set "draft" draft;;;
               print OK "Draft updated successfully";;;
               print OK "All other components preserved"
           | None => print WARNING "No draft returned, keeping original"
           end)
          (λ _, print ERROR "Error updating draft");;;
        clear feedback_key
      else if decide (component_name = "locations") then
        _update_specific_location original_locations (location_change ext);;;
        print OK "locations updated surgically";;;
        clear feedback_key
      else if decide (component_name = "characters") then
        _update_specific_character original_characters (character_change ext);;;
        print OK "characters updated surgically";;;
        clear feedback_key
      else if decide (component_name = "dialogue") then
        _update_specific_dialogue original_dialogue_scenes (dialogue_change ext);;;
        print OK "dialogue updated surgically";;;
        clear feedback_key
      else if decide (component_name = "scenes") then
        number_of_scenes <- state_get "number_of_scenes";;
        let original_scene_count :=
          match number_of_scenes with Some v => v | None => VInt 12 end in
        let current_scene_count :=
          if truthy original_scenes
          then VInt (Z.of_nat (length (scenes_or_empty original_scenes)))
          else original_scene_count in
        print INFO "Original user_view scene count";;;
        (if allow_increase feedback
         then print AUTHORIZED "allowing scene count increase";;;
              state_set "allow_scene_increase" (VBool true)
         else print ENFORCED "Scene count will be preserved";;;
              state_set "allow_scene_increase" (VBool false));;;
        state_set "number_of_scenes" current_scene_count;;;
        (* LLMService.create_structured_llm(self.state, SceneChange, ...) *)
        handed <- state_read;;
        _update_specific_scene original_scenes (scene_change ext handed);;;
        clear feedback_key;;;
        clear "allow_scene_increase"
      else if decide (component_name = "visual_lookbook") then
        try_except
          (result <- invoke (node_function ext component_name);;
           match result !! "visual_lookbook" with
           | Some lookbook =>
               state_set "visual_lookbook" lookbook;;;
               print OK "Visual lookbook updated successfully";;;
               print OK "All other components preserved"
           | None => print WARNING "No visual lookbook returned, keeping original"
           end)
          (λ _, print ERROR "Error updating visual lookbook");;;
        clear feedback_key
      else
        try_except
          (result <- invoke (node_function ext component_name);;
           (λ st, (Ret tt, result ∪ st, []));;;
           restore (truthy original_title) "title" original_title;;;
           restore (truthy original_genre) "genre" original_genre;;;
           restore (truthy original_tone) "tone" original_tone;;;
           restore (bool_decide (component_name ≠ "draft"))
             "draft" original_draft;;;
           restore (bool_decide (component_name ≠ "characters"))
             "characters" original_characters;;;
           restore (bool_decide (component_name ≠ "locations"))
             "locations" original_locations;;;
           restore (bool_decide (component_name ≠ "dialogue"))
             "dialogue_scenes" original_dialogue_scenes;;;
           restore true "visual_lookbook" original_visual_lookbook;;;
           restore (bool_decide (component_name ≠ "scenes"))
             "scenes" original_scenes;;;
           print OK "updated successfully")
          (λ _, print ERROR "Error updating component");;;
        clear feedback_key
  end.

End Engine.

(** ** A reference regular-expression engine

    The development is parametric in [re_sub]. Closed examples need one
    engine: for a replacement text without a backslash, Python's
    substitution replaces, from left to right, every non-overlapping
    occurrence that equals the pattern up to case. *)

Fixpoint startswith_nocase (p s : string) : bool :=
  match p, s with
  | "", _ => true
  | String a p', String b s' =>
      bool_decide (lower_char a = lower_char b) && startswith_nocase p' s'
  | String _ _, "" => false
  end.

Fixpoint sub_nocase_go (old new : string) (skip : nat) (s : string) : string :=
  match s with
  | "" => ""
  | String c s' =>
      match skip with
      | S k => sub_nocase_go old new k s'
      | O =>
          if startswith_nocase old s
          then new +:+ sub_nocase_go old new (String.length old - 1) s'
          else String c (sub_nocase_go old new 0 s')
      end
  end.

Definition re_sub_literal (old new text : string) : option string :=
  Some (if decide (old = "") then replace_empty new text
        else sub_nocase_go old new 0 text).

(** ** The exported user view

    The JSON document [load_user_view] returns and
    [update_state_from_user_view] reads, with the keys the orchestrator
    reads through [.get(key, default)]; a key is absent ([None]) or holds
    a value of its kind.  A JSON object is kept as the list of its
    entries in the order of the file, which is the order [.items()]
    yields. *)

(** An entry of [dialogues_by_character[name]]. *)
Module UserLine.
Record t := mk {
    scene_number : option Z;
    line : option string
  }.
End UserLine.

(** An entry of a scene's [dialogues_in_scene]. *)
Module UserSceneLine.
Record t := mk {
    character : option string;
    line : option string
  }.
End UserSceneLine.

Module VisualElements.
Record t := mk {
    environmental_context : option string;
    subject_action : option string
  }.
End VisualElements.

Module CameraWork.
Record t := mk {
    shot_type : option string;
    camera_angle : option string;
    camera_movement : option string;
    camera_perspective : option string
  }.
End CameraWork.

Module UserScene.
Record t := mk {
    scene_number : option Z;
    visual_elements : option VisualElements.t;
    camera_work : option CameraWork.t;
    dialogues_in_scene : option (list UserSceneLine.t)
  }.
End UserScene.

Module UserView.
Record t := mk {
    title : option string;
    genre : option string;
    tone : option string;
    log_line : option string;
    draft : option string;
    visual_style : option Lookbook;
    characters : option (list Entity);
    locations : option (list Entity);
    dialogues_by_character : option (list (string * list UserLine.t));
    scenes : option (list UserScene.t)
  }.
End UserView.

(** The dict appended for one line of one character. *)
Definition internal_dialogue (char_name : string) (line_data : UserLine.t)
  : DialogueLine.t :=
  DialogueLine.mk char_name
    (default 0%Z (UserLine.scene_number line_data))
    (default "" (UserLine.line line_data)).

(** [for char_name, lines in dialogues_by_character.items():
       for line_data in lines: dialogue_scenes.append(...)] *)
Definition dialogue_scenes_of (by_character : list (string * list UserLine.t))
  : list DialogueLine.t :=
  by_character ≫= λ '(char_name, lines), internal_dialogue char_name <$> lines.

(** The user view says [character], the state says [character_name]. *)
Definition internal_dialogue_line (dialogue : UserSceneLine.t) : SceneLine.t :=
  SceneLine.mk (default "UNKNOWN" (UserSceneLine.character dialogue))
    (default "" (UserSceneLine.line dialogue)).

Definition internal_scene (scene : UserScene.t) : Scene.t :=
  let visual_elements := UserScene.visual_elements scene in
  let camera_work := UserScene.camera_work scene in
  Scene.mk
    (default 0%Z (UserScene.scene_number scene))
    (default "" (visual_elements ≫= VisualElements.environmental_context))
    (default "" (visual_elements ≫= VisualElements.subject_action))
    (default "" (camera_work ≫= CameraWork.shot_type))
    (default "" (camera_work ≫= CameraWork.camera_angle))
    (default "" (camera_work ≫= CameraWork.camera_movement))
    (default "" (camera_work ≫= CameraWork.camera_perspective))
    (internal_dialogue_line <$> default [] (UserScene.dialogues_in_scene scene)).

Definition update_state_from_user_view (user_view_data : UserView.t) : M unit :=
  state_set "title" (VStr (default "Untitled" (UserView.title user_view_data)));;;
  state_set "genre" (VStr (default "" (UserView.genre user_view_data)));;;
  state_set "tone" (VStr (default "" (UserView.tone user_view_data)));;;
  state_set "log_line" (VStr (default "" (UserView.log_line user_view_data)));;;
  state_set "draft" (VStr (default "" (UserView.draft user_view_data)));;;
  match UserView.visual_style user_view_data with
  | Some ((_ :: _) as visual_style) =>
      state_set "visual_lookbook" (VLookbook visual_style)
  | _ => ret tt
  end;;;
  state_set "characters"
    (VEntities (default [] (UserView.characters user_view_data)));;;
  state_set "locations"
    (VEntities (default [] (UserView.locations user_view_data)));;;
  match UserView.dialogues_by_character user_view_data with
  | Some ((_ :: _) as dialogues_by_character) =>
      state_set "dialogue_scenes"
        (VDialogue (dialogue_scenes_of dialogues_by_character))
  | _ => ret tt
  end;;;
  match UserView.scenes user_view_data with
  | Some ((_ :: _) as scenes) =>
      let internal_scenes := internal_scene <$> scenes in
      state_set "scenes" (VScenes internal_scenes);;;
      state_set "number_of_scenes"
        (VInt (Z.of_nat (length internal_scenes)));;;
      print INFO "Preserved scene count"
  | _ => ret tt
  end;;;
  print OK "State updated successfully".

(** ** Analysis models: [OrchestratorAgent/models/orchestrator.py] *)

Module ComponentFeedback.
Record t := mk {
    component_name : string;
    needs_update : bool;
    feedback : string;
    priority : Z
  }.
End ComponentFeedback.

(** [components.sort(key=lambda x: x.priority)]: Python's sort is stable,
    so its result is the one list that is ordered by the key and keeps
    the entries of equal key in the order they came in; the insertion
    below computes it. *)
Fixpoint insert_by_priority (x : ComponentFeedback.t)
    (l : list ComponentFeedback.t) : list ComponentFeedback.t :=
  match l with
  | [] => [x]
  | y :: l' =>
      if decide (ComponentFeedback.priority x ≤ ComponentFeedback.priority y)%Z
      then x :: y :: l'
      else y :: insert_by_priority x l'
  end.

Fixpoint sort_by_priority (l : list ComponentFeedback.t)
  : list ComponentFeedback.t :=
  match l with
  | [] => []
  | x :: l' => insert_by_priority x (sort_by_priority l')
  end.

(** [UserViewAnalysis.get_components_to_update] on the analysis's
    [component_feedback]. *)
Definition get_components_to_update (component_feedback : list ComponentFeedback.t)
  : list string :=
  let components :=
    filter (λ cf, ComponentFeedback.needs_update cf = true) component_feedback in
  ComponentFeedback.component_name <$> sort_by_priority components.

(** [UserViewAnalysis.get_feedback_for_component] *)
Definition get_feedback_for_component
    (component_feedback : list ComponentFeedback.t) (component_name : string)
  : option string :=
  (λ p, ComponentFeedback.feedback p.2) <$>
    list_find
      (λ cf, ComponentFeedback.component_name cf = component_name
             ∧ ComponentFeedback.needs_update cf = true)
      component_feedback.

(** ** Component identification and its keyword fallback *)

Record ComponentIdentification := mkComponentIdentification {
  user_intent : string;
  primary_component : string;
  dependent_components : list string;
  reasoning : string;
  primary_feedback : string
}.

Definition component_keywords : list (string * list string) :=
  [("characters", ["character"; "protagonist"; "person"; "people"; "cast"]);
   ("draft", ["draft"; "story"; "narrative"; "plot"; "storyline"]);
   ("dialogue", ["dialogue"; "dialog"; "conversation"; "lines"; "speech"]);
   ("locations", ["location"; "place"; "setting"; "scene location"; "where"]);
   ("visual_lookbook",
    ["visual"; "style"; "look"; "aesthetic"; "color"; "camera"]);
   ("scenes", ["scene"; "shot"; "sequence"; "scene breakdown"])].

(** The two nested loops of the fallback: the first component, in the
    order of the table, one of whose keywords occurs in the feedback. *)
Definition keyword_component (feedback_lower : string) : option string :=
  (λ p, p.2.1) <$>
    list_find
      (λ entry : string * list string,
         existsb (λ keyword, str_in keyword feedback_lower) entry.2 = true)
      component_keywords.

Definition fallback_identification (user_feedback : string)
  : ComponentIdentification :=
  let primary := default "draft" (keyword_component (lower user_feedback)) in
  mkComponentIdentification user_feedback primary []
    ("Fallback keyword detection identified '" +:+ primary
     +:+ "' component (updating only this component)")
    user_feedback.

(** [identify_components_with_llm] from its [try]: the structured reply
    of the model, or the keyword fallback when the call raises. *)
Definition identify_components_with_llm
    (llm : reply ComponentIdentification) (user_feedback : string)
  : M ComponentIdentification :=
  try_except
    (result <- invoke llm;;
     print OK "Analysis complete";;;
     ret result)
    (λ _,
       print ERROR "Error during LLM analysis";;;
       ret (fallback_identification user_feedback)).

(** [ReactOrchestratorAgent._fallback_analysis]: the dict it returns has
    the three keys below. *)
Record ReactDecision := mkReactDecision {
  decision_primary_component : string;
  decision_dependent_components : list string;
  decision_reasoning : string
}.

Definition _fallback_analysis (user_feedback : string) : ReactDecision :=
  let feedback_lower := lower user_feedback in
  let location_keywords :=
    ["location"; "place"; "setting"; "cafe"; "park"; "shop"; "change the"] in
  let char_keywords := ["character"; "person"; "add"; "named"] in
  if existsb (λ kw, str_in kw feedback_lower) location_keywords
  then mkReactDecision "locations" []
         "Fallback: Detected location-related keywords (updating location only)"
  else if existsb (λ kw, str_in kw feedback_lower) char_keywords
  then mkReactDecision "characters" []
         "Fallback: Detected character-related keywords (adding character only)"
  else mkReactDecision "draft" []
         "Fallback: General story feedback (updating draft only)".

Section Revision.

Variable re_sub : string → string → string → option string.

(** Step 7 of [orchestrate_revision]:
    [for component in components_to_update:
         feedback = analysis.get_feedback_for_component(component)
         if feedback: self.update_component(component, feedback)].
    The [i]-th call meets the collaborators [ext i]. *)
Fixpoint apply_updates (get_feedback : string → option string)
    (ext : nat → Externals) (i : nat) (components_to_update : list string)
  : M unit :=
  match components_to_update with
  | [] => ret tt
  | component :: rest =>
      match truthy_str (get_feedback component) with
      | Some feedback => update_component re_sub component feedback (ext i)
      | None => ret tt
      end;;;
      apply_updates get_feedback ext (S i) rest
  end.

(** Steps 6 and 7 of [orchestrate_revision]: the state is loaded from the
    user view, then the components are revised in turn. *)
Definition load_and_update (user_view_data : UserView.t)
    (get_feedback : string → option string) (ext : nat → Externals)
    (components_to_update : list string) : M unit :=
  update_state_from_user_view user_view_data;;;
  apply_updates get_feedback ext 0 components_to_update.

End Revision.

(** ** Vocabulary of the statements *)

(** [sub] occurs in [s] as a substring. *)
Definition occurs (sub s : string) : Prop := ∃ a b, s = a +:+ sub +:+ b.

(** Follows the specification's words, not the source: the replacement of
    the first occurrence only, [s.replace(old, new, 1)]. *)
Fixpoint spec_replace_first (old new s : string) : string :=
  match s with
  | "" => if startswith old "" then new else ""
  | String c s' =>
      if startswith old s then new +:+ str_drop (String.length old) s
      else String c (spec_replace_first old new s')
  end.

(** What the character propagator makes of one free-text field: nothing
    of an empty field; every occurrence of the full name when there is
    one; else every occurrence of the first name, when the name has one
    of its own and it occurs; else nothing. *)
Definition rewritten (old_name new_name old_first new_first text text' : string)
  : Prop :=
  (text = "" ∧ text' = "")
  ∨ (text ≠ "" ∧ occurs old_name text
     ∧ text' = replace old_name new_name text)
  ∨ (text ≠ "" ∧ ¬ occurs old_name text
     ∧ old_first ≠ old_name ∧ occurs old_first text
     ∧ text' = replace old_first new_first text)
  ∨ (text ≠ "" ∧ ¬ occurs old_name text
     ∧ ¬ (old_first ≠ old_name ∧ occurs old_first text)
     ∧ text' = text).

(** One iteration of the scene loop of the character propagator. *)
Definition renamed_scene (old_name new_name old_first new_first : string)
    (s : Scene.t) : Scene.t :=
  rename_in_scene old_name new_name old_first new_first
    (Scene.set_dialogue_lines
       (rename_scene_speaker old_name new_name <$> Scene.dialogue_lines s) s).

(** [st[k] = f(st[k])] when the key is present and [f] applies. *)
Definition modify_key (k : string) (f : value → option value) (st : state)
  : state :=
  match st !! k with
  | Some v => match f v with Some v' => <[k := v']> st | None => st end
  | None => st
  end.

Definition on_dialogue (f : DialogueLine.t → DialogueLine.t) (v : value)
  : option value :=
  match v with VDialogue l => Some (VDialogue (f <$> l)) | _ => None end.
Definition on_scenes (f : Scene.t → Scene.t) (v : value) : option value :=
  match v with VScenes l => Some (VScenes (f <$> l)) | _ => None end.
Definition on_text (f : string → string) (v : value) : option value :=
  match v with VStr s => Some (VStr (f s)) | _ => None end.

(** The scene numbers are exactly 1..P, ascending. *)
Definition contiguous (scenes : list Scene.t) : Prop :=
  Scene.scene_number <$> scenes = seqZ 1 (Z.of_nat (length scenes)).

(** The insertion index [insert_between] computes. *)
Definition insert_point (anchor : Z) (scenes : list Scene.t) : nat :=
  match list_find (numbered anchor) scenes with
  | Some (i, _) => S i
  | None => length scenes
  end.

(** The largest scene number of a list (0 for the empty list). *)
Definition max_scene_number (scenes : list Scene.t) : Z :=
  foldr Z.max 0%Z (Scene.scene_number <$> scenes).

(** The target of a change matches no entity of the collection. *)
Definition entity_unmatched (change : EntityChange) (l : list Entity) : Prop :=
  match target_name change with
  | Some target => ∀ e, e ∈ l → ¬ matches_name target e
  | None => True
  end.

Definition dialogue_unmatched (change : DialogueChange)
    (l : list DialogueLine.t) : Prop :=
  match identification change with
  | None => True
  | Some ident =>
      match truthy_int (target_index ident) with
      | Some index => ¬ (1 ≤ index ≤ Z.of_nat (length l))%Z
      | None =>
          match target_character ident with
          | Some who => ∀ d, d ∈ l → ¬ spoken_by who d
          | None => True
          end
      end
  end.

Definition scene_unmatched (change : SceneChange) (l : list Scene.t) : Prop :=
  match target_scene_number change with
  | Some n => ∀ s, s ∈ l → ¬ numbered n s
  | None => True
  end.

(** The same dialogue change with the positional index left out. *)
Definition without_index (change : DialogueChange) : DialogueChange :=
  mkDialogueChange (dialogue_action change)
    (match identification change with
     | Some ident =>
         Some (mkDialogueIdentification None (target_character ident))
     | None => None
     end)
    (new_dialogue change) (modified_line change) (dialogue_scene_number change).

(** [m] leaves every key outside [K] as it found it. *)
Definition preserves {A} (K : list string) (m : M A) : Prop :=
  ∀ st k, k ∉ K → final_state (m st) !! k = st !! k.

(** [m] returns normally from every state. *)
Definition returns {A} (m : M A) : Prop :=
  ∀ st, ∃ a, (m st).1.1 = Ret a.

(** The reply is a [modify] that finds its entity and changes its name:
    the case in which the patch calls the propagator. *)
Definition renames (llm : reply EntityChange) (l : list Entity) : Prop :=
  ∃ change target new i e,
    llm = Returned change ∧ action change = modify
    ∧ truthy_str (target_name change) = Some target
    ∧ new_entity change = Some new
    ∧ list_find (matches_name target) l = Some (i, e)
    ∧ name e ≠ name new.

(** The top-level fields of the document. *)
Definition document_fields : list string :=
  ["title"; "genre"; "tone"; "draft"; "characters"; "locations";
   "dialogue_scenes"; "scenes"; "visual_lookbook"].

(** The state key a component name stands for. *)
Definition target_field (component_name : string) : string :=
  if decide (component_name = "dialogue") then "dialogue_scenes"
  else component_name.

(** The fields a rename of the component's entity propagates to. *)
Definition rewritten_by_rename (component_name : string) : list string :=
  if decide (component_name = "characters")
  then ["dialogue_scenes"; "scenes"; "draft"]
  else if decide (component_name = "locations") then ["scenes"; "draft"]
  else [].

Definition rename_event (component_name : string) (ext : Externals)
    (st : state) : Prop :=
  (component_name = "characters"
   ∧ renames (character_change ext) (entities_or_empty (st !! "characters")))
  ∨ (component_name = "locations"
     ∧ renames (location_change ext) (entities_or_empty (st !! "locations"))).

(** The state in which [update_component] runs the scene patch. *)
Definition scene_patch_state (feedback : string) (st : state) : state :=
  <["number_of_scenes" :=
      if truthy (st !! "scenes")
      then VInt (Z.of_nat (length (scenes_or_empty (st !! "scenes"))))
      else default (VInt 12) (st !! "number_of_scenes")]>
    (<["allow_scene_increase" := VBool (allow_increase feedback)]>
       (<["scenes_feedback" := VStr feedback]> st)).

(** The state [update_state_from_user_view] leaves, key by key. *)
Definition loaded (uv : UserView.t) (st : state) : state :=
  let st := <["title" := VStr (default "Untitled" (UserView.title uv))]> st in
  let st := <["genre" := VStr (default "" (UserView.genre uv))]> st in
  let st := <["tone" := VStr (default "" (UserView.tone uv))]> st in
  let st := <["log_line" := VStr (default "" (UserView.log_line uv))]> st in
  let st := <["draft" := VStr (default "" (UserView.draft uv))]> st in
  let st :=
    match UserView.visual_style uv with
    | Some ((_ :: _) as b) => <["visual_lookbook" := VLookbook b]> st
    | _ => st
    end in
  let st := <["characters" := VEntities (default [] (UserView.characters uv))]> st in
  let st := <["locations" := VEntities (default [] (UserView.locations uv))]> st in
  let st :=
    match UserView.dialogues_by_character uv with
    | Some ((_ :: _) as d) =>
        <["dialogue_scenes" := VDialogue (dialogue_scenes_of d)]> st
    | _ => st
    end in
  match UserView.scenes uv with
  | Some ((_ :: _) as l) =>
      <["number_of_scenes" := VInt (Z.of_nat (length (internal_scene <$> l)))]>
        (<["scenes" := VScenes (internal_scene <$> l)]> st)
  | _ => st
  end.

(** The order of [get_components_to_update]. *)
Definition by_priority (a b : ComponentFeedback.t) : Prop :=
  (ComponentFeedback.priority a ≤ ComponentFeedback.priority b)%Z.

(** The entries of an analysis that need an update, in its order. *)
Definition needing_update (l : list ComponentFeedback.t)
  : list ComponentFeedback.t :=
  filter (λ cf, ComponentFeedback.needs_update cf = true) l.

(** Some keyword of the list occurs in the text. *)
Definition mentions (keywords : list string) (text : string) : Prop :=
  ∃ keyword, keyword ∈ keywords ∧ occurs keyword text.

(** The scene numbers go strictly up along the list (gaps allowed). *)
Definition ascending (scenes : list Scene.t) : Prop :=
  StronglySorted Z.lt (Scene.scene_number <$> scenes).

(** The text names the character: by the full name, or by the first name
    when the name has one of its own. *)
Definition names_character (old_name old_first text : string) : Prop :=
  occurs old_name text ∨ (old_first ≠ old_name ∧ occurs old_first text).

(** The keys a revision can write: the six components, their feedback
    keys, the scene-count flag and the scene count. *)
Definition revision_keys : list string :=
  ["draft_feedback"; "characters_feedback"; "dialogue_feedback";
   "locations_feedback"; "visual_lookbook_feedback"; "scenes_feedback";
   "allow_scene_increase"; "number_of_scenes";
   "draft"; "characters"; "locations"; "dialogue_scenes"; "scenes";
   "visual_lookbook"].

(** The scratch keys of a revision. *)
Definition scratch_keys : list string :=
  ["draft_feedback"; "characters_feedback"; "dialogue_feedback";
   "locations_feedback"; "visual_lookbook_feedback"; "scenes_feedback";
   "allow_scene_increase"].

(** No scratch key is in the state. *)
Definition scratch_free (st : state) : Prop :=
  ∀ k, k ∈ scratch_keys → st !! k = None.

(** [m] keeps [P] true of the state, also when it raises. *)
Definition maintains {A} (P : state → Prop) (m : M A) : Prop :=
  ∀ st, P st → P (final_state (m st)).

(** An [ERROR] line was printed. *)
Definition reported_error {A} (r : res A * state * list console_line) : Prop :=
  ∃ text, (ERROR, text) ∈ output r.

(** ** Example documents and replies *)

Definition plain_scene (n : Z) (env act : string) (lines : list SceneLine.t)
  : Scene.t :=
  Scene.mk n env act "" "" "" "" lines.

Definition pier_document : state :=
  list_to_map
    [("title", VStr "Tide");
     ("draft", VStr "Elena Cross met Bob. Elena Cross left.");
     ("characters",
      VEntities [mkEntity "Elena Cross" [("role", "lead")]; mkEntity "Bob" []]);
     ("locations", VEntities [mkEntity "Cafe" []]);
     ("dialogue_scenes",
      VDialogue [DialogueLine.mk "Elena Cross" 1 "We leave at dawn.";
                 DialogueLine.mk "Bob" 1 "Fine.";
                 DialogueLine.mk "Elena Cross" 2 "Now."]);
     ("scenes",
      VScenes [plain_scene 1 "Elena waits at the Cafe"
                 "Elena Cross paces. Elena Cross stops."
                 [SceneLine.mk "Elena Cross" "We leave at dawn."];
               plain_scene 2 "The pier" "Bob arrives." []])].

Definition eight_scenes : list Scene.t :=
  (λ n, plain_scene n "" "" []) <$> seqZ 1 8.

Definition three_scenes : list Scene.t :=
  (λ n, plain_scene n "" "" []) <$> seqZ 1 3.

Definition five_lines : list DialogueLine.t :=
  [DialogueLine.mk "Alice" 1 "One."; DialogueLine.mk "Bob" 1 "Two.";
   DialogueLine.mk "Alice" 2 "Three."; DialogueLine.mk "BOB" 2 "Four.";
   DialogueLine.mk "Carol" 3 "Five."].

(** No collaborator answers. *)
Definition silent : Externals :=
  mkExternals (λ _, Raised) Raised Raised Raised (λ _, Raised).

Definition rename_elena : EntityChange :=
  mkEntityChange modify (Some "elena cross")
    (Some (mkEntity "Mara Cross" [("role", "lead")])).

Definition replying_characters (change : EntityChange) : Externals :=
  mkExternals (λ _, Raised) Raised (Returned change) Raised (λ _, Raised).

Definition replying_scenes (change : SceneChange) : Externals :=
  mkExternals (λ _, Raised) Raised Raised Raised (λ _, Returned change).

(** A document whose only character has a name made of one space. *)
Definition blank_name_document : state :=
  list_to_map
    [("draft", VStr "A story.");
     ("characters", VEntities [mkEntity " " []]);
     ("dialogue_scenes", VDialogue [DialogueLine.mk " " 1 "Hello."])].

Definition rename_blank : EntityChange :=
  mkEntityChange modify (Some " ") (Some (mkEntity "Mara" [])).

(** The changes of the worked examples. *)
Definition insert_two_after_one : SceneChange :=
  mkSceneChange insert_between None (Some 1%Z) (Some 2%Z)
    (Some [plain_scene 0 "new A" "" []; plain_scene 0 "new B" "" []]) None.

Definition insert_one_after (anchor : Z) : SceneChange :=
  mkSceneChange insert_between None (Some anchor) None None
    (Some (plain_scene 0 "new" "" [])).

Definition reword_bob (index : Z) : DialogueChange :=
  mkDialogueChange modify
    (Some (mkDialogueIdentification (Some index) (Some "bob")))
    None (Some "Reworded.") None.

(** ** Further example documents and replies *)

Definition pier_view_scenes : list UserScene.t :=
  [UserScene.mk (Some 1%Z)
     (Some (VisualElements.mk (Some "The Cafe at dusk") (Some "Elena waits.")))
     (Some (CameraWork.mk (Some "wide") None None None))
     (Some [UserSceneLine.mk (Some "Elena Cross") (Some "We leave at dawn.");
            UserSceneLine.mk None (Some "Fine.")]);
   UserScene.mk None None None None].

Definition pier_view_dialogues : list (string * list UserLine.t) :=
  [("Elena Cross",
    [UserLine.mk (Some 1%Z) (Some "We leave at dawn.");
     UserLine.mk (Some 2%Z) (Some "Now.")]);
   ("Bob", [UserLine.mk None (Some "Fine.")])].

Definition pier_view : UserView.t :=
  UserView.mk (Some "Tide") (Some "drama") None None
    (Some "Elena Cross met Bob.") None
    (Some [mkEntity "Elena Cross" []; mkEntity "Bob" []]) None
    (Some pier_view_dialogues) (Some pier_view_scenes).

(** Two characters that differ in case only, and a third. *)
Definition two_bobs : list Entity :=
  [mkEntity "Elena Cross" []; mkEntity "Bob" [("role", "first")];
   mkEntity "BOB" [("role", "second")]].

(** Scenes numbered 1, 3, 4: the list a removal of scene 2 leaves. *)
Definition gapped_scenes : list Scene.t :=
  (λ n, plain_scene n "" "" []) <$> [1; 3; 4]%Z.

(** A document nobody named Zed appears in. *)
Definition quiet_document : state :=
  list_to_map
    [("draft", VStr "A story.");
     ("scenes", VScenes [plain_scene 1 "The pier" "Bob arrives."
                           [SceneLine.mk "Bob" "Fine."]]);
     ("dialogue_scenes", VDialogue [DialogueLine.mk "Bob" 1 "Fine."])].

(** Every call of the loop gets the same replies. *)
Definition always (ext : Externals) : nat → Externals := λ _, ext.

(** A scene model that follows the guidance of the state it is created
    from: it proposes a new last scene where the flag allows an increase
    and gives no proposal where it does not. *)
Definition guided_scene_model (new : Scene.t) : Externals :=
  mkExternals (λ _, Raised) Raised Raised Raised
    (λ handed,
       match handed !! "allow_scene_increase" with
       | Some (VBool true) =>
           Returned (mkSceneChange add None None None None (Some new))
       | _ => Raised
       end).

(** ** Tactics *)

(** Finds the [WARNING] line in a literal console output. *)
Ltac find_warning :=
  eexists; repeat first [apply list_elem_of_here | apply list_elem_of_further].

(** Unfolds the monad of a patch function. *)
Ltac run_patch :=
  unfold try_except, bind, invoke, ret, print, state_set, final_state, warned,
    output in *.

(** Membership of a key in a list of literal keys. *)
Ltac in_list :=
  repeat first [apply list_elem_of_here | apply list_elem_of_further].

(** Closes a goal about a key and lists of literal keys, from the
    hypotheses that place the key. *)
Ltac not_in :=
  rewrite ?elem_of_cons, ?elem_of_nil in *;
  intuition (subst; try discriminate; try congruence).

Ltac sublist_solver :=
  let x := fresh "x" in
  intros x; rewrite ?elem_of_cons, ?elem_of_nil; intuition auto.

(** ** Python strings: substring test and replacement *)

Lemma app_empty_l (s : string) : "" +:+ s = s.
Proof. reflexivity. Qed.

Lemma app_cons (c : ascii) (a b : string) :
  String c a +:+ b = String c (a +:+ b).
Proof. reflexivity. Qed.

Lemma startswith_spec p s : startswith p s = true ↔ ∃ b, s = p +:+ b.
Proof.
  revert s. induction p as [|a p IH]; intros s; simpl.
  - split; [intros _; by exists s|done].
  - destruct s as [|b s].
    + split; [done|]. intros [x Hx]. rewrite app_cons in Hx. discriminate.
    + rewrite andb_true_iff, bool_decide_eq_true, IH. split.
      * intros [-> [x ->]]. by exists x.
      * intros [x Hx]. rewrite app_cons in Hx. injection Hx as -> ->. eauto.
Qed.

Lemma str_in_spec sub s : str_in sub s = true ↔ occurs sub s.
Proof.
  unfold occurs. induction s as [|c s IH].
  - simpl. rewrite orb_false_r, startswith_spec. split.
    + intros [b Hb]. by exists "", b.
    + intros (a & b & Hab). destruct a; [|by rewrite app_cons in Hab].
      rewrite app_empty_l in Hab. eauto.
  - cbn [str_in]. rewrite orb_true_iff, startswith_spec, IH. split.
    + intros [[b Hb]|(a & b & Hab)].
      * by exists "", b.
      * exists (String c a), b. by rewrite app_cons, Hab.
    + intros (a & b & Hab). destruct a as [|x a].
      * left. rewrite app_empty_l in Hab. eauto.
      * right. rewrite app_cons in Hab. injection Hab as -> ->. eauto.
Qed.

Lemma str_in_false sub s : str_in sub s = false ↔ ¬ occurs sub s.
Proof. rewrite <- str_in_spec. by destruct (str_in sub s). Qed.

Lemma replace_go_skip old new p s :
  replace_go old new (String.length p) (p +:+ s) = replace_go old new 0 s.
Proof. induction p as [|c p IH]; [done|]. by rewrite app_cons. Qed.

(** The three equations of a replacement of every occurrence, scanning
    from the left: at a match the whole pattern is replaced and the scan
    resumes after it; elsewhere one character is copied. *)
Lemma replace_match old new s :
  old ≠ "" → replace old new (old +:+ s) = new +:+ replace old new s.
Proof.
  intros Hne. unfold replace. rewrite !decide_False by done.
  destruct old as [|c old]; [done|].
  rewrite app_cons. cbn [replace_go].
  assert (Hs : startswith (String c old) (String c (old +:+ s)) = true).
  { apply startswith_spec. by exists s. }
  rewrite Hs. cbn [String.length]. rewrite Nat.sub_1_r. cbn [Nat.pred].
  by rewrite replace_go_skip.
Qed.

Lemma replace_skip old new c s :
  old ≠ "" → startswith old (String c s) = false →
  replace old new (String c s) = String c (replace old new s).
Proof.
  intros Hne Hs. unfold replace. rewrite !decide_False by done.
  cbn [replace_go]. by rewrite Hs.
Qed.

Lemma replace_absent old new s :
  old ≠ "" → str_in old s = false → replace old new s = s.
Proof.
  intros Hne. induction s as [|c s IH]; intros Hin.
  - unfold replace. by rewrite decide_False.
  - cbn [str_in] in Hin. apply orb_false_iff in Hin as [Hs Hin].
    rewrite replace_skip by done. by rewrite IH.
Qed.

Lemma rename_in_text_rewritten old_name new_name old_first new_first text :
  text ≠ "" →
  rewritten old_name new_name old_first new_first text
    (rename_in_text old_name new_name old_first new_first text).
Proof.
  intros Hne. unfold rewritten, rename_in_text.
  destruct (str_in old_name text) eqn:Hfull.
  - right; left. split_and!; [done|by apply str_in_spec|done].
  - apply str_in_false in Hfull.
    destruct (decide (old_first ≠ old_name)) as [Hd|Hd].
    + rewrite bool_decide_eq_true_2 by done. cbn [andb].
      destruct (str_in old_first text) eqn:Hfirst.
      * right; right; left.
        split_and!; [done|done|done|by apply str_in_spec|done].
      * apply str_in_false in Hfirst. right; right; right.
        split_and!; [done|done| |done]. by intros [_ ?].
    + rewrite bool_decide_eq_false_2 by done. cbn [andb].
      right; right; right. split_and!; [done|done| |done]. by intros [? _].
Qed.

Lemma rename_in_field_rewritten old_name new_name old_first new_first text :
  rewritten old_name new_name old_first new_first text
    (rename_in_field old_name new_name old_first new_first text).
Proof.
  unfold rename_in_field. destruct (decide (text = "")) as [->|Hne].
  - by left.
  - by apply rename_in_text_rewritten.
Qed.

(** ** Lists: search, update and removal at the first match *)

Lemma list_find_first {A} (P : A → Prop) `{!∀ x, Decision (P x)} pre x post :
  P x → (∀ y, y ∈ pre → ¬ P y) →
  list_find P (pre ++ x :: post) = Some (length pre, x).
Proof.
  intros Hx Hpre. apply list_find_Some. split_and!.
  - by rewrite list_lookup_middle.
  - done.
  - intros j y Hj Hlt. apply Hpre.
    rewrite lookup_app_l in Hj by done. by eapply list_elem_of_lookup_2.
Qed.

Lemma list_find_unmatched {A} (P : A → Prop) `{!∀ x, Decision (P x)} l :
  (∀ x, x ∈ l → ¬ P x) → list_find P l = None.
Proof. intros Hno. apply list_find_None, Forall_forall. exact Hno. Qed.

Lemma delete_middle {A} (pre : list A) x post :
  delete (length pre) (pre ++ x :: post) = pre ++ post.
Proof. induction pre; simpl; [done|]. by f_equal. Qed.

Lemma insert_middle {A} (pre : list A) x y post :
  <[length pre := y]> (pre ++ x :: post) = pre ++ y :: post.
Proof. induction pre; simpl; [done|]. by f_equal. Qed.

Lemma alter_middle {A} (f : A → A) (pre : list A) x post :
  alter f (length pre) (pre ++ x :: post) = pre ++ f x :: post.
Proof. induction pre; simpl; [done|]. by f_equal. Qed.

Lemma seqZ_split m (a b : nat) :
  seqZ m (Z.of_nat (a + b))
  = seqZ m (Z.of_nat a) ++ seqZ (m + Z.of_nat a) (Z.of_nat b).
Proof. rewrite Nat2Z.inj_add. apply seqZ_app; lia. Qed.

Lemma take_seqZ m (n p : nat) :
  n ≤ p → take n (seqZ m (Z.of_nat p)) = seqZ m (Z.of_nat n).
Proof.
  intros Hle. replace p with (n + (p - n)) by lia.
  rewrite seqZ_split. apply take_app_length'. rewrite length_seqZ. lia.
Qed.

Lemma drop_seqZ m (n p : nat) :
  n ≤ p → drop n (seqZ m (Z.of_nat p)) = seqZ (m + Z.of_nat n) (Z.of_nat (p - n)).
Proof.
  intros Hle. replace p with (n + (p - n)) at 1 by lia.
  rewrite seqZ_split. apply drop_app_length'. rewrite length_seqZ. lia.
Qed.

(** ** SceneSequencer: the splice *)

Arguments insert_scenes : simpl never.

Lemma py_insert_length {A} pos (x : A) l :
  length (py_insert pos x l) = S (length l).
Proof.
  unfold py_insert.
  rewrite length_app, length_cons, length_take, length_drop. lia.
Qed.

(** Inserting one by one at consecutive positions is a splice. *)
Lemma insert_all_splice {A} (news l : list A) pos :
  pos ≤ length l →
  insert_all pos news l = take pos l ++ news ++ drop pos l.
Proof.
  revert pos l. induction news as [|x news IH]; intros pos l Hpos; simpl.
  - by rewrite take_drop.
  - rewrite IH by (rewrite py_insert_length; lia).
    unfold py_insert.
    assert (Hlen : length (take pos l) = pos) by (rewrite length_take; lia).
    rewrite take_app_ge, drop_app_ge by lia.
    rewrite Hlen. replace (S pos - pos) with 1 by lia. simpl.
    rewrite take_0, drop_0. by rewrite <- app_assoc.
Qed.

Lemma renumber_after_splice n count (l news : list Scene.t) :
  n ≤ length l →
  insert_all n news (renumber_after n count l)
  = take n l ++ news ++ (shift_scene count <$> drop n l).
Proof.
  intros Hn. rewrite insert_all_splice.
  - unfold renumber_after.
    assert (Hlen : length (take n l) = n) by (rewrite length_take; lia).
    rewrite take_app_ge, drop_app_ge by lia.
    rewrite Hlen, Nat.sub_diag. simpl. by rewrite take_0, drop_0, app_nil_r.
  - unfold renumber_after.
    rewrite length_app, length_fmap, length_take, length_drop. lia.
Qed.

Lemma insert_scenes_splice anchor n (news l : list Scene.t) :
  n ≤ length l →
  insert_scenes anchor n news l
  = take n l ++ number_new_scenes anchor news
      ++ (shift_scene (Z.of_nat (length news)) <$> drop n l).
Proof.
  intros Hn. unfold insert_scenes. cbv zeta.
  rewrite renumber_after_splice by done.
  unfold number_new_scenes at 2. by rewrite length_imap.
Qed.

Lemma shift_scene_0 s : shift_scene 0 s = s.
Proof.
  destruct s. unfold shift_scene, Scene.set_scene_number. simpl.
  f_equal. lia.
Qed.

Lemma number_new_scenes_numbers anchor news :
  Scene.scene_number <$> number_new_scenes anchor news
  = seqZ (anchor + 1) (Z.of_nat (length news)).
Proof.
  unfold number_new_scenes. rewrite fmap_imap.
  unfold seqZ. rewrite Nat2Z.id.
  rewrite <- imap_seq_0. apply imap_ext. intros i x _. simpl. lia.
Qed.

Lemma number_new_scenes_lookup anchor news i :
  number_new_scenes anchor news !! i
  = Scene.set_scene_number (anchor + 1 + Z.of_nat i)%Z <$> news !! i.
Proof. unfold number_new_scenes. by rewrite list_lookup_imap. Qed.

Lemma insert_point_le anchor scenes :
  insert_point anchor scenes ≤ length scenes.
Proof.
  unfold insert_point. destruct (list_find _ _) as [[i s]|] eqn:Hfind; [|done].
  apply list_find_Some in Hfind as (Hl & _ & _).
  apply lookup_lt_Some in Hl. lia.
Qed.

Lemma contiguous_lookup (scenes : list Scene.t) i s :
  contiguous scenes →
  scenes !! i = Some s → Scene.scene_number s = (1 + Z.of_nat i)%Z.
Proof.
  intros Hnum Hi.
  assert (H : (Scene.scene_number <$> scenes) !! i
              = Some (Scene.scene_number s))
    by (by rewrite list_lookup_fmap, Hi).
  rewrite Hnum in H. apply lookup_seqZ in H. lia.
Qed.

(** In a list numbered 1..P the anchor [a] stands at index [a - 1]. *)
Lemma find_anchor (scenes : list Scene.t) (anchor : Z) :
  contiguous scenes →
  anchor ∈ (Scene.scene_number <$> scenes) →
  (1 ≤ anchor ≤ Z.of_nat (length scenes))%Z
  ∧ insert_point anchor scenes = Z.to_nat anchor.
Proof.
  intros Hnum Hin.
  assert (Hr : (1 ≤ anchor ≤ Z.of_nat (length scenes))%Z).
  { rewrite Hnum in Hin. apply elem_of_seqZ in Hin. lia. }
  split; [done|].
  destruct (lookup_lt_is_Some_2 scenes (Z.to_nat anchor - 1)) as [s Hs]; [lia|].
  unfold insert_point.
  assert (Hf : list_find (numbered anchor) scenes
               = Some (Z.to_nat anchor - 1, s)).
  { apply list_find_Some. split_and!; [done| |].
    - unfold numbered. rewrite (contiguous_lookup _ _ _ Hnum Hs). lia.
    - intros j y Hj Hlt. unfold numbered.
      rewrite (contiguous_lookup _ _ _ Hnum Hj). lia. }
  rewrite Hf. lia.
Qed.

Lemma find_anchor_missing (scenes : list Scene.t) (anchor : Z) :
  anchor ∉ (Scene.scene_number <$> scenes) →
  insert_point anchor scenes = length scenes.
Proof.
  intros Hnot. unfold insert_point.
  destruct (list_find _ _) as [[i s]|] eqn:Hfind; [|done].
  apply list_find_Some in Hfind as (Hl & Hs & _).
  destruct Hnot. apply list_elem_of_fmap. exists s. split; [done|].
  by eapply list_elem_of_lookup_2.
Qed.

(** What [insert_between] writes to the state, anchor found or not. *)
Lemma run_insert_between st original change anchor :
  scene_action change = insert_between →
  insert_after_scene change = Some anchor →
  final_state (_update_specific_scene original (Returned change) st)
  = <["scenes" := VScenes
        (let scenes := scenes_or_empty original in
         let news := scenes_to_insert change in
         let n := insert_point anchor scenes in
         take n scenes
           ++ number_new_scenes anchor news
           ++ (shift_scene (Z.of_nat (length news)) <$> drop n scenes))]> st.
Proof.
  intros Ha Hi.
  unfold _update_specific_scene, try_except, bind, invoke, ret; simpl.
  rewrite Ha, Hi. cbv zeta.
  pose proof (insert_point_le anchor (scenes_or_empty original)) as Hle.
  destruct (scenes_to_insert change) as [|s0 news] eqn:Hnews.
  - simpl. unfold final_state. simpl.
    rewrite (list_fmap_ext _ id) by (intros; apply shift_scene_0).
    by rewrite list_fmap_id, take_drop.
  - rewrite <- insert_scenes_splice by done. unfold insert_point.
    destruct (list_find (numbered anchor) (scenes_or_empty original))
      as [[i s]|] eqn:Hfind; done.
Qed.

Lemma run_add st original change new :
  scene_action change = add →
  new_scene change = Some new →
  final_state (_update_specific_scene original (Returned change) st)
  = <["scenes" := VScenes (scenes_or_empty original ++ [new])]> st.
Proof.
  intros Ha Hn.
  unfold _update_specific_scene, try_except, bind, invoke, ret; simpl.
  by rewrite Ha, Hn.
Qed.

Lemma run_remove st scenes change :
  scene_action change = remove →
  final_state
    (_update_specific_scene (Some (VScenes scenes)) (Returned change) st)
  = <["scenes" := VScenes
        match truthy_int (target_scene_number change) with
        | Some target =>
            match list_find (numbered target) scenes with
            | Some (i, _) => delete i scenes
            | None => scenes
            end
        | None => scenes
        end]> st.
Proof.
  intros Ha.
  unfold _update_specific_scene, try_except, bind, invoke, ret; simpl.
  rewrite Ha.
  destruct (truthy_int _) as [target|]; [|done].
  destruct (list_find _ _) as [[i s]|]; done.
Qed.

(** ** Frames and totality of monadic code *)

Lemma preserves_ret {A} K (a : A) : preserves K (ret a).
Proof. by intros st k _. Qed.

Lemma preserves_raise {A} K e : preserves K (raise (A := A) e).
Proof. by intros st k _. Qed.

Lemma preserves_print K t text : preserves K (print t text).
Proof. by intros st k _. Qed.

Lemma preserves_read K : preserves K state_read.
Proof. by intros st k Hk. Qed.
Lemma preserves_get K key : preserves K (state_get key).
Proof. by intros st k _. Qed.

Lemma preserves_set K key v : key ∈ K → preserves K (state_set key v).
Proof.
  intros Hin st k Hk. unfold final_state, state_set. cbn.
  rewrite lookup_insert_ne; [done|]. intros ->. done.
Qed.

Lemma preserves_del K key : key ∈ K → preserves K (state_del key).
Proof.
  intros Hin st k Hk. unfold final_state, state_del. cbn.
  rewrite lookup_delete_ne; [done|]. intros ->. done.
Qed.

Lemma preserves_invoke {A} K (r : reply A) : preserves K (invoke r).
Proof. destruct r; [apply preserves_ret|apply preserves_raise]. Qed.

Lemma preserves_bind {A B} K (m : M A) (f : A → M B) :
  preserves K m → (∀ a, preserves K (f a)) → preserves K (bind m f).
Proof.
  intros Hm Hf st k Hk. unfold bind, final_state.
  specialize (Hm st k Hk). unfold final_state in Hm.
  destruct (m st) as [[[a|e] st1] out1]; cbn in *; [|done].
  specialize (Hf a st1 k Hk). unfold final_state in Hf.
  destruct (f a st1) as [[r st2] out2]; cbn in *. congruence.
Qed.

Lemma preserves_bind_ret {A B} K (a : A) (f : A → M B) :
  preserves K (f a) → preserves K (bind (ret a) f).
Proof.
  intros Hf st k Hk. specialize (Hf st k Hk).
  unfold bind, ret, final_state in *. cbn.
  by destruct (f a st) as [[r st2] out2].
Qed.

Lemma preserves_try {A} K (body : M A) (handler : exn → M A) :
  preserves K body → (∀ e, preserves K (handler e)) →
  preserves K (try_except body handler).
Proof.
  intros Hm Hf st k Hk. unfold try_except, final_state.
  specialize (Hm st k Hk). unfold final_state in Hm.
  destruct (body st) as [[[a|e] st1] out1]; cbn in *; [done|].
  specialize (Hf e st1 k Hk). unfold final_state in Hf.
  destruct (handler e st1) as [[r st2] out2]; cbn in *. congruence.
Qed.

Lemma preserves_weaken {A} K K' (m : M A) :
  K ⊆ K' → preserves K m → preserves K' m.
Proof. intros Hsub Hm st k Hk. apply Hm. intros Hin. apply Hk, Hsub, Hin. Qed.

(** Walks through a monadic term built from the primitives. *)
Ltac frame :=
  repeat first
    [ apply preserves_ret | apply preserves_raise | apply preserves_print
    | apply preserves_get | apply preserves_read | apply preserves_invoke
    | apply preserves_set; in_list | apply preserves_del; in_list
    | apply preserves_bind; [|intros ?]
    | apply preserves_try; [|intros ?]
    | match goal with
      | |- preserves _ (match ?x with _ => _ end) => destruct x
      end ].

Lemma returns_ret {A} (a : A) : returns (ret a).
Proof. intros st. by exists a. Qed.
Lemma returns_print t text : returns (print t text).
Proof. intros st. by exists tt. Qed.
Lemma returns_get key : returns (state_get key).
Proof. intros st. by eexists. Qed.
Lemma returns_read : returns state_read.
Proof. intros st. by exists st. Qed.
Lemma returns_set key v : returns (state_set key v).
Proof. intros st. by exists tt. Qed.
Lemma returns_del key : returns (state_del key).
Proof. intros st. by exists tt. Qed.

Lemma returns_bind {A B} (m : M A) (f : A → M B) :
  returns m → (∀ a, returns (f a)) → returns (bind m f).
Proof.
  intros Hm Hf st. unfold bind.
  destruct (Hm st) as [a Ha].
  destruct (m st) as [[r st1] out1]; cbn in *. subst r.
  destruct (Hf a st1) as [b Hb].
  destruct (f a st1) as [[r st2] out2]; cbn in *. by exists b.
Qed.

(** A [try] whose handler returns always returns. *)
Lemma returns_try {A} (body : M A) (handler : exn → M A) :
  (∀ e, returns (handler e)) → returns (try_except body handler).
Proof.
  intros Hh st. unfold try_except.
  destruct (body st) as [[[a|e] st1] out1]; cbn.
  - by exists a.
  - destruct (Hh e st1) as [b Hb].
    destruct (handler e st1) as [[r st2] out2]; cbn in *. by exists b.
Qed.

Ltac total :=
  repeat first
    [ apply returns_ret | apply returns_print | apply returns_get
    | apply returns_read | apply returns_set | apply returns_del
    | apply returns_try; intros ?
    | apply returns_bind; [|intros ?]
    | match goal with
      | |- returns (match ?x with _ => _ end) => destruct x
      end ].

Lemma final_state_bind {A B} (m : M A) (f : A → M B) st :
  returns m →
  ∃ a, (m st).1.1 = Ret a
       ∧ final_state (bind m f st) = final_state (f a (final_state (m st))).
Proof.
  intros Hm. destruct (Hm st) as [a Ha]. exists a. split; [done|].
  unfold bind, final_state.
  destruct (m st) as [[r st1] out1]; cbn in *. subst r.
  by destruct (f a st1) as [[r st2] out2].
Qed.

Lemma final_state_seq {B} (m : M unit) (k : M B) st :
  returns m →
  final_state (bind m (λ _, k) st) = final_state (k (final_state (m st))).
Proof.
  intros Hm. destruct (final_state_bind m (λ _, k) st Hm) as (a & _ & H).
  exact H.
Qed.

Lemma final_state_get {B} key (f : option value → M B) st :
  final_state (bind (state_get key) f st) = final_state (f (st !! key) st).
Proof.
  unfold bind, state_get, final_state. cbn.
  by destruct (f (st !! key) st) as [[r st2] out2].
Qed.

Lemma final_state_read {B} (f : state → M B) st :
  final_state (bind state_read f st) = final_state (f st st).
Proof.
  unfold bind, state_read, final_state. cbn.
  by destruct (f st st) as [[r st2] out2].
Qed.

Lemma final_state_set {B} key v (f : unit → M B) st :
  final_state (bind (state_set key v) f st)
  = final_state (f tt (<[key := v]> st)).
Proof.
  unfold bind, state_set, final_state. cbn.
  by destruct (f tt (<[key := v]> st)) as [[r st2] out2].
Qed.

Lemma final_state_print {B} t text (f : unit → M B) st :
  final_state (bind (print t text) f st) = final_state (f tt st).
Proof.
  unfold bind, print, final_state. cbn.
  by destruct (f tt st) as [[r st2] out2].
Qed.

Lemma final_state_del key st :
  final_state (state_del key st) = delete key st.
Proof. done. Qed.

Lemma output_get {B} key (f : option value → M B) st :
  output (bind (state_get key) f st) = output (f (st !! key) st).
Proof.
  unfold bind, state_get, output. cbn.
  by destruct (f (st !! key) st) as [[r st2] out2].
Qed.

Lemma output_set {B} key v (f : unit → M B) st :
  output (bind (state_set key v) f st) = output (f tt (<[key := v]> st)).
Proof.
  unfold bind, state_set, output. cbn.
  by destruct (f tt (<[key := v]> st)) as [[r st2] out2].
Qed.

Lemma output_print {B} t text (f : unit → M B) st :
  output (bind (print t text) f st) = (t, text) :: output (f tt st).
Proof.
  unfold bind, print, output. cbn.
  by destruct (f tt st) as [[r st2] out2].
Qed.

Lemma output_print_set {B} t text key v (f : unit → M B) st :
  output (bind (print t text;;; state_set key v) f st)
  = (t, text) :: output (f tt (<[key := v]> st)).
Proof.
  unfold bind, print, state_set, output. cbn.
  by destruct (f tt (<[key := v]> st)) as [[r st2] out2].
Qed.

Lemma output_read {B} (f : state → M B) st :
  output (bind state_read f st) = output (f st st).
Proof.
  unfold bind, state_read, output. cbn.
  by destruct (f st st) as [[r st2] out2].
Qed.

(** What follows a step and prints nothing adds nothing to its lines. *)
Lemma output_then_clear {A} (m : M A) key key' st :
  output (bind m (λ _, clear key;;; clear key') st) = output (m st).
Proof.
  unfold bind, clear, state_del, output.
  destruct (m st) as [[[a|e] st1] out1]; cbn; [|done].
  by rewrite app_nil_r.
Qed.

Lemma lookup_modify_key_ne k k' f st :
  k ≠ k' → modify_key k f st !! k' = st !! k'.
Proof.
  intros Hne. unfold modify_key.
  destruct (st !! k) as [v|]; [|done].
  destruct (f v); [|done]. by rewrite lookup_insert_ne.
Qed.

Lemma lookup_modify_key k f st v :
  st !! k = Some v → modify_key k f st !! k = Some (default v (f v)).
Proof.
  intros Hk. unfold modify_key. rewrite Hk.
  destruct (f v); [|done]. by rewrite lookup_insert_eq.
Qed.

(** ** ReferencePropagator: the character rename as a state transformer *)

Lemma propagate_character_scenes_ok old_name new_name old_first new_first l :
  first_name old_name = Some old_first →
  first_name new_name = Some new_first →
  propagate_character_scenes old_name new_name l
  = (renamed_scene old_name new_name old_first new_first <$> l, None).
Proof.
  intros Ho Hn. induction l as [|s l IH]; [done|].
  cbn [propagate_character_scenes]. rewrite Ho, Hn, IH. done.
Qed.

Lemma run_propagate_character_dialogue st old_name new_name :
  propagate_character_dialogue old_name new_name st
  = (Ret tt,
     modify_key "dialogue_scenes"
       (on_dialogue (rename_speaker old_name new_name)) st, []).
Proof.
  unfold propagate_character_dialogue, bind, state_get, state_set, ret,
    modify_key.
  destruct (st !! "dialogue_scenes") as [[| | | |[|]| |]|] eqn:Hd; try done.
  simpl. by rewrite insert_id.
Qed.

Lemma run_propagate_character_scene_list st old_name new_name
    old_first new_first :
  first_name old_name = Some old_first →
  first_name new_name = Some new_first →
  propagate_character_scene_list old_name new_name st
  = (Ret tt,
     modify_key "scenes"
       (on_scenes (renamed_scene old_name new_name old_first new_first)) st,
     []).
Proof.
  intros Ho Hn.
  unfold propagate_character_scene_list, bind, state_get, state_set, ret,
    modify_key.
  destruct (st !! "scenes") as [[| | | | |[|s l]|]|] eqn:Hd; try done.
  - simpl. by rewrite insert_id.
  - by rewrite (propagate_character_scenes_ok _ _ old_first new_first).
Qed.

Lemma run_propagate_character_draft st old_name new_name old_first new_first :
  first_name old_name = Some old_first →
  first_name new_name = Some new_first →
  propagate_character_draft old_name new_name st
  = (Ret tt,
     modify_key "draft"
       (on_text (rename_in_field old_name new_name old_first new_first)) st,
     []).
Proof.
  intros Ho Hn.
  unfold propagate_character_draft, bind, state_get, state_set, ret,
    modify_key.
  destruct (st !! "draft") as [[draft| | | | | |]|] eqn:Hd; try done.
  simpl. unfold rename_in_field. rewrite Ho, Hn.
  destruct (decide (draft = "")) as [->|]; [|done].
  by rewrite insert_id.
Qed.

(** When both first names exist the propagation returns, and its effect
    is three in-place rewrites. *)
Lemma run_propagate_character st old_name new_name old_first new_first :
  first_name old_name = Some old_first →
  first_name new_name = Some new_first →
  _propagate_character_name_change old_name new_name st
  = (Ret tt,
     modify_key "draft"
       (on_text (rename_in_field old_name new_name old_first new_first))
       (modify_key "scenes"
          (on_scenes (renamed_scene old_name new_name old_first new_first))
          (modify_key "dialogue_scenes"
             (on_dialogue (rename_speaker old_name new_name)) st)),
     []).
Proof.
  intros Ho Hn. unfold _propagate_character_name_change, bind.
  rewrite run_propagate_character_dialogue.
  rewrite (run_propagate_character_scene_list _ _ _ old_first new_first)
    by done.
  by rewrite (run_propagate_character_draft _ _ _ old_first new_first)
    by done.
Qed.

Lemma preserves_propagate_character old_name new_name :
  preserves ["dialogue_scenes"; "scenes"; "draft"]
    (_propagate_character_name_change old_name new_name).
Proof.
  unfold _propagate_character_name_change, propagate_character_dialogue,
    propagate_character_scene_list, propagate_character_draft.
  frame.
Qed.

(** ** EntityPatcher: frames, totality and the no-op cases *)

Lemma preserves_update_specific_entity key propagate K original llm :
  (∀ o n, preserves K (propagate o n)) →
  preserves (key :: K) (update_specific_entity key propagate original llm).
Proof.
  intros Hp. unfold update_specific_entity. frame.
  eapply preserves_weaken; [|apply Hp]. sublist_solver.
Qed.

Lemma preserves_update_specific_dialogue original llm :
  preserves ["dialogue_scenes"] (_update_specific_dialogue original llm).
Proof. unfold _update_specific_dialogue. frame. Qed.

Lemma preserves_update_specific_scene original llm :
  preserves ["scenes"] (_update_specific_scene original llm).
Proof. unfold _update_specific_scene. frame. Qed.

(** Without a rename the propagator is not called. *)
Lemma preserves_entity_no_rename key propagate original llm :
  ¬ renames llm (entities_or_empty original) →
  preserves [key] (update_specific_entity key propagate original llm).
Proof.
  intros Hno. unfold update_specific_entity.
  destruct llm as [change|]; [|frame].
  apply preserves_try; [|intros ?; frame].
  apply preserves_bind_ret.
  apply preserves_bind; [|intros ?; frame].
  destruct (action change) eqn:Ha; [frame| |frame|frame].
  destruct (truthy_str (target_name change)) as [target|] eqn:Ht; [|frame].
  destruct (new_entity change) as [new|] eqn:Hn; [|frame].
  destruct (list_find _ _) as [[i e]|] eqn:Hf; [|frame].
  destruct (decide (name e ≠ "" ∧ name e ≠ name new)) as [[_ Hd]|Hd];
    [|frame].
  destruct Hno. by exists change, target, new, i, e.
Qed.

Lemma returns_update_specific_entity key propagate original llm :
  returns (update_specific_entity key propagate original llm).
Proof. unfold update_specific_entity. total. Qed.

Lemma returns_update_specific_dialogue original llm :
  returns (_update_specific_dialogue original llm).
Proof. unfold _update_specific_dialogue. total. Qed.

Lemma returns_update_specific_scene original llm :
  returns (_update_specific_scene original llm).
Proof. unfold _update_specific_scene. total. Qed.

Lemma entity_noop key propagate original change st :
  action change = modify ∨ action change = remove →
  entity_unmatched change (entities_or_empty original)
  ∨ (action change = modify ∧ new_entity change = None) →
  let r := update_specific_entity key propagate original (Returned change) st in
  final_state r = <[key := VEntities (entities_or_empty original)]> st
  ∧ warned r.
Proof.
  intros Hact Hun. cbv zeta.
  unfold update_specific_entity, entity_unmatched in *. run_patch.
  destruct Hact as [Ha|Ha]; rewrite Ha in *.
  - unfold truthy_str.
    destruct (target_name change) as [t|];
      [|cbn; split; [done|find_warning]].
    destruct (decide (t = "")); [cbn; split; [done|find_warning]|].
    destruct (new_entity change) as [p|];
      [|cbn; split; [done|find_warning]].
    destruct Hun as [Hun|[_ ?]]; [|done].
    rewrite list_find_unmatched by done.
    cbn; split; [done|find_warning].
  - destruct Hun as [Hun|[? _]]; [|done].
    unfold truthy_str.
    destruct (target_name change) as [t|];
      [|cbn; split; [done|find_warning]].
    destruct (decide (t = "")); [cbn; split; [done|find_warning]|].
    rewrite list_find_unmatched by done.
    cbn; split; [done|find_warning].
Qed.

Lemma dialogue_noop original change st :
  dialogue_action change = modify ∨ dialogue_action change = remove →
  dialogue_unmatched change (dialogue_or_empty original)
  ∨ (dialogue_action change = modify
     ∧ truthy_str (modified_line change) = None) →
  let r := _update_specific_dialogue original (Returned change) st in
  final_state r
  = <["dialogue_scenes" := VDialogue (dialogue_or_empty original)]> st
  ∧ warned r.
Proof.
  intros Hact Hun. cbv zeta.
  unfold _update_specific_dialogue, dialogue_unmatched in *. run_patch.
  destruct Hact as [Ha|Ha]; rewrite Ha in *.
  - destruct (identification change) as [ident|];
      [|cbn; split; [done|find_warning]].
    destruct (truthy_str (modified_line change)) as [text|];
      [|cbn; split; [done|find_warning]].
    destruct Hun as [Hun|[_ ?]]; [|done].
    destruct (truthy_int (target_index ident)) as [index|].
    + rewrite decide_False by lia. cbn; split; [done|find_warning].
    + unfold truthy_str.
      destruct (target_character ident) as [who|];
        [|cbn; split; [done|find_warning]].
      destruct (decide (who = "")); [cbn; split; [done|find_warning]|].
      rewrite list_find_unmatched by done.
      cbn; split; [done|find_warning].
  - destruct Hun as [Hun|[? _]]; [|done].
    destruct (identification change) as [ident|];
      [|cbn; split; [done|find_warning]].
    destruct (truthy_int (target_index ident)) as [index|].
    + rewrite decide_False by lia. cbn; split; [done|find_warning].
    + unfold truthy_str.
      destruct (target_character ident) as [who|];
        [|cbn; split; [done|find_warning]].
      destruct (decide (who = "")); [cbn; split; [done|find_warning]|].
      rewrite list_find_unmatched by done.
      cbn; split; [done|find_warning].
Qed.

Lemma scene_noop original change st :
  scene_action change = modify ∨ scene_action change = remove →
  scene_unmatched change (scenes_or_empty original)
  ∨ (scene_action change = modify ∧ new_scene change = None) →
  let r := _update_specific_scene original (Returned change) st in
  final_state r = <["scenes" := VScenes (scenes_or_empty original)]> st
  ∧ warned r.
Proof.
  intros Hact Hun. cbv zeta.
  unfold _update_specific_scene, scene_unmatched in *. run_patch.
  destruct Hact as [Ha|Ha]; rewrite Ha in *.
  - unfold truthy_int.
    destruct (target_scene_number change) as [n|];
      [|cbn; split; [done|find_warning]].
    destruct (decide (n = 0%Z)); [cbn; split; [done|find_warning]|].
    destruct (new_scene change) as [new|];
      [|cbn; split; [done|find_warning]].
    destruct Hun as [Hun|[_ ?]]; [|done].
    rewrite list_find_unmatched by done.
    cbn; split; [done|find_warning].
  - destruct Hun as [Hun|[? _]]; [|done].
    unfold truthy_int.
    destruct (target_scene_number change) as [n|];
      [|cbn; split; [done|find_warning]].
    destruct (decide (n = 0%Z)); [cbn; split; [done|find_warning]|].
    rewrite list_find_unmatched by done.
    cbn; split; [done|find_warning].
Qed.

Lemma lower_empty s : lower s = "" → s = "".
Proof. by destruct s. Qed.

(** The outcome of a [modify] that finds its entity: the collection with
    the entity replaced when the name is kept or the propagation returns,
    the original collection when the propagation raises. *)
Lemma entity_modify_outcome key propagate original change target new
    pre e post st :
  action change = modify →
  target_name change = Some target → target ≠ "" →
  new_entity change = Some new →
  entities_or_empty original = pre ++ e :: post →
  matches_name target e →
  (∀ x, x ∈ pre → ¬ matches_name target x) →
  final_state
    (update_specific_entity key propagate original (Returned change) st)
  = if decide (name e = name new)
    then <[key := VEntities (pre ++ new :: post)]> st
    else match propagate (name e) (name new) st with
         | (Ret _, st1, _) => <[key := VEntities (pre ++ new :: post)]> st1
         | (Raise _, st1, _) => <[key := VEntities (pre ++ e :: post)]> st1
         end.
Proof.
  intros Ha Ht Hne Hn Hl He Hpre.
  assert (Hname : name e ≠ "").
  { intros Hempty. apply Hne. apply lower_empty.
    unfold matches_name in He. rewrite <- He, Hempty. done. }
  unfold update_specific_entity. run_patch. cbn.
  rewrite Ha, Ht, Hn, Hl. unfold truthy_str.
  rewrite (decide_False (P := target = "")) by done.
  rewrite (list_find_first (matches_name target) pre e post) by done.
  cbn. rewrite insert_middle.
  destruct (decide (name e = name new)) as [Heq|Hdiff].
  - rewrite decide_False by (intros [_ ?]; done). reflexivity.
  - rewrite decide_True by done. cbn.
    destruct (propagate (name e) (name new) st) as [[[[]|x] st1] out1];
      reflexivity.
Qed.

(** ** DocumentAssembler *)

Lemma component_map_lookup c fk :
  component_map !! c = Some fk →
  (c, fk) ∈ [("draft", "draft_feedback");
             ("characters", "characters_feedback");
             ("dialogue", "dialogue_feedback");
             ("locations", "locations_feedback");
             ("visual_lookbook", "visual_lookbook_feedback");
             ("scenes", "scenes_feedback")].
Proof. intros Hc. by apply elem_of_list_to_map_2 in Hc. Qed.

(** [allow_increase] is the keyword scan of the lowercased feedback. *)
Lemma allow_increase_spec feedback :
  allow_increase feedback = true
  ↔ ∃ keyword, keyword ∈ increase_keywords ∧ occurs keyword (lower feedback).
Proof.
  unfold allow_increase. rewrite existsb_exists. split.
  - intros (keyword & Hin & Hk). exists keyword.
    split; [by apply list_elem_of_In|by apply str_in_spec].
  - intros (keyword & Hin & Hk). exists keyword.
    split; [by apply list_elem_of_In|by apply str_in_spec].
Qed.

(** Selects the branch of [update_component] for a literal component. *)
Ltac start_frame :=
  unfold update_component;
  match goal with
  | |- context [component_map !! ?c] =>
      let fk := eval vm_compute in (component_map !! c) in
      change (component_map !! c) with fk
  end;
  cbv beta iota.

Ltac start_component :=
  start_frame;
  rewrite !final_state_get, final_state_set;
  repeat first [rewrite decide_True by done | rewrite decide_False by done].

Section Properties.

Variable re_sub : string → string → string → option string.

Lemma preserves_propagate_location old_name new_name :
  preserves ["scenes"; "draft"]
    (_propagate_location_name_change re_sub old_name new_name).
Proof.
  unfold _propagate_location_name_change, propagate_location_scene_list,
    propagate_location_draft.
  frame.
Qed.

Ltac frame_branches :=
  repeat first
    [ match goal with
      | |- preserves _ (_update_specific_dialogue _ _) =>
          eapply preserves_weaken;
          [|apply preserves_update_specific_dialogue]; sublist_solver
      | |- preserves _ (_update_specific_scene _ _) =>
          eapply preserves_weaken;
          [|apply preserves_update_specific_scene]; sublist_solver
      | |- preserves _ (_update_specific_character _ _) =>
          eapply preserves_weaken;
          [|apply preserves_update_specific_entity,
              preserves_propagate_character]; sublist_solver
      | |- preserves _ (_update_specific_location _ _ _) =>
          eapply preserves_weaken;
          [|apply preserves_update_specific_entity,
              preserves_propagate_location]; sublist_solver
      end
    | apply preserves_ret | apply preserves_raise | apply preserves_print
    | apply preserves_get | apply preserves_read | apply preserves_invoke
    | apply preserves_set; in_list | apply preserves_del; in_list
    | apply preserves_bind; [|intros ?]
    | apply preserves_try; [|intros ?]
    | match goal with
      | |- preserves _ (if decide ?P then _ else _) =>
          destruct (decide P); try done
      | |- preserves _ (match ?x with _ => _ end) => destruct x
      end ].

Lemma update_component_unknown c fb ext st :
  component_map !! c = None →
  update_component re_sub c fb ext st
  = (Ret tt, st, [(WARNING, "Unknown component")]).
Proof. intros Hc. unfold update_component. by rewrite Hc. Qed.

Lemma update_component_locations fb ext st :
  final_state (update_component re_sub "locations" fb ext st)
  = delete "locations_feedback"
      (final_state
         (_update_specific_location re_sub (st !! "locations")
            (location_change ext) (<["locations_feedback" := VStr fb]> st))).
Proof.
  start_component.
  rewrite final_state_seq by apply returns_update_specific_entity.
  by rewrite final_state_print.
Qed.

Lemma update_component_characters fb ext st :
  final_state (update_component re_sub "characters" fb ext st)
  = delete "characters_feedback"
      (final_state
         (_update_specific_character (st !! "characters")
            (character_change ext) (<["characters_feedback" := VStr fb]> st))).
Proof.
  start_component.
  rewrite final_state_seq by apply returns_update_specific_entity.
  by rewrite final_state_print.
Qed.

Lemma update_component_scenes fb ext st :
  final_state (update_component re_sub "scenes" fb ext st)
  = delete "allow_scene_increase"
      (delete "scenes_feedback"
         (final_state
            (_update_specific_scene (st !! "scenes")
               (scene_change ext (scene_patch_state fb st))
               (scene_patch_state fb st)))).
Proof.
  start_component.
  rewrite final_state_get, final_state_print.
  rewrite lookup_insert_ne by done.
  assert (Hflag : ∀ {B} (k : M B) st0,
    final_state
      (bind
         (if allow_increase fb
          then print AUTHORIZED "allowing scene count increase";;;
               state_set "allow_scene_increase" (VBool true)
          else print ENFORCED "Scene count will be preserved";;;
               state_set "allow_scene_increase" (VBool false))
         (λ _, k) st0)
    = final_state
        (k (<["allow_scene_increase" := VBool (allow_increase fb)]> st0))).
  { intros B k st0. destruct (allow_increase fb).
    - rewrite final_state_seq by total.
      by rewrite final_state_print.
    - rewrite final_state_seq by total.
      by rewrite final_state_print. }
  rewrite Hflag, final_state_set, final_state_read.
  rewrite final_state_seq by apply returns_update_specific_scene.
  unfold clear. rewrite final_state_seq by apply returns_del.
  rewrite !final_state_del.
  unfold scene_patch_state.
  by destruct (st !! "number_of_scenes").
Qed.

(** The lines of a scenes revision: the scene count, the line that
    tells the flag, then the lines of the patch. *)
Lemma update_component_scenes_output fb ext st :
  output (update_component re_sub "scenes" fb ext st)
  = (INFO, "Original user_view scene count")
    :: (if allow_increase fb
        then (AUTHORIZED, "allowing scene count increase")
        else (ENFORCED, "Scene count will be preserved"))
    :: output
         (_update_specific_scene (st !! "scenes")
            (scene_change ext (scene_patch_state fb st))
            (scene_patch_state fb st)).
Proof.
  start_frame.
  rewrite !output_get, output_set.
  repeat first [rewrite decide_True by done | rewrite decide_False by done].
  rewrite output_get, output_print.
  rewrite lookup_insert_ne by done.
  assert (Hstate :
    <["number_of_scenes" :=
        if truthy (st !! "scenes")
        then VInt (Z.of_nat (length (scenes_or_empty (st !! "scenes"))))
        else match st !! "number_of_scenes" with
             | Some v => v
             | None => VInt 12
             end]>
      (<["allow_scene_increase" := VBool (allow_increase fb)]>
         (<["scenes_feedback" := VStr fb]> st))
    = scene_patch_state fb st).
  { unfold scene_patch_state. by destruct (st !! "number_of_scenes"). }
  destruct (allow_increase fb);
    rewrite output_print_set, output_set, output_read, output_then_clear;
    by rewrite Hstate.
Qed.

Lemma preserves_update_component_draft fb ext :
  preserves ["draft_feedback"; "draft"]
    (update_component re_sub "draft" fb ext).
Proof. start_frame. unfold clear. frame_branches. Qed.

Lemma preserves_update_component_visual_lookbook fb ext :
  preserves ["visual_lookbook_feedback"; "visual_lookbook"]
    (update_component re_sub "visual_lookbook" fb ext).
Proof. start_frame. unfold clear. frame_branches. Qed.

Lemma preserves_update_component_dialogue fb ext :
  preserves ["dialogue_feedback"; "dialogue_scenes"]
    (update_component re_sub "dialogue" fb ext).
Proof. start_frame. unfold clear. frame_branches. Qed.

Lemma preserves_update_component_scenes fb ext :
  preserves ["scenes_feedback"; "allow_scene_increase"; "number_of_scenes";
             "scenes"]
    (update_component re_sub "scenes" fb ext).
Proof. start_frame. unfold clear. frame_branches. Qed.

Lemma preserves_update_component_characters fb ext :
  preserves ["characters_feedback"; "characters"; "dialogue_scenes"; "scenes";
             "draft"]
    (update_component re_sub "characters" fb ext).
Proof. start_frame. unfold clear. frame_branches. Qed.

Lemma preserves_update_component_locations fb ext :
  preserves ["locations_feedback"; "locations"; "scenes"; "draft"]
    (update_component re_sub "locations" fb ext).
Proof. start_frame. unfold clear. frame_branches. Qed.

(** The generic tail of [update_component], after the six special cases,
    is never reached: every key of [component_map] has its own branch. *)
Lemma component_map_domain c :
  is_Some (component_map !! c)
  ↔ c ∈ ["draft"; "characters"; "dialogue"; "locations"; "visual_lookbook";
         "scenes"].
Proof.
  split.
  - intros [fk Hc]. apply component_map_lookup in Hc.
    rewrite !elem_of_cons, elem_of_nil in Hc.
    destruct Hc as [Hc|[Hc|[Hc|[Hc|[Hc|[Hc|[]]]]]]]; injection Hc as -> ->;
      in_list.
  - rewrite !elem_of_cons, elem_of_nil.
    intros [->|[->|[->|[->|[->|[->|[]]]]]]]; by eexists.
Qed.

(** C2 (amended). A revision through [update_component] leaves every
    top-level field other than the targeted one as it was, except the
    fields a rename reaches: when a characters revision is a [modify] that
    changes the character's name, the dialogue lines, the scenes and the
    draft may be rewritten; when a locations revision changes the
    location's name, the scenes and the draft may be. Title, genre and
    tone are never the target and are never reached, so they are kept
    verbatim whatever the target. *)
Theorem preservation_outside_rename (component_name feedback : string)
    (ext : Externals) (st : state) (k : string) :
  k ∈ document_fields →
  k ≠ target_field component_name →
  ¬ rename_event component_name ext st
  ∨ k ∉ rewritten_by_rename component_name →
  final_state (update_component re_sub component_name feedback ext st) !! k
  = st !! k.
Proof.
  intros Hk Hne Hcond.
  destruct (component_map !! component_name) as [fk|] eqn:Hc;
    [|by rewrite update_component_unknown].
  apply component_map_lookup in Hc.
  unfold document_fields in Hk.
  rewrite !elem_of_cons, elem_of_nil in Hc.
  rewrite !elem_of_cons, elem_of_nil in Hk.
  destruct Hc as [Hc|[Hc|[Hc|[Hc|[Hc|[Hc|[]]]]]]]; injection Hc as -> ->;
    repeat match type of Hne with
    | context [target_field ?c] =>
        let v := eval vm_compute in (target_field c) in
        change (target_field c) with v in Hne
    end;
    repeat match type of Hcond with
    | context [rewritten_by_rename ?c] =>
        let v := eval vm_compute in (rewritten_by_rename c) in
        change (rewritten_by_rename c) with v in Hcond
    end.
  - apply preserves_update_component_draft. not_in.
  - destruct Hcond as [Hno|Hnot].
    + rewrite update_component_characters. unfold _update_specific_character.
      rewrite lookup_delete_ne by (intros ?; not_in).
      rewrite preserves_entity_no_rename.
      * rewrite lookup_insert_ne; [done|]. intros ?; not_in.
      * intros Hr. apply Hno. by left.
      * not_in.
    + apply preserves_update_component_characters. not_in.
  - apply preserves_update_component_dialogue. not_in.
  - destruct Hcond as [Hno|Hnot].
    + rewrite update_component_locations. unfold _update_specific_location.
      rewrite lookup_delete_ne by (intros ?; not_in).
      rewrite preserves_entity_no_rename.
      * rewrite lookup_insert_ne; [done|]. intros ?; not_in.
      * intros Hr. apply Hno. by right.
      * not_in.
    + apply preserves_update_component_locations. not_in.
  - apply preserves_update_component_visual_lookbook. not_in.
  - apply preserves_update_component_scenes. not_in.
Qed.

(** C6. A [modify] or [remove] whose target matches no entity of the
    collection, or a [modify] without its payload, writes the original
    collection back element for element, prints a warning and changes no
    other key of the state: for locations, characters, dialogue lines and
    scenes. *)
Theorem unmatched_target_is_noop :
  (∀ original change st,
     action change = modify ∨ action change = remove →
     entity_unmatched change (entities_or_empty original)
     ∨ (action change = modify ∧ new_entity change = None) →
     let r := _update_specific_location re_sub original (Returned change) st in
     final_state r = <["locations" := VEntities (entities_or_empty original)]> st
     ∧ warned r)
  ∧ (∀ original change st,
       action change = modify ∨ action change = remove →
       entity_unmatched change (entities_or_empty original)
       ∨ (action change = modify ∧ new_entity change = None) →
       let r := _update_specific_character original (Returned change) st in
       final_state r
       = <["characters" := VEntities (entities_or_empty original)]> st
       ∧ warned r)
  ∧ (∀ original change st,
       dialogue_action change = modify ∨ dialogue_action change = remove →
       dialogue_unmatched change (dialogue_or_empty original)
       ∨ (dialogue_action change = modify
          ∧ truthy_str (modified_line change) = None) →
       let r := _update_specific_dialogue original (Returned change) st in
       final_state r
       = <["dialogue_scenes" := VDialogue (dialogue_or_empty original)]> st
       ∧ warned r)
  ∧ (∀ original change st,
       scene_action change = modify ∨ scene_action change = remove →
       scene_unmatched change (scenes_or_empty original)
       ∨ (scene_action change = modify ∧ new_scene change = None) →
       let r := _update_specific_scene original (Returned change) st in
       final_state r = <["scenes" := VScenes (scenes_or_empty original)]> st
       ∧ warned r).
Proof.
  split_and!.
  - intros original change st. apply entity_noop.
  - intros original change st. apply entity_noop.
  - apply dialogue_noop.
  - apply scene_noop.
Qed.

(** C8. When [update_component] targets the scenes, the model of the
    scene patch is created from a state that holds the feedback under
    [scenes_feedback] and the flag [allow_scene_increase], true exactly
    when the lowercased feedback contains one of the trigger phrases: the
    revision leaves what the patch leaves with the reply the model gives
    in that state, less the two keys, which are gone from the state
    [update_component] returns; the line the revision prints after the
    scene count is tagged [AUTHORIZED] exactly when a trigger phrase
    occurs and [ENFORCED] otherwise; and with the flag false an [add] or
    an [insert_between] still lengthens the scene list. *)
Theorem scene_count_gate (feedback : string) (ext : Externals) (st : state) :
  let before_patch := scene_patch_state feedback st in
  let r := update_component re_sub "scenes" feedback ext st in
  (before_patch !! "allow_scene_increase" = Some (VBool true)
   ↔ ∃ keyword,
       keyword ∈ increase_keywords ∧ occurs keyword (lower feedback))
  ∧ (∃ flag, before_patch !! "allow_scene_increase" = Some (VBool flag))
  ∧ before_patch !! "scenes_feedback" = Some (VStr feedback)
  ∧ final_state r
    = delete "allow_scene_increase"
        (delete "scenes_feedback"
           (final_state
              (_update_specific_scene (st !! "scenes")
                 (scene_change ext before_patch) before_patch)))
  ∧ (∃ line rest,
       output r = (INFO, "Original user_view scene count") :: line :: rest
       ∧ (line.1 = AUTHORIZED
          ↔ ∃ keyword,
              keyword ∈ increase_keywords ∧ occurs keyword (lower feedback))
       ∧ (line.1 = ENFORCED
          ↔ ¬ ∃ keyword,
                keyword ∈ increase_keywords ∧ occurs keyword (lower feedback)))
  ∧ final_state r !! "allow_scene_increase" = None
  ∧ final_state r !! "scenes_feedback" = None
  ∧ (∀ change new,
       allow_increase feedback = false →
       scene_change ext before_patch = Returned change →
       scene_action change = add → new_scene change = Some new →
       final_state r !! "scenes"
       = Some (VScenes (scenes_or_empty (st !! "scenes") ++ [new])))
  ∧ (∀ change anchor,
       allow_increase feedback = false →
       scene_change ext before_patch = Returned change →
       scene_action change = insert_between →
       insert_after_scene change = Some anchor →
       ∃ result,
         final_state r !! "scenes" = Some (VScenes result)
         ∧ length result
           = length (scenes_or_empty (st !! "scenes"))
             + length (scenes_to_insert change)).
Proof.
  intros before_patch r.
  assert (Hr : final_state r
    = delete "allow_scene_increase"
        (delete "scenes_feedback"
           (final_state
              (_update_specific_scene (st !! "scenes")
                 (scene_change ext before_patch) before_patch))))
    by apply update_component_scenes.
  assert (Hflag : before_patch !! "allow_scene_increase"
                  = Some (VBool (allow_increase feedback))).
  { unfold before_patch, scene_patch_state.
    rewrite lookup_insert_ne by done. by rewrite lookup_insert_eq. }
  split_and!.
  - rewrite Hflag, <- allow_increase_spec. split; [congruence|by intros ->].
  - by eexists.
  - unfold before_patch, scene_patch_state.
    rewrite !lookup_insert_ne by done. by rewrite lookup_insert_eq.
  - done.
  - unfold r. rewrite update_component_scenes_output.
    pose proof (allow_increase_spec feedback) as Hspec.
    destruct (allow_increase feedback) eqn:Ha;
      eexists _, _; (split; [reflexivity|]); cbn; rewrite <- Hspec;
      split; split; intros H; try done; congruence.
  - rewrite Hr. by rewrite lookup_delete_eq.
  - rewrite Hr. rewrite lookup_delete_ne by done. by rewrite lookup_delete_eq.
  - intros change new _ Hc Ha Hn. rewrite Hr, Hc.
    rewrite !lookup_delete_ne by done.
    rewrite (run_add _ _ _ new) by done. by rewrite lookup_insert_eq.
  - intros change anchor _ Hc Ha Hi. eexists. split.
    + rewrite Hr, Hc. rewrite !lookup_delete_ne by done.
      rewrite (run_insert_between _ _ _ anchor) by done.
      by rewrite lookup_insert_eq.
    + cbv zeta.
      pose proof (insert_point_le anchor (scenes_or_empty (st !! "scenes"))).
      rewrite !length_app, length_fmap, length_take, length_drop.
      unfold number_new_scenes. rewrite length_imap. lia.
Qed.

End Properties.

(** ** ReferencePropagator *)

(** C1 (amended). When a character's name changes from [old_name] to
    [new_name] and both first names exist, the propagation returns and
    (a) every dialogue line of the state and every dialogue line of a
    scene whose [character_name] is exactly [old_name] gets [new_name],
    the other lines staying as they are; (b) each scene's
    [subject_action] and [environmental_context] and the draft are
    rewritten as [rewritten] says: where the full old name occurs, every
    occurrence of it is replaced by the new name; otherwise, where the old
    name has a first name of its own and that first name occurs, every
    occurrence of it is replaced by the new first name; at most one of
    the two replacements runs and the full name comes first. *)
Theorem character_rename_propagation (st : state)
    (old_name new_name old_first new_first : string) :
  first_name old_name = Some old_first →
  first_name new_name = Some new_first →
  let r := _propagate_character_name_change old_name new_name st in
  let st' := final_state r in
  r.1.1 = Ret tt
  ∧ (∀ l, st !! "dialogue_scenes" = Some (VDialogue l) →
       ∃ l', st' !! "dialogue_scenes" = Some (VDialogue l')
         ∧ length l' = length l
         ∧ ∀ i d, l !! i = Some d →
             l' !! i
             = Some (if decide (DialogueLine.character_name d = old_name)
                     then DialogueLine.set_character_name new_name d else d))
  ∧ (∀ l, st !! "scenes" = Some (VScenes l) →
       ∃ l', st' !! "scenes" = Some (VScenes l')
         ∧ length l' = length l
         ∧ ∀ i s, l !! i = Some s →
             ∃ s', l' !! i = Some s'
               ∧ length (Scene.dialogue_lines s')
                 = length (Scene.dialogue_lines s)
               ∧ (∀ j d, Scene.dialogue_lines s !! j = Some d →
                    Scene.dialogue_lines s' !! j
                    = Some (if decide (SceneLine.character_name d = old_name)
                            then SceneLine.set_character_name new_name d
                            else d))
               ∧ rewritten old_name new_name old_first new_first
                   (Scene.subject_action s) (Scene.subject_action s')
               ∧ rewritten old_name new_name old_first new_first
                   (Scene.environmental_context s)
                   (Scene.environmental_context s'))
  ∧ (∀ draft, st !! "draft" = Some (VStr draft) →
       ∃ draft', st' !! "draft" = Some (VStr draft')
         ∧ rewritten old_name new_name old_first new_first draft draft').
Proof.
  intros Ho Hn r st'. unfold st', r.
  rewrite (run_propagate_character _ _ _ old_first new_first) by done.
  unfold final_state. cbn [fst snd].
  split_and!.
  - done.
  - intros l Hl. eexists. split_and!.
    + rewrite !lookup_modify_key_ne by done.
      by rewrite (lookup_modify_key _ _ _ _ Hl).
    + by rewrite length_fmap.
    + intros i d Hd. rewrite list_lookup_fmap, Hd. reflexivity.
  - intros l Hl. eexists. split_and!.
    + rewrite lookup_modify_key_ne by done.
      by rewrite (lookup_modify_key _ _ _ (VScenes l))
        by (by rewrite lookup_modify_key_ne).
    + by rewrite length_fmap.
    + intros i s Hs. eexists. split_and!.
      * rewrite list_lookup_fmap, Hs. reflexivity.
      * cbn. by rewrite length_fmap.
      * intros j d Hd. cbn. rewrite list_lookup_fmap, Hd. reflexivity.
      * apply rename_in_field_rewritten.
      * apply rename_in_field_rewritten.
  - intros draft Hd. eexists. split.
    + by rewrite (lookup_modify_key _ _ _ (VStr draft))
        by (by rewrite !lookup_modify_key_ne).
    + apply rename_in_field_rewritten.
Qed.

(** ** SceneSequencer *)

(** C3. For a scene list numbered exactly 1..P and an [insert_between]
    whose anchor is one of these numbers and which supplies k scenes, the
    list written back has P+k scenes numbered exactly 1..P+k; the new
    scenes stand right after the anchor with the numbers anchor+1 ..
    anchor+k; the scenes up to the anchor are untouched and the scenes
    after it keep their order, each number raised by k. *)
Theorem insert_between_contiguous (st : state) (scenes : list Scene.t)
    (change : SceneChange) (anchor : Z) :
  scene_action change = insert_between →
  insert_after_scene change = Some anchor →
  contiguous scenes →
  anchor ∈ (Scene.scene_number <$> scenes) →
  let news := scenes_to_insert change in
  let k := length news in
  let n := Z.to_nat anchor in
  ∃ result,
    final_state
      (_update_specific_scene (Some (VScenes scenes)) (Returned change) st)
    = <["scenes" := VScenes result]> st
    ∧ length result = length scenes + k
    ∧ contiguous result
    ∧ (∀ i s, news !! i = Some s →
         result !! (n + i)
         = Some (Scene.set_scene_number (anchor + 1 + Z.of_nat i)%Z s))
    ∧ (∀ i s, scenes !! i = Some s → i < n → result !! i = Some s)
    ∧ (∀ i s, scenes !! i = Some s → n ≤ i →
         result !! (i + k)
         = Some (Scene.set_scene_number
                   (Scene.scene_number s + Z.of_nat k)%Z s)).
Proof.
  intros Ha Hi Hnum Hin news k n.
  destruct (find_anchor scenes anchor Hnum Hin) as [Hr Hn].
  eexists. split; [by apply (run_insert_between _ _ _ anchor)|].
  cbv zeta. cbn [scenes_or_empty]. fold news. fold k.
  rewrite Hn. fold n.
  assert (Hnle : n ≤ length scenes) by lia.
  assert (Htake : length (take n scenes) = n) by (rewrite length_take; lia).
  assert (Hnew : length (number_new_scenes anchor news) = k)
    by apply length_imap.
  split_and!.
  - rewrite !length_app, length_fmap, length_drop, Htake, Hnew. lia.
  - unfold contiguous.
    rewrite !length_app, length_fmap, length_drop, Htake, Hnew.
    rewrite !fmap_app, number_new_scenes_numbers.
    rewrite <- list_fmap_compose.
    rewrite fmap_take.
    rewrite (list_fmap_ext (Scene.scene_number ∘ shift_scene (Z.of_nat k))
               (Z.add (Z.of_nat k) ∘ Scene.scene_number))
      by (intros; simpl; lia).
    rewrite list_fmap_compose, fmap_drop. rewrite Hnum.
    rewrite take_seqZ, drop_seqZ by done.
    rewrite fmap_add_seqZ.
    replace (n + k + (length scenes - n))
      with (n + (k + (length scenes - n))) by lia.
    rewrite !seqZ_split. fold k.
    assert (Ha1 : (anchor + 1 = 1 + Z.of_nat n)%Z) by lia.
    assert (Ha2 : (Z.of_nat k + (1 + Z.of_nat n)
                   = 1 + Z.of_nat n + Z.of_nat k)%Z) by lia.
    by rewrite Ha1, Ha2.
  - intros i s Hs.
    rewrite lookup_app_r by lia. rewrite Htake.
    replace (n + i - n) with i by lia.
    apply lookup_lt_Some in Hs as Hlt.
    rewrite lookup_app_l by lia.
    by rewrite number_new_scenes_lookup, Hs.
  - intros i s Hs Hlt.
    rewrite lookup_app_l by lia. by rewrite lookup_take_lt.
  - intros i s Hs Hle.
    rewrite lookup_app_r by lia. rewrite Htake.
    rewrite lookup_app_r by lia. rewrite Hnew.
    rewrite list_lookup_fmap, lookup_drop.
    replace (n + (i + k - n - k)) with i by lia.
    by rewrite Hs.
Qed.

(** C4 (amended). An [add] with a payload scene appends exactly that
    scene, unchanged, at the end of the list: the appended scene carries
    the scene number the payload came with, and no number is assigned. *)
Theorem add_scene_appends_payload (st : state) (scenes : list Scene.t)
    (change : SceneChange) (new : Scene.t) :
  scene_action change = add →
  new_scene change = Some new →
  final_state
    (_update_specific_scene (Some (VScenes scenes)) (Returned change) st)
  = <["scenes" := VScenes (scenes ++ [new])]> st.
Proof. intros Ha Hn. by rewrite (run_add _ _ _ new). Qed.

(** C7 (amended). A [remove] with a target scene number other than zero
    deletes exactly the first scene that carries the number; every other
    scene stays as it is, number included, in the same order. *)
Theorem remove_scene_leaves_gap (st : state) (pre post : list Scene.t)
    (s : Scene.t) (change : SceneChange) (n : Z) :
  scene_action change = remove →
  target_scene_number change = Some n →
  n ≠ 0%Z →
  Scene.scene_number s = n →
  (∀ x, x ∈ pre → Scene.scene_number x ≠ n) →
  final_state
    (_update_specific_scene (Some (VScenes (pre ++ s :: post)))
       (Returned change) st)
  = <["scenes" := VScenes (pre ++ post)]> st.
Proof.
  intros Ha Ht Hn Hs Hpre.
  rewrite run_remove by done. rewrite Ht. unfold truthy_int.
  rewrite decide_False by done.
  rewrite (list_find_first (numbered n) pre s post) by done.
  by rewrite delete_middle.
Qed.

(** C10. When the anchor of an [insert_between] is the number of no
    scene, the new scenes are appended at the end, still numbered
    anchor+1 .. anchor+k, and every existing scene stays as it is. On a
    non-empty list numbered 1..P the result is then never numbered
    1..P+k, and it repeats a number as soon as the new numbers reach
    back into 1..P. *)
Theorem insert_between_anchor_missing (st : state) (scenes : list Scene.t)
    (change : SceneChange) (anchor : Z) :
  scene_action change = insert_between →
  insert_after_scene change = Some anchor →
  anchor ∉ (Scene.scene_number <$> scenes) →
  let news := scenes_to_insert change in
  let k := length news in
  let result := scenes ++ number_new_scenes anchor news in
  final_state
    (_update_specific_scene (Some (VScenes scenes)) (Returned change) st)
  = <["scenes" := VScenes result]> st
  ∧ (∀ i s, news !! i = Some s →
       result !! (length scenes + i)
       = Some (Scene.set_scene_number (anchor + 1 + Z.of_nat i)%Z s))
  ∧ (∀ i s, scenes !! i = Some s → result !! i = Some s)
  ∧ Scene.scene_number <$> result
    = (Scene.scene_number <$> scenes) ++ seqZ (anchor + 1) (Z.of_nat k)
  ∧ (contiguous scenes → scenes ≠ [] → news ≠ [] → ¬ contiguous result)
  ∧ (contiguous scenes → scenes ≠ [] →
     (anchor ≤ 0 < anchor + Z.of_nat k)%Z →
     ¬ NoDup (Scene.scene_number <$> result)).
Proof.
  intros Ha Hi Hnot news k result.
  assert (Hrun : final_state
            (_update_specific_scene (Some (VScenes scenes))
               (Returned change) st)
          = <["scenes" := VScenes result]> st).
  { rewrite (run_insert_between _ _ _ anchor) by done.
    cbv zeta. cbn [scenes_or_empty].
    rewrite find_anchor_missing by done.
    by rewrite take_ge, drop_ge, app_nil_r by lia. }
  clearbody news.
  assert (Hnew : length (number_new_scenes anchor news) = k)
    by apply length_imap.
  assert (Hnums : Scene.scene_number <$> result
                  = (Scene.scene_number <$> scenes)
                      ++ seqZ (anchor + 1) (Z.of_nat k)).
  { unfold result. by rewrite fmap_app, number_new_scenes_numbers. }
  split_and!.
  - done.
  - intros i s Hs. unfold result.
    rewrite lookup_app_r by lia.
    replace (length scenes + i - length scenes) with i by lia.
    by rewrite number_new_scenes_lookup, Hs.
  - intros i s Hs. unfold result. by apply lookup_app_l_Some.
  - done.
  - intros Hc Hne Hnews Hres. unfold contiguous in Hres.
    rewrite Hnums, Hc in Hres.
    assert (Hk : 0 < k) by (unfold k; destruct news; [done|simpl; lia]).
    assert (Hp : 0 < length scenes) by (destruct scenes; [done|simpl; lia]).
    assert (Hlen : length result = length scenes + k)
      by (unfold result; rewrite length_app; lia).
    rewrite Hlen, seqZ_split in Hres.
    apply app_inv_head in Hres.
    assert (Hl : seqZ (anchor + 1) (Z.of_nat k) !! 0 = Some (anchor + 1)%Z)
      by (rewrite lookup_seqZ_lt by lia; f_equal; lia).
    rewrite Hres, lookup_seqZ_lt in Hl by lia.
    apply Hnot. rewrite Hc. apply elem_of_seqZ. injection Hl as Hl. lia.
  - intros Hc Hne Hrange Hnd. rewrite Hnums, Hc in Hnd.
    apply NoDup_app in Hnd as (_ & Hdisj & _).
    assert (Hp : 0 < length scenes) by (destruct scenes; [done|simpl; lia]).
    apply (Hdisj 1%Z); apply elem_of_seqZ; lia.
Qed.

(** ** EntityPatcher: dialogue lines *)

(** C9. For a dialogue [modify] or [remove] identified by a 1-based
    index: a negative index or one past the end leaves the collection
    unchanged, with a warning; the index 0 is treated as absent, the
    outcome being that of the same change without an index, so that with
    no target character the collection is unchanged, with a warning, and
    with a target character the first line of that character
    (case-insensitively) is the one modified or removed. *)
Theorem dialogue_index_edges (original : option value)
    (change : DialogueChange) (ident : DialogueIdentification) (index : Z)
    (st : state) :
  dialogue_action change = modify ∨ dialogue_action change = remove →
  identification change = Some ident →
  target_index ident = Some index →
  let current := dialogue_or_empty original in
  let r := _update_specific_dialogue original (Returned change) st in
  ((index < 0 ∨ index > Z.of_nat (length current))%Z →
     final_state r = <["dialogue_scenes" := VDialogue current]> st ∧ warned r)
  ∧ (index = 0%Z →
       r = _update_specific_dialogue original
             (Returned (without_index change)) st)
  ∧ (index = 0%Z → target_character ident = None →
       final_state r = <["dialogue_scenes" := VDialogue current]> st
       ∧ warned r)
  ∧ (index = 0%Z →
       ∀ who text pre d post,
         target_character ident = Some who → who ≠ "" →
         current = pre ++ d :: post →
         spoken_by who d → (∀ x, x ∈ pre → ¬ spoken_by who x) →
         (dialogue_action change = modify →
          modified_line change = Some text → text ≠ "" →
          final_state r
          = <["dialogue_scenes" :=
                VDialogue (pre ++ DialogueLine.set_line text d :: post)]> st)
         ∧ (dialogue_action change = remove →
            final_state r
            = <["dialogue_scenes" := VDialogue (pre ++ post)]> st)).
Proof.
  intros Hact Hid Hidx current r. split_and!.
  - intros Hrange. apply dialogue_noop; [done|]. left.
    unfold dialogue_unmatched. rewrite Hid, Hidx. unfold truthy_int.
    destruct (decide (index = 0%Z)) as [->|].
    + lia.
    + fold current. lia.
  - intros ->. unfold r, _update_specific_dialogue, without_index.
    run_patch. cbn. rewrite Hid. cbn. rewrite Hidx. cbn.
    destruct Hact as [Ha|Ha]; rewrite Ha; done.
  - intros -> Hnone. apply dialogue_noop; [done|]. left.
    unfold dialogue_unmatched. by rewrite Hid, Hidx, Hnone.
  - intros -> who text pre d post Hwho Hne Hcur Hd Hpre.
    unfold r, _update_specific_dialogue. run_patch. fold current.
    rewrite Hcur. split.
    + intros Ha Hm Ht. cbn. rewrite Ha, Hid, Hm, Hidx, Hwho. cbn.
      rewrite (decide_False (P := text = "")) by done.
      rewrite (decide_True (P := 0%Z = 0%Z)) by done.
      rewrite (decide_False (P := who = "")) by done.
      rewrite (list_find_first (spoken_by who) pre d post) by done.
      by rewrite alter_middle.
    + intros Ha. cbn. rewrite Ha, Hid, Hidx, Hwho. cbn.
      rewrite (decide_True (P := 0%Z = 0%Z)) by done.
      rewrite (decide_False (P := who = "")) by done.
      rewrite (list_find_first (spoken_by who) pre d post) by done.
      by rewrite delete_middle.
Qed.

(** ** The code at concrete inputs *)

(** C5 at a character whose name is one space: the entity is found and
    the propagation starts, renames the speaker of the dialogue line, and
    raises [IndexError] at [split()[0]] on reaching the draft; the handler
    writes the original collection back, so the entity is not replaced. *)
Lemma modify_blank_name_rolls_back :
  let r :=
    _update_specific_character (blank_name_document !! "characters")
      (Returned rename_blank) blank_name_document in
  list_find (matches_name " ") [mkEntity " " []] = Some (0, mkEntity " " [])
  ∧ final_state r !! "characters" = Some (VEntities [mkEntity " " []])
  ∧ final_state r !! "dialogue_scenes"
    = Some (VDialogue [DialogueLine.mk "Mara" 1 "Hello."])
  ∧ final_state r !! "draft" = Some (VStr "A story.")
  ∧ output r
    = [(OK, "Modified"); (OK, "Preserved others"); (INFO, "Name changed");
       (ERROR, "Error in surgical update")].
Proof. cbv zeta. split_and!; vm_compute; reflexivity. Qed.

(** The same change on a document with a plain name goes through. *)
Example modify_replaces_entity :
  final_state
    (_update_specific_character (pier_document !! "characters")
       (Returned rename_elena) pier_document) !! "characters"
  = Some (VEntities [mkEntity "Mara Cross" [("role", "lead")];
                     mkEntity "Bob" []]).
Proof. vm_compute. reflexivity. Qed.

(** The end-to-end example of the specification, with the reference
    engine: the location "Cafe" becomes "Park" and the draft follows. *)
Example cafe_becomes_park :
  let st : state :=
    list_to_map
      [("title", VStr "Tide");
       ("draft", VStr "They met at the Cafe, then left the cafe.");
       ("locations", VEntities [mkEntity "Cafe" []])] in
  let ext :=
    mkExternals (λ _, Raised)
      (Returned (mkEntityChange modify (Some "cafe")
                   (Some (mkEntity "Park" []))))
      Raised Raised (λ _, Raised) in
  let st' :=
    final_state
      (update_component re_sub_literal "locations"
         "change the cafe to a park" ext st) in
  st' !! "locations" = Some (VEntities [mkEntity "Park" []])
  ∧ st' !! "draft" = Some (VStr "They met at the Park, then left the Park.")
  ∧ st' !! "title" = Some (VStr "Tide")
  ∧ st' !! "locations_feedback" = None.
Proof. cbv zeta. split_and!; vm_compute; reflexivity. Qed.

(** The dialogue removal example of the specification: of five lines, the
    removal by character "Bob" deletes the first line of Bob only. *)
Example remove_first_line_of_bob :
  final_state
    (_update_specific_dialogue (Some (VDialogue five_lines))
       (Returned
          (mkDialogueChange remove
             (Some (mkDialogueIdentification None (Some "Bob")))
             None None None)) ∅) !! "dialogue_scenes"
  = Some (VDialogue
            [DialogueLine.mk "Alice" 1 "One.";
             DialogueLine.mk "Alice" 2 "Three.";
             DialogueLine.mk "BOB" 2 "Four.";
             DialogueLine.mk "Carol" 3 "Five."]).
Proof. vm_compute. reflexivity. Qed.

(** A model failure leaves the collection as it was. *)
Example model_failure_keeps_scenes :
  final_state (_update_specific_scene (Some (VScenes three_scenes)) Raised ∅)
  = <["scenes" := VScenes three_scenes]> ∅.
Proof. reflexivity. Qed.

(** The flag reaches the scene model: a model that follows it adds a
    scene for a feedback with a trigger phrase and adds none for a
    feedback without one. *)
Example guided_model_sees_the_flag :
  let st : state := <["scenes" := VScenes three_scenes]> ∅ in
  let finale := plain_scene 4 "The pier at night" "" [] in
  final_state
    (update_component re_sub_literal "scenes" "Please ADD SCENE four"
       (guided_scene_model finale) st) !! "scenes"
  = Some (VScenes (three_scenes ++ [finale]))
  ∧ final_state
      (update_component re_sub_literal "scenes" "tighten the second scene"
         (guided_scene_model finale) st) !! "scenes"
    = Some (VScenes three_scenes).
Proof. cbv zeta. split; vm_compute; reflexivity. Qed.

(** ** Counterexamples to the claims as the specification states them *)

(** C1 as stated: a full name that occurs twice in the draft would be
    replaced once. The source replaces both occurrences. *)
Lemma first_occurrence_only_counterexample :
  ¬ (∀ (st : state) (old_name new_name draft : string),
       st !! "draft" = Some (VStr draft) →
       occurs old_name draft →
       final_state (_propagate_character_name_change old_name new_name st)
         !! "draft"
       = Some (VStr (spec_replace_first old_name new_name draft))).
Proof.
  intros H.
  specialize (H pier_document "Elena Cross" "Mara Cross"
                "Elena Cross met Bob. Elena Cross left." eq_refl).
  assert (Hocc : occurs "Elena Cross" "Elena Cross met Bob. Elena Cross left.")
    by (apply str_in_spec; reflexivity).
  specialize (H Hocc). vm_compute in H. discriminate H.
Qed.

(** C2 as stated: a characters revision that renames a character would
    leave the dialogue lines as they were. *)
Lemma preservation_rename_counterexample :
  ¬ (∀ (component_name feedback : string) (ext : Externals) (st : state)
       (k : string),
       k ∈ document_fields →
       k ≠ target_field component_name →
       final_state
         (update_component re_sub_literal component_name feedback ext st) !! k
       = st !! k).
Proof.
  intros H.
  specialize (H "characters" "rename Elena to Mara"
                (replying_characters rename_elena) pier_document
                "dialogue_scenes").
  assert (H1 : "dialogue_scenes" ∈ document_fields)
    by (unfold document_fields; in_list).
  assert (H2 : "dialogue_scenes" ≠ target_field "characters")
    by (intros E; vm_compute in E; discriminate E).
  specialize (H H1 H2). vm_compute in H. discriminate H.
Qed.

(** C4 as stated: the appended scene would be numbered one past the
    largest number. The source keeps the number of the payload. *)
Lemma add_scene_number_counterexample :
  ¬ (∀ (st : state) (scenes : list Scene.t) (change : SceneChange)
       (new : Scene.t),
       scene_action change = add →
       new_scene change = Some new →
       ∃ appended,
         final_state
           (_update_specific_scene (Some (VScenes scenes)) (Returned change) st)
         = <["scenes" := VScenes (scenes ++ [appended])]> st
         ∧ Scene.scene_number appended = (max_scene_number scenes + 1)%Z).
Proof.
  intros H.
  destruct (H ∅ [plain_scene 1 "" "" []]
              (mkSceneChange add None None None None
                 (Some (plain_scene 7 "" "" [])))
              (plain_scene 7 "" "" []) eq_refl eq_refl)
    as (appended & Hst & Hnum).
  apply (f_equal (λ m : state, m !! "scenes")) in Hst.
  vm_compute in Hst. injection Hst as <-.
  vm_compute in Hnum. discriminate Hnum.
Qed.

(** C7 as stated: a target scene number of 0 would delete the scene
    numbered 0. The source reads 0 as no target. *)
Lemma remove_scene_zero_counterexample :
  ¬ (∀ (st : state) (pre post : list Scene.t) (s : Scene.t)
       (change : SceneChange) (n : Z),
       scene_action change = remove →
       target_scene_number change = Some n →
       Scene.scene_number s = n →
       (∀ x, x ∈ pre → Scene.scene_number x ≠ n) →
       final_state
         (_update_specific_scene (Some (VScenes (pre ++ s :: post)))
            (Returned change) st)
       = <["scenes" := VScenes (pre ++ post)]> st).
Proof.
  intros H.
  specialize (H ∅ [] [plain_scene 1 "" "" []] (plain_scene 0 "" "" [])
                (mkSceneChange remove (Some 0%Z) None None None None) 0%Z
                eq_refl eq_refl eq_refl).
  assert (Hpre : ∀ x : Scene.t, x ∈ [] → Scene.scene_number x ≠ 0%Z)
    by (intros x Hx; by apply not_elem_of_nil in Hx).
  specialize (H Hpre).
  apply (f_equal (λ m : state, m !! "scenes")) in H.
  vm_compute in H. discriminate H.
Qed.

(** ** The theorems at concrete inputs *)

Lemma character_rename_propagation_witness :
  first_name "Elena Cross" = Some "Elena"
  ∧ first_name "Mara Cross" = Some "Mara"
  ∧ ((_propagate_character_name_change "Elena Cross" "Mara Cross"
        pier_document).1.1 = Ret tt)
  ∧ ∃ draft',
      final_state
        (_propagate_character_name_change "Elena Cross" "Mara Cross"
           pier_document) !! "draft" = Some (VStr draft')
      ∧ rewritten "Elena Cross" "Mara Cross" "Elena" "Mara"
          "Elena Cross met Bob. Elena Cross left." draft'.
Proof.
  split; [reflexivity|]. split; [reflexivity|].
  destruct (character_rename_propagation pier_document
              "Elena Cross" "Mara Cross" "Elena" "Mara" eq_refl eq_refl)
    as (Hret & _ & _ & Hdraft).
  split; [exact Hret|]. apply Hdraft. reflexivity.
Defined.

Lemma preservation_outside_rename_witness :
  "title" ∈ document_fields
  ∧ "title" ≠ target_field "characters"
  ∧ ("title" ∉ rewritten_by_rename "characters")
  ∧ final_state
      (update_component re_sub_literal "characters" "rename Elena to Mara"
         (replying_characters rename_elena) pier_document) !! "title"
    = pier_document !! "title".
Proof.
  assert (H1 : "title" ∈ document_fields)
    by (unfold document_fields; in_list).
  assert (H2 : "title" ≠ target_field "characters")
    by (intros E; vm_compute in E; discriminate E).
  assert (H3 : "title" ∉ rewritten_by_rename "characters").
  { change (rewritten_by_rename "characters")
      with ["dialogue_scenes"; "scenes"; "draft"].
    intros E. rewrite !elem_of_cons, elem_of_nil in E.
    destruct E as [E|[E|[E|[]]]]; discriminate E. }
  exact (conj H1 (conj H2 (conj H3
           (preservation_outside_rename re_sub_literal "characters"
              "rename Elena to Mara" (replying_characters rename_elena)
              pier_document "title" H1 H2 (or_intror H3))))).
Defined.

Lemma insert_between_contiguous_witness :
  contiguous eight_scenes
  ∧ 1%Z ∈ (Scene.scene_number <$> eight_scenes)
  ∧ ∃ result,
      final_state
        (_update_specific_scene (Some (VScenes eight_scenes))
           (Returned insert_two_after_one) ∅)
      = <["scenes" := VScenes result]> ∅
      ∧ length result = 10
      ∧ contiguous result
      ∧ result !! 1 = Some (plain_scene 2 "new A" "" [])
      ∧ result !! 2 = Some (plain_scene 3 "new B" "" [])
      ∧ result !! 3 = Some (plain_scene 4 "" "" [])
      ∧ result !! 9 = Some (plain_scene 10 "" "" []).
Proof.
  assert (H1 : contiguous eight_scenes) by reflexivity.
  assert (H2 : 1%Z ∈ (Scene.scene_number <$> eight_scenes)).
  { rewrite H1. apply elem_of_seqZ. change (length eight_scenes) with 8. lia. }
  split; [exact H1|]. split; [exact H2|].
  destruct (insert_between_contiguous ∅ eight_scenes insert_two_after_one
              1%Z eq_refl eq_refl H1 H2)
    as (result & Hst & Hlen & Hcont & Hnew & Hbefore & Hafter).
  exists result. split_and!.
  - exact Hst.
  - exact Hlen.
  - exact Hcont.
  - exact (Hnew 0 (plain_scene 0 "new A" "" []) eq_refl).
  - exact (Hnew 1 (plain_scene 0 "new B" "" []) eq_refl).
  - exact (Hafter 1 (plain_scene 2 "" "" []) eq_refl (le_n 1)).
  - refine (Hafter 7 (plain_scene 8 "" "" []) eq_refl _). vm_compute. lia.
Defined.

Lemma add_scene_appends_payload_witness :
  final_state
    (_update_specific_scene (Some (VScenes three_scenes))
       (Returned
          (mkSceneChange add None None None None
             (Some (plain_scene 7 "late" "" [])))) ∅)
  = <["scenes" := VScenes (three_scenes ++ [plain_scene 7 "late" "" []])]> ∅.
Proof.
  exact (add_scene_appends_payload ∅ three_scenes
           (mkSceneChange add None None None None
              (Some (plain_scene 7 "late" "" [])))
           (plain_scene 7 "late" "" []) eq_refl eq_refl).
Defined.

Lemma remove_scene_leaves_gap_witness :
  (∀ x, x ∈ [plain_scene 1 "" "" []] → Scene.scene_number x ≠ 2%Z)
  ∧ final_state
      (_update_specific_scene (Some (VScenes three_scenes))
         (Returned (mkSceneChange remove (Some 2%Z) None None None None)) ∅)
    = <["scenes" :=
          VScenes [plain_scene 1 "" "" []; plain_scene 3 "" "" []]]> ∅.
Proof.
  assert (Hpre : ∀ x, x ∈ [plain_scene 1 "" "" []] →
                      Scene.scene_number x ≠ 2%Z).
  { intros x Hx. apply list_elem_of_singleton in Hx. subst x. discriminate. }
  split; [exact Hpre|].
  exact (remove_scene_leaves_gap ∅ [plain_scene 1 "" "" []]
           [plain_scene 3 "" "" []] (plain_scene 2 "" "" [])
           (mkSceneChange remove (Some 2%Z) None None None None) 2%Z
           eq_refl eq_refl ltac:(discriminate) eq_refl Hpre).
Defined.

Lemma insert_between_anchor_missing_witness :
  (7%Z ∉ (Scene.scene_number <$> three_scenes))
  ∧ (0%Z ∉ (Scene.scene_number <$> three_scenes))
  ∧ final_state
      (_update_specific_scene (Some (VScenes three_scenes))
         (Returned (insert_one_after 7)) ∅)
    = <["scenes" :=
          VScenes (three_scenes ++ [plain_scene 8 "new" "" []])]> ∅
  ∧ ¬ contiguous (three_scenes ++ [plain_scene 8 "new" "" []])
  ∧ final_state
      (_update_specific_scene (Some (VScenes three_scenes))
         (Returned (insert_one_after 0)) ∅)
    = <["scenes" :=
          VScenes (three_scenes ++ [plain_scene 1 "new" "" []])]> ∅
  ∧ ¬ NoDup (Scene.scene_number
               <$> three_scenes ++ [plain_scene 1 "new" "" []]).
Proof.
  assert (Hc : contiguous three_scenes) by reflexivity.
  assert (Hne : three_scenes ≠ []) by discriminate.
  assert (H7 : 7%Z ∉ (Scene.scene_number <$> three_scenes)).
  { rewrite Hc. intros E. apply elem_of_seqZ in E.
    change (length three_scenes) with 3 in E. lia. }
  assert (H0 : 0%Z ∉ (Scene.scene_number <$> three_scenes)).
  { rewrite Hc. intros E. apply elem_of_seqZ in E. lia. }
  split; [exact H7|]. split; [exact H0|].
  destruct (insert_between_anchor_missing ∅ three_scenes (insert_one_after 7)
              7%Z eq_refl eq_refl H7) as (A7 & _ & _ & _ & B7 & _).
  destruct (insert_between_anchor_missing ∅ three_scenes (insert_one_after 0)
              0%Z eq_refl eq_refl H0) as (A0 & _ & _ & _ & _ & B0).
  split; [exact A7|]. split; [exact (B7 Hc Hne ltac:(discriminate))|].
  split; [exact A0|].
  apply (B0 Hc Hne). change (length (scenes_to_insert (insert_one_after 0)))
    with 1. lia.
Defined.

Lemma dialogue_index_edges_witness :
  (final_state
     (_update_specific_dialogue (Some (VDialogue five_lines))
        (Returned (reword_bob 9)) ∅)
   = <["dialogue_scenes" := VDialogue five_lines]> ∅
   ∧ warned
       (_update_specific_dialogue (Some (VDialogue five_lines))
          (Returned (reword_bob 9)) ∅))
  ∧ final_state
      (_update_specific_dialogue (Some (VDialogue five_lines))
         (Returned (reword_bob 0)) ∅)
    = <["dialogue_scenes" :=
          VDialogue
            [DialogueLine.mk "Alice" 1 "One.";
             DialogueLine.mk "Bob" 1 "Reworded.";
             DialogueLine.mk "Alice" 2 "Three.";
             DialogueLine.mk "BOB" 2 "Four.";
             DialogueLine.mk "Carol" 3 "Five."]]> ∅.
Proof.
  destruct (dialogue_index_edges (Some (VDialogue five_lines)) (reword_bob 9)
              (mkDialogueIdentification (Some 9%Z) (Some "bob")) 9%Z ∅
              (or_introl eq_refl) eq_refl eq_refl) as (Hout & _).
  destruct (dialogue_index_edges (Some (VDialogue five_lines)) (reword_bob 0)
              (mkDialogueIdentification (Some 0%Z) (Some "bob")) 0%Z ∅
              (or_introl eq_refl) eq_refl eq_refl) as (_ & _ & _ & Hzero).
  split.
  - apply Hout. right. change (length (dialogue_or_empty
                                          (Some (VDialogue five_lines))))
      with 5. lia.
  - assert (Hpre : ∀ x, x ∈ [DialogueLine.mk "Alice" 1 "One."] →
                        ¬ spoken_by "bob" x).
    { intros x Hx. apply list_elem_of_singleton in Hx. subst x.
      unfold spoken_by. vm_compute. discriminate. }
    destruct (Hzero eq_refl "bob" "Reworded."
                [DialogueLine.mk "Alice" 1 "One."]
                (DialogueLine.mk "Bob" 1 "Two.")
                [DialogueLine.mk "Alice" 2 "Three.";
                 DialogueLine.mk "BOB" 2 "Four.";
                 DialogueLine.mk "Carol" 3 "Five."]
                eq_refl ltac:(discriminate) eq_refl eq_refl Hpre)
      as (Hmod & _).
    exact (Hmod eq_refl eq_refl ltac:(discriminate)).
Defined.

Lemma unmatched_target_is_noop_witness :
  (final_state
     (_update_specific_location re_sub_literal (pier_document !! "locations")
        (Returned
           (mkEntityChange modify (Some "Harbor")
              (Some (mkEntity "Dock" [])))) pier_document)
   = <["locations" :=
         VEntities (entities_or_empty (pier_document !! "locations"))]>
       pier_document
   ∧ warned
       (_update_specific_location re_sub_literal
          (pier_document !! "locations")
          (Returned
             (mkEntityChange modify (Some "Harbor")
                (Some (mkEntity "Dock" [])))) pier_document))
  ∧ (final_state
       (_update_specific_scene (pier_document !! "scenes")
          (Returned (mkSceneChange remove (Some 9%Z) None None None None))
          pier_document)
     = <["scenes" := VScenes (scenes_or_empty (pier_document !! "scenes"))]>
         pier_document
     ∧ warned
         (_update_specific_scene (pier_document !! "scenes")
            (Returned (mkSceneChange remove (Some 9%Z) None None None None))
            pier_document)).
Proof.
  destruct (unmatched_target_is_noop re_sub_literal)
    as (Hloc & _ & _ & Hscene).
  split.
  - apply (Hloc (pier_document !! "locations")
             (mkEntityChange modify (Some "Harbor")
                (Some (mkEntity "Dock" []))) pier_document).
    + left. reflexivity.
    + left. intros e He.
      change (entities_or_empty (pier_document !! "locations"))
        with [mkEntity "Cafe" []] in He.
      apply list_elem_of_singleton in He. subst e.
      unfold matches_name. vm_compute. discriminate.
  - apply (Hscene (pier_document !! "scenes")
             (mkSceneChange remove (Some 9%Z) None None None None)
             pier_document).
    + right. reflexivity.
    + left. intros s Hs.
      change (scenes_or_empty (pier_document !! "scenes"))
        with [plain_scene 1 "Elena waits at the Cafe"
                "Elena Cross paces. Elena Cross stops."
                [SceneLine.mk "Elena Cross" "We leave at dawn."];
              plain_scene 2 "The pier" "Bob arrives." []] in Hs.
      rewrite !elem_of_cons, elem_of_nil in Hs.
      destruct Hs as [->|[->|[]]]; discriminate.
Defined.

(** ** Loading a user view *)

Lemma run_update_state_from_user_view uv st :
  final_state (update_state_from_user_view uv st) = loaded uv st.
Proof.
  unfold update_state_from_user_view, loaded.
  destruct (UserView.visual_style uv) as [[|? ?]|];
    destruct (UserView.dialogues_by_character uv) as [[|? ?]|];
    destruct (UserView.scenes uv) as [[|? ?]|]; reflexivity.
Qed.

Lemma returns_update_state_from_user_view uv :
  returns (update_state_from_user_view uv).
Proof.
  intros st. exists tt. unfold update_state_from_user_view.
  destruct (UserView.visual_style uv) as [[|? ?]|];
    destruct (UserView.dialogues_by_character uv) as [[|? ?]|];
    destruct (UserView.scenes uv) as [[|? ?]|]; reflexivity.
Qed.

(** X1. A user view with scenes sets [scenes] to as many internal scenes,
    in the same order and with the same numbers (0 for a scene without
    one), and records their count under [number_of_scenes]. *)
Theorem loaded_scene_count (uv : UserView.t) (st : state)
    (scenes : list UserScene.t) :
  UserView.scenes uv = Some scenes → scenes ≠ [] →
  let st' := final_state (update_state_from_user_view uv st) in
  ∃ internal_scenes,
    st' !! "scenes" = Some (VScenes internal_scenes)
    ∧ st' !! "number_of_scenes" = Some (VInt (Z.of_nat (length scenes)))
    ∧ length internal_scenes = length scenes
    ∧ Scene.scene_number <$> internal_scenes
      = (λ s, default 0%Z (UserScene.scene_number s)) <$> scenes
    ∧ ∀ i s, scenes !! i = Some s →
        ∃ s', internal_scenes !! i = Some s'
          ∧ length (Scene.dialogue_lines s')
            = length (default [] (UserScene.dialogues_in_scene s)).
Proof.
  intros Hs Hne st'. unfold st'.
  rewrite run_update_state_from_user_view. unfold loaded. rewrite Hs.
  destruct scenes as [|s0 scenes]; [done|].
  exists (internal_scene <$> s0 :: scenes). split_and!.
  - rewrite lookup_insert_ne by done. by rewrite lookup_insert_eq.
  - rewrite lookup_insert_eq. by rewrite length_fmap.
  - by rewrite length_fmap.
  - rewrite <- list_fmap_compose. reflexivity.
  - intros i s Hi. exists (internal_scene s). split.
    + by rewrite list_lookup_fmap, Hi.
    + cbn. by rewrite length_fmap.
Qed.

(** X2. What the user view lacks is not cleared: without scenes (key
    absent or list empty) the [scenes] and [number_of_scenes] of the
    state stay as they were, and so do [dialogue_scenes] without
    dialogues and [visual_lookbook] without a visual style; the
    characters and the locations are overwritten in every case, by the
    empty list when the view has none. *)
Theorem load_keeps_what_view_lacks (uv : UserView.t) (st : state) :
  let st' := final_state (update_state_from_user_view uv st) in
  (default [] (UserView.scenes uv) = [] →
     st' !! "scenes" = st !! "scenes"
     ∧ st' !! "number_of_scenes" = st !! "number_of_scenes")
  ∧ (default [] (UserView.dialogues_by_character uv) = [] →
       st' !! "dialogue_scenes" = st !! "dialogue_scenes")
  ∧ (default [] (UserView.visual_style uv) = [] →
       st' !! "visual_lookbook" = st !! "visual_lookbook")
  ∧ st' !! "characters"
    = Some (VEntities (default [] (UserView.characters uv)))
  ∧ st' !! "locations"
    = Some (VEntities (default [] (UserView.locations uv))).
Proof.
  intros st'. unfold st'.
  rewrite run_update_state_from_user_view. unfold loaded.
  split_and!.
  - intros Hs.
    destruct (UserView.scenes uv) as [[|? ?]|]; try discriminate Hs;
      destruct (UserView.dialogues_by_character uv) as [[|? ?]|];
      destruct (UserView.visual_style uv) as [[|? ?]|];
      by rewrite !lookup_insert_ne by done.
  - intros Hd.
    destruct (UserView.dialogues_by_character uv) as [[|? ?]|];
      try discriminate Hd;
      destruct (UserView.scenes uv) as [[|? ?]|];
      destruct (UserView.visual_style uv) as [[|? ?]|];
      by rewrite !lookup_insert_ne by done.
  - intros Hv.
    destruct (UserView.visual_style uv) as [[|? ?]|]; try discriminate Hv;
      destruct (UserView.scenes uv) as [[|? ?]|];
      destruct (UserView.dialogues_by_character uv) as [[|? ?]|];
      by rewrite !lookup_insert_ne by done.
  - destruct (UserView.scenes uv) as [[|? ?]|];
      destruct (UserView.dialogues_by_character uv) as [[|? ?]|];
      rewrite !lookup_insert_ne by done; by rewrite lookup_insert_eq.
  - destruct (UserView.scenes uv) as [[|? ?]|];
      destruct (UserView.dialogues_by_character uv) as [[|? ?]|];
      rewrite ?lookup_insert_ne by done; by rewrite lookup_insert_eq.
Qed.

Lemma filter_internal_dialogue c c' (lines : list UserLine.t) :
  filter (λ x, DialogueLine.character_name x = c)
    (internal_dialogue c' <$> lines)
  = if decide (c' = c) then internal_dialogue c' <$> lines else [].
Proof.
  induction lines as [|x lines IH]; [by case_decide|].
  rewrite fmap_cons, filter_cons. cbn. rewrite IH.
  destruct (decide (c' = c)); done.
Qed.

Lemma dialogue_scenes_of_cons c lines d :
  dialogue_scenes_of ((c, lines) :: d)
  = (internal_dialogue c <$> lines) ++ dialogue_scenes_of d.
Proof. reflexivity. Qed.

Lemma dialogue_scenes_of_length d :
  length (dialogue_scenes_of d) = sum_list (length ∘ snd <$> d).
Proof.
  induction d as [|[c lines] d IH]; [done|].
  rewrite dialogue_scenes_of_cons, length_app, length_fmap, IH. done.
Qed.

Lemma dialogue_scenes_of_absent c d :
  c ∉ d.*1 →
  filter (λ x, DialogueLine.character_name x = c) (dialogue_scenes_of d) = [].
Proof.
  induction d as [|[c' lines] d IH]; [done|].
  rewrite fmap_cons, not_elem_of_cons. intros [Hne Hd]. cbn [fst] in Hne.
  rewrite dialogue_scenes_of_cons, filter_app, filter_internal_dialogue.
  rewrite decide_False by done. by rewrite IH.
Qed.

Lemma dialogue_scenes_of_group c lines d :
  NoDup d.*1 → (c, lines) ∈ d →
  filter (λ x, DialogueLine.character_name x = c) (dialogue_scenes_of d)
  = internal_dialogue c <$> lines.
Proof.
  induction d as [|[c' lines'] d IH]; [by intros _ ?%elem_of_nil|].
  rewrite fmap_cons, NoDup_cons. intros [Hc' Hd]. cbn [fst] in Hc'.
  rewrite elem_of_cons. intros [Heq|Hin].
  - injection Heq as <- <-.
    rewrite dialogue_scenes_of_cons, filter_app, filter_internal_dialogue.
    rewrite decide_True by done.
    rewrite dialogue_scenes_of_absent by done. by rewrite app_nil_r.
  - assert (c ≠ c').
    { intros ->. apply Hc'. apply list_elem_of_fmap. by exists (c', lines). }
    rewrite dialogue_scenes_of_cons, filter_app, filter_internal_dialogue.
    rewrite decide_False by done. by apply IH.
Qed.

(** X3. The dialogues of a user view, grouped by character, become one
    flat list: as many lines as the groups hold together, the groups in
    the order of the file and the lines of a group in their order, each
    under the name of its group; reading the lines of one character back
    out of the list gives that character's group. *)
Theorem loaded_dialogue_by_character (uv : UserView.t) (st : state)
    (by_character : list (string * list UserLine.t)) :
  UserView.dialogues_by_character uv = Some by_character →
  by_character ≠ [] →
  NoDup by_character.*1 →
  ∃ dialogue_scenes,
    final_state (update_state_from_user_view uv st) !! "dialogue_scenes"
    = Some (VDialogue dialogue_scenes)
    ∧ length dialogue_scenes = sum_list (length ∘ snd <$> by_character)
    ∧ (∀ d, d ∈ dialogue_scenes →
         DialogueLine.character_name d ∈ by_character.*1)
    ∧ ∀ char_name lines,
        (char_name, lines) ∈ by_character →
        filter (λ d, DialogueLine.character_name d = char_name) dialogue_scenes
        = (λ line_data,
             DialogueLine.mk char_name
               (default 0%Z (UserLine.scene_number line_data))
               (default "" (UserLine.line line_data))) <$> lines.
Proof.
  intros Hd Hne Hnd.
  rewrite run_update_state_from_user_view. unfold loaded. rewrite Hd.
  destruct by_character as [|g by_character]; [done|].
  exists (dialogue_scenes_of (g :: by_character)). split_and!.
  - destruct (UserView.scenes uv) as [[|? ?]|];
      rewrite ?lookup_insert_ne by done; by rewrite lookup_insert_eq.
  - apply dialogue_scenes_of_length.
  - intros d Hin. unfold dialogue_scenes_of in Hin.
    apply list_elem_of_bind in Hin as ([c lines] & Hin & Hg).
    apply list_elem_of_fmap in Hin as (x & -> & _).
    apply list_elem_of_fmap. by exists (c, lines).
  - intros c lines Hin. by apply dialogue_scenes_of_group.
Qed.

Lemma lookup_insert_both (k : string) (v : value) (m1 m2 : state) i :
  (i ≠ k → m1 !! i = m2 !! i) → <[k := v]> m1 !! i = <[k := v]> m2 !! i.
Proof.
  intros H. destruct (decide (i = k)) as [->|Hne].
  - by rewrite !lookup_insert_eq.
  - rewrite !lookup_insert_ne by done. auto.
Qed.

(** X4. Loading the same user view a second time changes nothing. *)
Theorem load_twice (uv : UserView.t) (st : state) :
  final_state
    (update_state_from_user_view uv
       (final_state (update_state_from_user_view uv st)))
  = final_state (update_state_from_user_view uv st).
Proof.
  rewrite !run_update_state_from_user_view.
  apply map_eq. intros i. unfold loaded.
  destruct (UserView.visual_style uv) as [[|? ?]|];
    destruct (UserView.dialogues_by_character uv) as [[|? ?]|];
    destruct (UserView.scenes uv) as [[|? ?]|];
    repeat (apply lookup_insert_both; intros ?);
    by rewrite !lookup_insert_ne by done.
Qed.

(** ** Analysis models *)

Lemma insert_by_priority_perm x l : insert_by_priority x l ≡ₚ x :: l.
Proof.
  induction l as [|y l IH]; [done|].
  cbn. case_decide; [done|]. rewrite IH. apply Permutation_swap.
Qed.

Lemma sort_by_priority_perm l : sort_by_priority l ≡ₚ l.
Proof.
  induction l as [|x l IH]; [done|].
  cbn. by rewrite insert_by_priority_perm, IH.
Qed.

Lemma insert_by_priority_sorted x l :
  StronglySorted by_priority l →
  StronglySorted by_priority (insert_by_priority x l).
Proof.
  induction 1 as [|y l Hl IH Hy]; cbn.
  - repeat constructor.
  - case_decide as Hxy.
    + constructor; [by constructor|].
      constructor; [done|].
      eapply Forall_impl; [exact Hy|]. unfold by_priority in *. intros; lia.
    + constructor; [done|].
      rewrite insert_by_priority_perm. constructor; [|done].
      unfold by_priority. lia.
Qed.

Lemma sort_by_priority_sorted l : StronglySorted by_priority (sort_by_priority l).
Proof.
  induction l as [|x l IH]; [constructor|].
  cbn. by apply insert_by_priority_sorted.
Qed.

Lemma insert_by_priority_stable p x l :
  filter (λ cf, ComponentFeedback.priority cf = p) (insert_by_priority x l)
  = filter (λ cf, ComponentFeedback.priority cf = p) (x :: l).
Proof.
  induction l as [|y l IH]; [done|].
  cbn. case_decide as Hxy; [done|].
  rewrite filter_cons, IH, !filter_cons.
  destruct (decide (ComponentFeedback.priority y = p)) as [Hy|Hy];
    destruct (decide (ComponentFeedback.priority x = p)) as [Hx|Hx];
    try done.
  lia.
Qed.

Lemma sort_by_priority_stable p l :
  filter (λ cf, ComponentFeedback.priority cf = p) (sort_by_priority l)
  = filter (λ cf, ComponentFeedback.priority cf = p) l.
Proof.
  induction l as [|x l IH]; [done|].
  cbn [sort_by_priority].
  by rewrite insert_by_priority_stable, !filter_cons, IH.
Qed.

(** X5. The components to update are exactly the entries of the analysis
    that need an update, each once per entry, in ascending priority, the
    entries of one priority in the order of the analysis. *)
Theorem components_to_update_in_priority_order
    (component_feedback : list ComponentFeedback.t) :
  ∃ components,
    get_components_to_update component_feedback
    = ComponentFeedback.component_name <$> components
    ∧ components ≡ₚ needing_update component_feedback
    ∧ StronglySorted by_priority components
    ∧ ∀ p, filter (λ cf, ComponentFeedback.priority cf = p) components
           = filter (λ cf, ComponentFeedback.priority cf = p)
               (needing_update component_feedback).
Proof.
  exists (sort_by_priority (needing_update component_feedback)). split_and!.
  - reflexivity.
  - apply sort_by_priority_perm.
  - apply sort_by_priority_sorted.
  - intros p. apply sort_by_priority_stable.
Qed.

(** X6. A component is listed for update exactly when the analysis has
    feedback for it, and that feedback is the one of the first entry of
    that name that needs an update. *)
Theorem listed_components_have_feedback
    (component_feedback : list ComponentFeedback.t) (component_name : string) :
  (component_name ∈ get_components_to_update component_feedback
   ↔ is_Some (get_feedback_for_component component_feedback component_name))
  ∧ ∀ feedback,
      get_feedback_for_component component_feedback component_name
      = Some feedback →
      ∃ pre cf post,
        component_feedback = pre ++ cf :: post
        ∧ ComponentFeedback.component_name cf = component_name
        ∧ ComponentFeedback.needs_update cf = true
        ∧ ComponentFeedback.feedback cf = feedback
        ∧ ∀ x, x ∈ pre →
            ¬ (ComponentFeedback.component_name x = component_name
               ∧ ComponentFeedback.needs_update x = true).
Proof.
  unfold get_components_to_update, get_feedback_for_component. split.
  - rewrite list_elem_of_fmap. split.
    + intros (cf & -> & Hin).
      rewrite sort_by_priority_perm in Hin.
      apply list_elem_of_filter in Hin as [Hn Hin].
      rewrite fmap_is_Some.
      eapply (list_find_elem_of _ _ cf); [done|]. by split.
    + rewrite fmap_is_Some. intros [[i cf] Hf].
      apply list_find_Some in Hf as (Hi & [Hname Hn] & _).
      exists cf. split; [done|].
      rewrite sort_by_priority_perm. apply list_elem_of_filter. split; [done|].
      by eapply list_elem_of_lookup_2.
  - intros feedback Hf.
    apply fmap_Some in Hf as ([i cf] & Hf & ->).
    apply list_find_Some in Hf as (Hi & [Hname Hn] & Hpre).
    exists (take i component_feedback), cf, (drop (S i) component_feedback).
    split_and!; try done.
    + by rewrite take_drop_middle.
    + intros x Hx. apply list_elem_of_lookup in Hx as [j Hj].
      assert (j < i).
      { apply lookup_lt_Some in Hj. rewrite length_take in Hj. lia. }
      rewrite lookup_take_lt in Hj by done. by eapply Hpre.
Qed.

(** ** The keyword fallbacks *)

Lemma existsb_mentions keywords text :
  existsb (λ keyword, str_in keyword text) keywords = true
  ↔ mentions keywords text.
Proof.
  unfold mentions. rewrite existsb_exists. split.
  - intros (kw & Hin & Hs). exists kw. split.
    + by apply list_elem_of_In.
    + by apply str_in_spec.
  - intros (kw & Hin & Hs). exists kw. split.
    + by apply list_elem_of_In.
    + by apply str_in_spec.
Qed.

Lemma keyword_component_Some text c :
  keyword_component text = Some c →
  ∃ keywords, (c, keywords) ∈ component_keywords ∧ mentions keywords text.
Proof.
  unfold keyword_component. intros Hf.
  apply fmap_Some in Hf as ([i [c' kws]] & Hf & ->).
  apply list_find_Some in Hf as (Hi & Hkw & _).
  exists kws. split.
  - by eapply list_elem_of_lookup_2.
  - by apply existsb_mentions.
Qed.

Lemma keyword_component_None text :
  keyword_component text = None →
  ∀ c keywords, (c, keywords) ∈ component_keywords → ¬ mentions keywords text.
Proof.
  unfold keyword_component. intros Hf c kws Hin Hm.
  apply fmap_None in Hf.
  eapply list_find_None in Hf. 
  rewrite Forall_forall in Hf. apply (Hf (c, kws)); [done|].
  by apply existsb_mentions.
Qed.

(** X7. When the model call fails, [identify_components_with_llm] still
    answers, and leaves the state alone: the component it names is one
    [update_component] knows, it is a component one of whose keywords
    occurs in the lowercased feedback, or the draft when none occurs; no
    dependent component is named and the feedback is handed on as it
    came. *)
Theorem fallback_names_known_component (user_feedback : string) (st : state) :
  let r := identify_components_with_llm Raised user_feedback st in
  ∃ result,
    r.1.1 = Ret result
    ∧ final_state r = st
    ∧ is_Some (component_map !! primary_component result)
    ∧ ((∃ keywords,
          (primary_component result, keywords) ∈ component_keywords
          ∧ mentions keywords (lower user_feedback))
       ∨ (primary_component result = "draft"
          ∧ ∀ c keywords, (c, keywords) ∈ component_keywords →
              ¬ mentions keywords (lower user_feedback)))
    ∧ dependent_components result = []
    ∧ primary_feedback result = user_feedback
    ∧ user_intent result = user_feedback.
Proof.
  intros r. exists (fallback_identification user_feedback).
  split_and!; try reflexivity.
  - unfold fallback_identification. cbn [primary_component].
    destruct (keyword_component (lower user_feedback)) as [c|] eqn:Hk;
      [|by eexists].
    apply keyword_component_Some in Hk as (kws & Hin & _).
    unfold component_keywords in Hin.
    rewrite !elem_of_cons, elem_of_nil in Hin.
    destruct Hin as [H|[H|[H|[H|[H|[H|[]]]]]]]; injection H as -> _;
      by eexists.
  - unfold fallback_identification. cbn [primary_component].
    destruct (keyword_component (lower user_feedback)) as [c|] eqn:Hk.
    + left. by apply keyword_component_Some.
    + right. split; [done|]. by apply keyword_component_None.
Qed.

(** X8. The fallback of the ReAct agent names the locations when a
    location keyword occurs in the lowercased feedback (among them
    "change the"), else the characters when a character keyword occurs,
    else the draft: always a component [update_component] knows, and
    never a dependent component. *)
Theorem react_fallback_names_known_component (user_feedback : string) :
  let decision := _fallback_analysis user_feedback in
  let location_keywords :=
    ["location"; "place"; "setting"; "cafe"; "park"; "shop"; "change the"] in
  let char_keywords := ["character"; "person"; "add"; "named"] in
  is_Some (component_map !! decision_primary_component decision)
  ∧ decision_dependent_components decision = []
  ∧ (mentions location_keywords (lower user_feedback) →
       decision_primary_component decision = "locations")
  ∧ (¬ mentions location_keywords (lower user_feedback) →
       mentions char_keywords (lower user_feedback) →
       decision_primary_component decision = "characters")
  ∧ (¬ mentions location_keywords (lower user_feedback) →
       ¬ mentions char_keywords (lower user_feedback) →
       decision_primary_component decision = "draft").
Proof.
  intros decision location_keywords char_keywords.
  unfold decision, _fallback_analysis. cbv zeta.
  fold location_keywords. fold char_keywords.
  destruct (existsb _ location_keywords) eqn:Hl.
  - apply existsb_mentions in Hl. split_and!; try done; by eexists.
  - assert (¬ mentions location_keywords (lower user_feedback)) as Hnl.
    { rewrite <- existsb_mentions. by rewrite Hl. }
    destruct (existsb _ char_keywords) eqn:Hc.
    + apply existsb_mentions in Hc. split_and!; try done; by eexists.
    + assert (¬ mentions char_keywords (lower user_feedback)) as Hnc.
      { rewrite <- existsb_mentions. by rewrite Hc. }
      split_and!; try done; by eexists.
Qed.

(** ** EntityPatcher: add, remove and the size of the collection *)

Lemma run_entity_add key propagate original change new st :
  action change = add → new_entity change = Some new →
  final_state (update_specific_entity key propagate original (Returned change) st)
  = <[key := VEntities (entities_or_empty original ++ [new])]> st.
Proof.
  intros Ha Hn. unfold update_specific_entity. run_patch. cbn.
  by rewrite Ha, Hn.
Qed.

Lemma run_entity_remove key propagate original change target pre e post st :
  action change = remove →
  target_name change = Some target → target ≠ "" →
  entities_or_empty original = pre ++ e :: post →
  matches_name target e →
  (∀ x, x ∈ pre → ¬ matches_name target x) →
  let r := update_specific_entity key propagate original (Returned change) st in
  final_state r = <[key := VEntities (pre ++ post)]> st
  ∧ output r = [(OK, "Removed"); (OK, "Preserved others")].
Proof.
  intros Ha Ht Hne Hl He Hpre. cbv zeta.
  unfold update_specific_entity. run_patch. cbn.
  rewrite Ha, Ht, Hl. unfold truthy_str.
  rewrite (decide_False (P := target = "")) by done.
  rewrite (list_find_first (matches_name target) pre e post) by done.
  cbn. by rewrite delete_middle.
Qed.

(** [if change.target_name:] is false for the empty string as for
    [None]: such a [remove] deletes nothing. *)
Lemma run_entity_remove_untargeted key propagate original change st :
  action change = remove →
  truthy_str (target_name change) = None →
  let r := update_specific_entity key propagate original (Returned change) st in
  final_state r = <[key := VEntities (entities_or_empty original)]> st
  ∧ warned r.
Proof.
  intros Ha Ht. cbv zeta.
  unfold update_specific_entity. run_patch. cbn.
  rewrite Ha, Ht. cbn. split; [done|find_warning].
Qed.

Lemma entity_modify_length key propagate original change st :
  action change = modify →
  ∃ l, final_state
         (update_specific_entity key propagate original (Returned change) st)
       !! key = Some (VEntities l)
       ∧ length l = length (entities_or_empty original).
Proof.
  intros Ha. unfold update_specific_entity. run_patch. cbn. rewrite Ha.
  destruct (truthy_str (target_name change)) as [target|];
    [|eexists; split; [apply lookup_insert_eq|done]].
  destruct (new_entity change) as [new|];
    [|eexists; split; [apply lookup_insert_eq|done]].
  destruct (list_find _ _) as [[i e]|];
    [|eexists; split; [apply lookup_insert_eq|done]].
  cbn. case_decide.
  - cbn. destruct (propagate (name e) (name new) st) as [[[[]|x] st1] out1];
      cbn; eexists; (split; [apply lookup_insert_eq|]);
      [by rewrite length_insert|done].
  - cbn. eexists. split; [apply lookup_insert_eq|]. by rewrite length_insert.
Qed.

Lemma dialogue_modify_length original change st :
  dialogue_action change = modify →
  ∃ l, final_state (_update_specific_dialogue original (Returned change) st)
       !! "dialogue_scenes" = Some (VDialogue l)
       ∧ length l = length (dialogue_or_empty original).
Proof.
  intros Ha. unfold _update_specific_dialogue. run_patch. cbn. rewrite Ha.
  destruct (identification change) as [ident|];
    [|eexists; split; [apply lookup_insert_eq|done]].
  destruct (truthy_str (modified_line change)) as [text|];
    [|eexists; split; [apply lookup_insert_eq|done]].
  destruct (truthy_int (target_index ident)) as [index|].
  - case_decide; cbn; eexists; (split; [apply lookup_insert_eq|]);
      [by rewrite length_alter|done].
  - destruct (truthy_str (target_character ident)) as [who|];
      [|eexists; split; [apply lookup_insert_eq|done]].
    destruct (list_find _ _) as [[i e]|]; cbn; eexists;
      (split; [apply lookup_insert_eq|]); [by rewrite length_alter|done].
Qed.

Lemma scene_modify_length original change st :
  scene_action change = modify →
  ∃ l, final_state (_update_specific_scene original (Returned change) st)
       !! "scenes" = Some (VScenes l)
       ∧ length l = length (scenes_or_empty original).
Proof.
  intros Ha. unfold _update_specific_scene. run_patch. cbn. rewrite Ha.
  destruct (truthy_int (target_scene_number change)) as [target|];
    [|eexists; split; [apply lookup_insert_eq|done]].
  destruct (new_scene change) as [new|];
    [|eexists; split; [apply lookup_insert_eq|done]].
  destruct (list_find _ _) as [[i e]|]; cbn; eexists;
    (split; [apply lookup_insert_eq|]); [by rewrite length_insert|done].
Qed.

Section Patches.

Variable re_sub : string → string → string → option string.

(** X9. A [modify] never changes how many entries a collection has:
    whatever the model replies under that action, and also when the
    rename propagation raises and the patch is rolled back, the list
    written to the state is as long as the original one. *)
Theorem modify_keeps_count (st : state) :
  (∀ original change,
     action change = modify →
     ∃ l, final_state
            (_update_specific_location re_sub original (Returned change) st)
          !! "locations" = Some (VEntities l)
          ∧ length l = length (entities_or_empty original))
  ∧ (∀ original change,
       action change = modify →
       ∃ l, final_state
              (_update_specific_character original (Returned change) st)
            !! "characters" = Some (VEntities l)
            ∧ length l = length (entities_or_empty original))
  ∧ (∀ original change,
       dialogue_action change = modify →
       ∃ l, final_state
              (_update_specific_dialogue original (Returned change) st)
            !! "dialogue_scenes" = Some (VDialogue l)
            ∧ length l = length (dialogue_or_empty original))
  ∧ (∀ original change,
       scene_action change = modify →
       ∃ l, final_state (_update_specific_scene original (Returned change) st)
            !! "scenes" = Some (VScenes l)
            ∧ length l = length (scenes_or_empty original)).
Proof.
  split_and!.
  - intros. by apply entity_modify_length.
  - intros. by apply entity_modify_length.
  - intros. by apply dialogue_modify_length.
  - intros. by apply scene_modify_length.
Qed.

(** X10. A [remove] of a location or of a character whose target is not
    the empty string deletes the first entity whose name equals the
    target up to case and nothing else: an entity of the same name
    further down the list stays, the order of the others is kept, no
    warning is printed, and no other key of the state is written, so the
    dialogue lines and scenes that mention the removed entity are left as
    they are. A [remove] whose target is the empty string deletes
    nothing, even where an entity has the empty name, and prints a
    warning. *)
Theorem remove_deletes_first_match_only (original : option value)
    (change : EntityChange) (target : string) (pre post : list Entity)
    (e : Entity) (st : state) :
  action change = remove →
  target_name change = Some target →
  entities_or_empty original = pre ++ e :: post →
  matches_name target e →
  (∀ x, x ∈ pre → ¬ matches_name target x) →
  let r1 := _update_specific_location re_sub original (Returned change) st in
  let r2 := _update_specific_character original (Returned change) st in
  (target ≠ "" →
     final_state r1 = <["locations" := VEntities (pre ++ post)]> st
     ∧ ¬ warned r1
     ∧ final_state r2 = <["characters" := VEntities (pre ++ post)]> st
     ∧ ¬ warned r2)
  ∧ (target = "" →
       final_state r1 = <["locations" := VEntities (pre ++ e :: post)]> st
       ∧ warned r1
       ∧ final_state r2 = <["characters" := VEntities (pre ++ e :: post)]> st
       ∧ warned r2).
Proof.
  intros Ha Ht Hl He Hpre r1 r2. split.
  - intros Hne.
    destruct (run_entity_remove "locations"
                (_propagate_location_name_change re_sub)
                original change target pre e post st) as [H1 O1]; try done.
    destruct (run_entity_remove "characters" _propagate_character_name_change
                original change target pre e post st) as [H2 O2]; try done.
    split_and!; try done.
    + intros [text Hw]. unfold r1, _update_specific_location in Hw.
      rewrite O1 in Hw. not_in.
    + intros [text Hw]. unfold r2, _update_specific_character in Hw.
      rewrite O2 in Hw. not_in.
  - intros ->.
    assert (Hblank : truthy_str (target_name change) = None)
      by by rewrite Ht.
    destruct (run_entity_remove_untargeted "locations"
                (_propagate_location_name_change re_sub)
                original change st Ha Hblank) as [H1 W1].
    destruct (run_entity_remove_untargeted "characters"
                _propagate_character_name_change
                original change st Ha Hblank) as [H2 W2].
    rewrite Hl in H1, H2. by split_and!.
Qed.

(** X11. Adding an entity and then removing it by its name gives the
    collection back: when no entity of the collection has the new name up
    to case and the name is not the empty string, an [add] followed by a
    [remove] of that name leaves the list as it was before the two
    revisions. An entity added under the empty name is not removed by a
    [remove] of that name: it stays at the end of the list. *)
Theorem add_then_remove_restores (original : option value)
    (adding removing : EntityChange) (new : Entity) (target : string)
    (st : state) :
  action adding = add → new_entity adding = Some new →
  action removing = remove → target_name removing = Some target →
  matches_name target new →
  (∀ x, x ∈ entities_or_empty original → ¬ matches_name target x) →
  let st1 :=
    final_state (_update_specific_character original (Returned adding) st) in
  let st2 :=
    final_state
      (_update_specific_location re_sub original (Returned adding) st) in
  let after_characters :=
    final_state
      (_update_specific_character (st1 !! "characters") (Returned removing)
         st1) in
  let after_locations :=
    final_state
      (_update_specific_location re_sub (st2 !! "locations")
         (Returned removing) st2) in
  (target ≠ "" →
     after_characters
     = <["characters" := VEntities (entities_or_empty original)]> st
     ∧ after_locations
       = <["locations" := VEntities (entities_or_empty original)]> st)
  ∧ (target = "" →
       after_characters
       = <["characters" := VEntities (entities_or_empty original ++ [new])]> st
       ∧ after_locations
         = <["locations" :=
               VEntities (entities_or_empty original ++ [new])]> st).
Proof.
  intros Ha Hn Hr Ht Hm Hfresh st1 st2 after_characters after_locations.
  unfold after_characters, after_locations, st1, st2,
    _update_specific_character, _update_specific_location.
  rewrite (run_entity_add "characters" _ original adding new st) by done.
  rewrite (run_entity_add "locations" _ original adding new st) by done.
  rewrite !lookup_insert_eq.
  split.
  - intros Hne. split.
    + destruct (run_entity_remove "characters"
                  _propagate_character_name_change
                  (Some (VEntities (entities_or_empty original ++ [new])))
                  removing target (entities_or_empty original) new []
                  (<["characters" :=
                       VEntities (entities_or_empty original ++ [new])]> st))
        as [H _]; try done.
      rewrite H, app_nil_r. apply insert_insert_eq.
    + destruct (run_entity_remove "locations"
                  (_propagate_location_name_change re_sub)
                  (Some (VEntities (entities_or_empty original ++ [new])))
                  removing target (entities_or_empty original) new []
                  (<["locations" :=
                       VEntities (entities_or_empty original ++ [new])]> st))
        as [H _]; try done.
      rewrite H, app_nil_r. apply insert_insert_eq.
  - intros ->.
    assert (Hblank : truthy_str (target_name removing) = None)
      by by rewrite Ht.
    split.
    + destruct (run_entity_remove_untargeted "characters"
                  _propagate_character_name_change
                  (Some (VEntities (entities_or_empty original ++ [new])))
                  removing
                  (<["characters" :=
                       VEntities (entities_or_empty original ++ [new])]> st)
                  Hr Hblank) as [H _].
      rewrite H. apply insert_insert_eq.
    + destruct (run_entity_remove_untargeted "locations"
                  (_propagate_location_name_change re_sub)
                  (Some (VEntities (entities_or_empty original ++ [new])))
                  removing
                  (<["locations" :=
                       VEntities (entities_or_empty original ++ [new])]> st)
                  Hr Hblank) as [H _].
      rewrite H. apply insert_insert_eq.
Qed.

End Patches.

(** ** EntityPatcher: dialogue lines by index, and added lines *)

Lemma run_dialogue_index (original : option value) (change : DialogueChange)
    (ident : DialogueIdentification) (pre post : list DialogueLine.t)
    (d : DialogueLine.t) (st : state) :
  identification change = Some ident →
  target_index ident = Some (Z.of_nat (length pre) + 1)%Z →
  dialogue_or_empty original = pre ++ d :: post →
  let r := _update_specific_dialogue original (Returned change) st in
  (dialogue_action change = modify →
   ∀ text, modified_line change = Some text → text ≠ "" →
     final_state r
     = <["dialogue_scenes" :=
           VDialogue
             (pre ++ DialogueLine.mk (DialogueLine.character_name d)
                       (DialogueLine.scene_number d) text :: post)]> st)
  ∧ (dialogue_action change = remove →
     final_state r = <["dialogue_scenes" := VDialogue (pre ++ post)]> st).
Proof.
  intros Hid Hidx Hl r. unfold r, _update_specific_dialogue. run_patch.
  assert (Hin : (0 ≤ Z.of_nat (length pre) + 1 - 1
                 < Z.of_nat (length (pre ++ d :: post)))%Z).
  { rewrite length_app. cbn. lia. }
  assert (Hto : Z.to_nat (Z.of_nat (length pre) + 1 - 1) = length pre) by lia.
  split.
  - intros Ha text Hm Hne. cbn. rewrite Ha, Hid, Hm, Hidx, Hl.
    unfold truthy_str, truthy_int.
    rewrite (decide_False (P := text = "")) by done.
    rewrite decide_False by lia.
    rewrite decide_True by done. cbn.
    by rewrite Hto, alter_middle.
  - intros Ha. cbn. rewrite Ha, Hid, Hidx, Hl.
    unfold truthy_int.
    rewrite decide_False by lia.
    rewrite decide_True by done. cbn.
    by rewrite Hto, delete_middle.
Qed.

(** A [modify] needs a [modified_line] that is not empty. *)
Lemma run_dialogue_modify_untold original change st :
  dialogue_action change = modify →
  truthy_str (modified_line change) = None →
  let r := _update_specific_dialogue original (Returned change) st in
  final_state r
  = <["dialogue_scenes" := VDialogue (dialogue_or_empty original)]> st
  ∧ warned r.
Proof.
  intros Ha Hm r. unfold r, _update_specific_dialogue. run_patch. cbn.
  rewrite Ha, Hm.
  destruct (identification change); cbn; (split; [done|find_warning]).
Qed.

(** X12. A dialogue line addressed by a valid 1-based index is the one
    changed, whatever target character the change also names: a [modify]
    with a [modified_line] that is not empty rewrites the text of that
    line and keeps its speaker and its scene number, a [remove] deletes
    that line; every other line stays as it is and in place. A [modify]
    without a [modified_line], or with the empty string for one, rewrites
    no line, valid index or not, and prints a warning. *)
Theorem dialogue_by_index (original : option value) (change : DialogueChange)
    (ident : DialogueIdentification) (pre post : list DialogueLine.t)
    (d : DialogueLine.t) (st : state) :
  identification change = Some ident →
  target_index ident = Some (Z.of_nat (length pre) + 1)%Z →
  dialogue_or_empty original = pre ++ d :: post →
  let r := _update_specific_dialogue original (Returned change) st in
  (dialogue_action change = modify →
   ∀ text, modified_line change = Some text → text ≠ "" →
     final_state r
     = <["dialogue_scenes" :=
           VDialogue
             (pre ++ DialogueLine.mk (DialogueLine.character_name d)
                       (DialogueLine.scene_number d) text :: post)]> st)
  ∧ (dialogue_action change = remove →
     final_state r = <["dialogue_scenes" := VDialogue (pre ++ post)]> st)
  ∧ (dialogue_action change = modify →
     modified_line change = None ∨ modified_line change = Some "" →
     final_state r = <["dialogue_scenes" := VDialogue (pre ++ d :: post)]> st
     ∧ warned r).
Proof.
  intros Hid Hidx Hl r.
  destruct (run_dialogue_index original change ident pre post d st
              Hid Hidx Hl) as [Hmodify Hremove].
  split_and!; [exact Hmodify|exact Hremove|].
  intros Ha Hblank.
  assert (Hm : truthy_str (modified_line change) = None)
    by (destruct Hblank as [->| ->]; done).
  destruct (run_dialogue_modify_untold original change st Ha Hm) as [H W].
  rewrite Hl in H. by split.
Qed.

(** X13. An added dialogue line goes to the end of the list with the
    speaker and the text of the payload; its scene number is the one the
    change gives, and one more than the number of lines there were when
    the change gives none or gives 0.  Removing the line at the new last
    index afterwards gives the list back. *)
Theorem dialogue_add_then_remove (original : option value)
    (adding removing : DialogueChange) (new : Dialogue)
    (ident : DialogueIdentification) (st : state) :
  dialogue_action adding = add → new_dialogue adding = Some new →
  dialogue_action removing = remove →
  identification removing = Some ident →
  let current := dialogue_or_empty original in
  target_index ident = Some (Z.of_nat (length current) + 1)%Z →
  let number :=
    match dialogue_scene_number adding with
    | Some n => if decide (n = 0%Z) then (Z.of_nat (length current) + 1)%Z else n
    | None => (Z.of_nat (length current) + 1)%Z
    end in
  let st1 :=
    final_state (_update_specific_dialogue original (Returned adding) st) in
  st1
  = <["dialogue_scenes" :=
        VDialogue
          (current ++ [DialogueLine.mk (dialogue_character_name new) number
                         (dialogue_line new)])]> st
  ∧ final_state
      (_update_specific_dialogue (st1 !! "dialogue_scenes")
         (Returned removing) st1)
    = <["dialogue_scenes" := VDialogue current]> st.
Proof.
  intros Ha Hn Hr Hid current Hidx number st1.
  assert (H1 : st1
    = <["dialogue_scenes" :=
          VDialogue
            (current ++ [DialogueLine.mk (dialogue_character_name new) number
                           (dialogue_line new)])]> st).
  { unfold st1, _update_specific_dialogue. run_patch. cbn.
    rewrite Ha, Hn. cbn. unfold number, truthy_int. fold current.
    destruct (dialogue_scene_number adding) as [n|]; [|done].
    by destruct (decide (n = 0%Z)). }
  split; [done|].
  rewrite H1, lookup_insert_eq.
  destruct (run_dialogue_index
              (Some (VDialogue
                       (current ++ [DialogueLine.mk (dialogue_character_name new)
                                      number (dialogue_line new)])))
              removing ident current []
              (DialogueLine.mk (dialogue_character_name new) number
                 (dialogue_line new))
              (<["dialogue_scenes" :=
                   VDialogue
                     (current ++ [DialogueLine.mk (dialogue_character_name new)
                                    number (dialogue_line new)])]> st))
    as [_ H]; try done.
  rewrite H by done. rewrite app_nil_r. apply insert_insert_eq.
Qed.

(** ** Identity of an entity: the letter case of the target *)

Lemma lower_empty_iff s : lower s = "" ↔ s = "".
Proof. split; [apply lower_empty|by intros ->]. Qed.

Lemma truthy_str_lower (t1 t2 : string) :
  lower t1 = lower t2 →
  (truthy_str (Some t1) = None ∧ truthy_str (Some t2) = None)
  ∨ (truthy_str (Some t1) = Some t1 ∧ truthy_str (Some t2) = Some t2).
Proof.
  intros H. unfold truthy_str.
  destruct (decide (t1 = "")) as [->|H1].
  - left. split; [done|]. rewrite decide_True; [done|].
    apply lower_empty. by rewrite <- H.
  - right. split; [done|]. rewrite decide_False; [done|].
    intros ->. apply H1. apply lower_empty. by rewrite H.
Qed.

Section Identity.

Variable re_sub : string → string → string → option string.

Lemma entity_target_case key propagate original a t1 t2 p st :
  lower t1 = lower t2 →
  update_specific_entity key propagate original
    (Returned (mkEntityChange a (Some t1) p)) st
  = update_specific_entity key propagate original
      (Returned (mkEntityChange a (Some t2) p)) st.
Proof.
  intros H. unfold update_specific_entity. run_patch.
  cbn [action target_name new_entity].
  destruct (truthy_str_lower t1 t2 H) as [[-> ->]|[-> ->]]; [done|].
  unfold matches_name, matches_name_dec. rewrite H. done.
Qed.

(** X14. The letter case of the target never matters: two revisions that
    differ only in the case of the name they target (of the location, of
    the character, or of the speaker of a dialogue line) return alike,
    leave the same state and print lines of the same tags and fixed
    texts. *)
Theorem target_case_is_irrelevant (t1 t2 : string) (st : state) :
  lower t1 = lower t2 →
  (∀ original a p,
     _update_specific_location re_sub original
       (Returned (mkEntityChange a (Some t1) p)) st
     = _update_specific_location re_sub original
         (Returned (mkEntityChange a (Some t2) p)) st)
  ∧ (∀ original a p,
       _update_specific_character original
         (Returned (mkEntityChange a (Some t1) p)) st
       = _update_specific_character original
           (Returned (mkEntityChange a (Some t2) p)) st)
  ∧ (∀ original a index new text number,
       _update_specific_dialogue original
         (Returned
            (mkDialogueChange a
               (Some (mkDialogueIdentification index (Some t1)))
               new text number)) st
       = _update_specific_dialogue original
           (Returned
              (mkDialogueChange a
                 (Some (mkDialogueIdentification index (Some t2)))
                 new text number)) st).
Proof.
  intros H. split_and!.
  - intros. by apply entity_target_case.
  - intros. by apply entity_target_case.
  - intros original a index new text number.
    unfold _update_specific_dialogue. run_patch.
    cbn [dialogue_action identification new_dialogue modified_line
         dialogue_scene_number target_index target_character].
    destruct (truthy_str_lower t1 t2 H) as [[-> ->]|[-> ->]]; [done|].
    unfold spoken_by, spoken_by_dec. rewrite H. done.
Qed.

End Identity.

(** ** SceneSequencer: modify, add and remove, insertion into a gapped list *)

Lemma run_scene_modify original change target new pre s post st :
  scene_action change = modify →
  target_scene_number change = Some target → target ≠ 0%Z →
  new_scene change = Some new →
  scenes_or_empty original = pre ++ s :: post →
  numbered target s →
  (∀ x, x ∈ pre → ¬ numbered target x) →
  final_state (_update_specific_scene original (Returned change) st)
  = <["scenes" := VScenes (pre ++ new :: post)]> st.
Proof.
  intros Ha Ht Hne Hn Hl Hs Hpre.
  unfold _update_specific_scene. run_patch. cbn.
  rewrite Ha, Ht, Hn, Hl. unfold truthy_int.
  rewrite (decide_False (P := target = 0%Z)) by done.
  rewrite (list_find_first (numbered target) pre s post) by done.
  cbn. by rewrite insert_middle.
Qed.

Lemma seqZ_ascending m (len : nat) : StronglySorted Z.lt (seqZ m (Z.of_nat len)).
Proof.
  revert m. induction len as [|len IH]; intros m; [constructor|].
  rewrite seqZ_cons by lia.
  replace (Z.pred (Z.of_nat (S len))) with (Z.of_nat len) by lia.
  constructor; [apply IH|].
  apply Forall_forall. intros x Hx. apply elem_of_seqZ in Hx. lia.
Qed.

Lemma ascending_split (nums : list Z) i anchor :
  StronglySorted Z.lt nums → nums !! i = Some anchor →
  (∀ x, x ∈ take (S i) nums → (x ≤ anchor)%Z)
  ∧ (∀ x, x ∈ drop (S i) nums → (anchor < x)%Z).
Proof.
  intros Hs Hi.
  rewrite <- (take_drop (S i) nums) in Hs.
  assert (Ha : anchor ∈ take (S i) nums).
  { apply list_elem_of_lookup. exists i. rewrite lookup_take_lt by lia. done. }
  split.
  - intros x Hx.
    apply StronglySorted_app_1_l in Hs.
    rewrite (take_S_r _ _ anchor) in Hs, Hx by done.
    apply elem_of_app in Hx as [Hx|Hx].
    + apply Z.lt_le_incl.
      eapply StronglySorted_app_1_elem_of; [exact Hs|done|apply list_elem_of_here].
    + apply list_elem_of_singleton in Hx as ->. lia.
  - intros x Hx. by eapply StronglySorted_app_1_elem_of.
Qed.

Lemma ascending_insert (scenes news : list Scene.t) (anchor : Z) i s :
  ascending scenes →
  scenes !! i = Some s → Scene.scene_number s = anchor →
  ascending
    (take (S i) scenes ++ number_new_scenes anchor news
       ++ (shift_scene (Z.of_nat (length news)) <$> drop (S i) scenes)).
Proof.
  unfold ascending. intros Hs Hi Hn.
  assert (Hnum : (Scene.scene_number <$> scenes) !! i = Some anchor)
    by (by rewrite list_lookup_fmap, Hi, <- Hn).
  destruct (ascending_split _ _ _ Hs Hnum) as [Hle Hgt].
  rewrite !fmap_app, number_new_scenes_numbers, <- list_fmap_compose.
  rewrite fmap_take.
  rewrite (list_fmap_ext
             (Scene.scene_number ∘ shift_scene (Z.of_nat (length news)))
             (Z.add (Z.of_nat (length news)) ∘ Scene.scene_number))
    by (intros; simpl; lia).
  rewrite list_fmap_compose, fmap_drop.
  rewrite <- (take_drop (S i) (Scene.scene_number <$> scenes)) in Hs.
  apply StronglySorted_app in Hs as (_ & Hpre & Hpost).
  apply StronglySorted_app_2; [|done|apply StronglySorted_app_2].
  - intros x1 x2 H1 H2. apply Hle in H1.
    apply elem_of_app in H2 as [H2|H2].
    + apply elem_of_seqZ in H2. lia.
    + apply list_elem_of_fmap in H2 as (y & -> & Hy). apply Hgt in Hy. lia.
  - intros x1 x2 H1 H2. apply elem_of_seqZ in H1.
    apply list_elem_of_fmap in H2 as (y & -> & Hy). apply Hgt in Hy. lia.
  - apply seqZ_ascending.
  - eapply StronglySorted_fmap; [|exact Hpost]. intros; simpl; lia.
Qed.

(** X15. An [insert_between] keeps a list in ascending order also when its
    numbers have gaps, as a [remove] leaves them: when the scene numbers
    go strictly up and the anchor is one of them, they go strictly up
    after the insertion, and the list has grown by the scenes the change
    supplies. *)
Theorem insert_between_keeps_ascending (st : state) (scenes : list Scene.t)
    (change : SceneChange) (anchor : Z) :
  scene_action change = insert_between →
  insert_after_scene change = Some anchor →
  ascending scenes →
  anchor ∈ (Scene.scene_number <$> scenes) →
  ∃ result,
    final_state
      (_update_specific_scene (Some (VScenes scenes)) (Returned change) st)
    = <["scenes" := VScenes result]> st
    ∧ ascending result
    ∧ length result = length scenes + length (scenes_to_insert change).
Proof.
  intros Ha Hi Hasc Hin.
  eexists. split; [by apply (run_insert_between _ _ _ anchor)|].
  cbv zeta. cbn [scenes_or_empty].
  apply list_elem_of_fmap in Hin as (s & Hs & Hin).
  unfold insert_point.
  destruct (list_find (numbered anchor) scenes) as [[i s']|] eqn:Hfind.
  - pose proof Hfind as Hf.
    apply list_find_Some in Hf as (Hi' & Hnum & _).
    split.
    + by apply (ascending_insert _ _ anchor i s').
    + apply lookup_lt_Some in Hi'.
      rewrite !length_app, length_fmap, length_take, length_drop.
      unfold number_new_scenes. rewrite length_imap. lia.
  - exfalso. apply list_find_None in Hfind.
    rewrite Forall_forall in Hfind. by apply (Hfind s).
Qed.

(** X16. A scene [modify] puts the payload in the place of the first scene
    that carries the target number, as it comes: the payload keeps the
    scene number it was given, which need not be the target, and every
    other scene stays as it is and in place; a payload numbered otherwise
    than its target therefore breaks a numbering that was 1..P. *)
Theorem scene_modify_replaces_whole_scene (original : option value)
    (change : SceneChange) (target : Z) (new s : Scene.t)
    (pre post : list Scene.t) (st : state) :
  scene_action change = modify →
  target_scene_number change = Some target → target ≠ 0%Z →
  new_scene change = Some new →
  scenes_or_empty original = pre ++ s :: post →
  Scene.scene_number s = target →
  (∀ x, x ∈ pre → Scene.scene_number x ≠ target) →
  final_state (_update_specific_scene original (Returned change) st)
  = <["scenes" := VScenes (pre ++ new :: post)]> st
  ∧ (contiguous (pre ++ s :: post) → Scene.scene_number new ≠ target →
     ¬ contiguous (pre ++ new :: post)).
Proof.
  intros Ha Ht Hne Hn Hl Hs Hpre. split.
  - by apply (run_scene_modify _ _ target new pre s post).
  - intros Hc Hdiff Hc'. apply Hdiff. rewrite <- Hs.
    rewrite (contiguous_lookup _ (length pre) new Hc')
      by (by rewrite list_lookup_middle).
    rewrite (contiguous_lookup _ (length pre) s Hc)
      by (by rewrite list_lookup_middle).
    done.
Qed.

(** X17. Adding a scene and then removing it by its number gives the list
    back: when the payload carries a number other than 0 that no scene of
    the list has, an [add] followed by a [remove] of that number leaves
    the scenes as they were before the two revisions. *)
Theorem scene_add_then_remove_restores (scenes : list Scene.t)
    (adding removing : SceneChange) (new : Scene.t) (st : state) :
  scene_action adding = add → new_scene adding = Some new →
  scene_action removing = remove →
  target_scene_number removing = Some (Scene.scene_number new) →
  Scene.scene_number new ≠ 0%Z →
  Scene.scene_number new ∉ (Scene.scene_number <$> scenes) →
  let st1 :=
    final_state
      (_update_specific_scene (Some (VScenes scenes)) (Returned adding) st) in
  final_state (_update_specific_scene (st1 !! "scenes") (Returned removing) st1)
  = <["scenes" := VScenes scenes]> st.
Proof.
  intros Ha Hn Hr Ht Hne Hfresh st1. unfold st1.
  rewrite (run_add st (Some (VScenes scenes)) adding new) by done.
  cbn [scenes_or_empty].
  rewrite lookup_insert_eq. rewrite run_remove by done.
  rewrite Ht. unfold truthy_int. rewrite decide_False by done.
  rewrite (list_find_first (numbered (Scene.scene_number new)) scenes new []).
  - by rewrite delete_middle, app_nil_r, insert_insert_eq.
  - done.
  - intros y Hy Hnum. apply Hfresh. apply list_elem_of_fmap. by exists y.
Qed.

(** ** ReferencePropagator: round trip, no reference, and the location rename *)

(** What follows a step cannot undo what the step wrote to a key the
    rest leaves alone. *)
Lemma final_state_bind_key {A B} K (m : M A) (f : A → M B) st k :
  (∀ a, preserves K (f a)) → k ∉ K →
  final_state (bind m f st) !! k = final_state (m st) !! k.
Proof.
  intros Hf Hk. unfold bind, final_state.
  destruct (m st) as [[[a|e] st1] out1]; [|done].
  specialize (Hf a st1 k Hk). unfold final_state in Hf.
  by destruct (f a st1) as [[r st2] out2].
Qed.

Lemma modify_key_id k f st :
  (∀ v, st !! k = Some v → f v = Some v ∨ f v = None) →
  modify_key k f st = st.
Proof.
  intros H. unfold modify_key.
  destruct (st !! k) as [v|] eqn:Hv; [|done].
  destruct (H v eq_refl) as [-> | ->]; [|done].
  by apply insert_id.
Qed.

Lemma rename_speaker_back old_name new_name (l : list DialogueLine.t) :
  (∀ d, d ∈ l → DialogueLine.character_name d ≠ new_name) →
  rename_speaker new_name old_name <$> (rename_speaker old_name new_name <$> l)
  = l.
Proof.
  intros Hfresh. rewrite <- list_fmap_compose.
  rewrite <- (list_fmap_id l) at 2.
  apply list_fmap_ext. intros i d Hd%list_elem_of_lookup_2.
  specialize (Hfresh d Hd). unfold rename_speaker. cbn.
  destruct d as [c n t]. cbn in *.
  destruct (decide (c = old_name)) as [->|Hne]; cbn.
  - by rewrite decide_True.
  - by rewrite decide_False.
Qed.

Lemma lookup_on_dialogue f st :
  modify_key "dialogue_scenes" (on_dialogue f) st !! "dialogue_scenes"
  = match st !! "dialogue_scenes" with
    | Some (VDialogue l) => Some (VDialogue (f <$> l))
    | o => o
    end.
Proof.
  unfold modify_key.
  destruct (st !! "dialogue_scenes") as [v|] eqn:Hv; [|done].
  destruct v; cbn; try done. apply lookup_insert_eq.
Qed.

Lemma propagate_character_on_dialogue old_name new_name st :
  final_state (_propagate_character_name_change old_name new_name st)
    !! "dialogue_scenes"
  = match st !! "dialogue_scenes" with
    | Some (VDialogue l) =>
        Some (VDialogue (rename_speaker old_name new_name <$> l))
    | o => o
    end.
Proof.
  unfold _propagate_character_name_change.
  rewrite (final_state_bind_key ["scenes"; "draft"]).
  - rewrite run_propagate_character_dialogue. apply lookup_on_dialogue.
  - intros _. unfold propagate_character_scene_list,
      propagate_character_draft. frame.
  - not_in.
Qed.

(** X18. A character rename is undone, on the dialogue attributions of the
    state, by the reverse rename: when no dialogue line was attributed to
    the new name before, renaming from the old name to the new one and
    then back leaves [dialogue_scenes] as it was, also when one of the
    two propagations stops on an exception. *)
Theorem rename_round_trip_on_dialogue (old_name new_name : string)
    (st : state) :
  (∀ l d, st !! "dialogue_scenes" = Some (VDialogue l) → d ∈ l →
     DialogueLine.character_name d ≠ new_name) →
  let st1 :=
    final_state (_propagate_character_name_change old_name new_name st) in
  final_state (_propagate_character_name_change new_name old_name st1)
    !! "dialogue_scenes"
  = st !! "dialogue_scenes".
Proof.
  intros Hfresh st1.
  rewrite propagate_character_on_dialogue. unfold st1.
  rewrite propagate_character_on_dialogue.
  destruct (st !! "dialogue_scenes") as [[| | | |l| |]|] eqn:Hv; try done.
  by rewrite rename_speaker_back by eauto.
Qed.

(** X19. After a rename to a different name no dialogue line of the state
    is attributed to the old name any more, the lines being as many as
    before, also when the propagation stops on an exception further
    on. *)
Theorem rename_leaves_no_old_attribution (old_name new_name : string)
    (st : state) (l : list DialogueLine.t) :
  old_name ≠ new_name →
  st !! "dialogue_scenes" = Some (VDialogue l) →
  ∃ l',
    final_state (_propagate_character_name_change old_name new_name st)
      !! "dialogue_scenes" = Some (VDialogue l')
    ∧ length l' = length l
    ∧ ∀ d, d ∈ l' → DialogueLine.character_name d ≠ old_name.
Proof.
  intros Hne Hl. rewrite propagate_character_on_dialogue, Hl.
  eexists. split_and!; [done|by rewrite length_fmap|].
  intros d Hd. apply list_elem_of_fmap in Hd as (d0 & -> & _).
  unfold rename_speaker. case_decide; [|done].
  cbn. by intros <-.
Qed.

Lemma rename_in_field_id old_name new_name old_first new_first text :
  ¬ names_character old_name old_first text →
  rename_in_field old_name new_name old_first new_first text = text.
Proof.
  intros Hno. unfold rename_in_field, rename_in_text.
  destruct (decide (text = "")); [done|].
  destruct (str_in old_name text) eqn:H1.
  - exfalso. apply Hno. left. by apply str_in_spec.
  - destruct (bool_decide (old_first ≠ old_name)) eqn:H2; [|done].
    destruct (str_in old_first text) eqn:H3; [|done].
    exfalso. apply Hno. right. split.
    + by apply bool_decide_eq_true in H2.
    + by apply str_in_spec.
Qed.

Lemma fmap_id_on {A} (f : A → A) (l : list A) :
  (∀ x, x ∈ l → f x = x) → f <$> l = l.
Proof.
  intros H. rewrite <- (list_fmap_id l) at 2.
  apply list_fmap_ext. intros i x Hx%list_elem_of_lookup_2. by apply H.
Qed.

Lemma renamed_scene_id old_name new_name old_first new_first s :
  (∀ d, d ∈ Scene.dialogue_lines s → SceneLine.character_name d ≠ old_name) →
  ¬ names_character old_name old_first (Scene.subject_action s) →
  ¬ names_character old_name old_first (Scene.environmental_context s) →
  renamed_scene old_name new_name old_first new_first s = s.
Proof.
  intros Hl Ha He. destruct s as [n env act st ca cm cp lines]. cbn in *.
  unfold renamed_scene, rename_in_scene. cbn.
  rewrite !rename_in_field_id by done.
  unfold Scene.set_environmental_context, Scene.set_subject_action,
    Scene.set_dialogue_lines. cbn.
  f_equal. apply fmap_id_on. intros d Hd. unfold rename_scene_speaker.
  rewrite decide_False; [done|]. by apply Hl.
Qed.

(** X20. Renaming a character nothing refers to changes nothing: when no
    dialogue line of the state or of a scene is attributed to the old
    name and neither the old name nor its first name occurs in a scene's
    two descriptions or in the draft, the propagation returns with the
    state as it found it. *)
Theorem rename_without_reference_is_noop
    (old_name new_name old_first new_first : string) (st : state) :
  first_name old_name = Some old_first →
  first_name new_name = Some new_first →
  (∀ l d, st !! "dialogue_scenes" = Some (VDialogue l) → d ∈ l →
     DialogueLine.character_name d ≠ old_name) →
  (∀ l s, st !! "scenes" = Some (VScenes l) → s ∈ l →
     (∀ d, d ∈ Scene.dialogue_lines s →
        SceneLine.character_name d ≠ old_name)
     ∧ ¬ names_character old_name old_first (Scene.subject_action s)
     ∧ ¬ names_character old_name old_first (Scene.environmental_context s)) →
  (∀ draft, st !! "draft" = Some (VStr draft) →
     ¬ names_character old_name old_first draft) →
  _propagate_character_name_change old_name new_name st = (Ret tt, st, []).
Proof.
  intros Ho Hn Hd Hs Ht.
  rewrite (run_propagate_character _ _ _ old_first new_first) by done.
  rewrite (modify_key_id "dialogue_scenes").
  2:{ intros [| | | |l| |] Hv; cbn; auto. left. do 2 f_equal.
      apply fmap_id_on. intros d Hin. unfold rename_speaker.
      rewrite decide_False; [done|]. by eapply Hd. }
  rewrite (modify_key_id "scenes").
  2:{ intros [| | | | |l|] Hv; cbn; auto. left. do 2 f_equal.
      apply fmap_id_on. intros s Hin.
      destruct (Hs l s Hv Hin) as (? & ? & ?). by apply renamed_scene_id. }
  rewrite (modify_key_id "draft"); [done|].
  intros [draft| | | | | |] Hv; cbn; auto. left. do 2 f_equal.
  apply rename_in_field_id. by apply Ht.
Qed.

Section Locations.

Variable re_sub : string → string → string → option string.

Lemma relocate_text_absent old_name new_name text :
  ¬ occurs (lower old_name) (lower text) →
  relocate_text re_sub old_name new_name text = Some text.
Proof.
  intros Hno. unfold relocate_text.
  destruct (decide (text = "")); [done|].
  destruct (str_in _ _) eqn:H; [|done].
  exfalso. apply Hno. by apply str_in_spec.
Qed.

Lemma set_environmental_context_same s :
  Scene.set_environmental_context (Scene.environmental_context s) s = s.
Proof. by destruct s. Qed.

Lemma propagate_location_scenes_absent old_name new_name l :
  (∀ s, s ∈ l →
     ¬ occurs (lower old_name) (lower (Scene.environmental_context s))) →
  propagate_location_scenes re_sub old_name new_name l = (l, None).
Proof.
  induction l as [|s l IH]; [done|]. intros H.
  cbn [propagate_location_scenes].
  rewrite relocate_text_absent by (apply H; apply list_elem_of_here).
  rewrite IH by (intros; apply H; by apply list_elem_of_further).
  by rewrite set_environmental_context_same.
Qed.

(** X21. Renaming a location nothing refers to changes nothing and never
    consults the regular-expression engine: when the lowercased old name
    occurs neither in the lowercased [environmental_context] of a scene
    nor in the lowercased draft, the propagation returns with the state
    as it found it, whatever the engine would do. *)
Theorem relocation_without_reference_is_noop (old_name new_name : string)
    (st : state) :
  (∀ l s, st !! "scenes" = Some (VScenes l) → s ∈ l →
     ¬ occurs (lower old_name) (lower (Scene.environmental_context s))) →
  (∀ draft, st !! "draft" = Some (VStr draft) →
     ¬ occurs (lower old_name) (lower draft)) →
  _propagate_location_name_change re_sub old_name new_name st
  = (Ret tt, st, []).
Proof.
  intros Hs Hd.
  unfold _propagate_location_name_change, propagate_location_scene_list,
    propagate_location_draft, bind, state_get, state_set, ret.
  destruct (st !! "scenes") as [[| | | | |[|s l]|]|] eqn:Hv;
    try (destruct (st !! "draft") as [[draft| | | | | |]|] eqn:Hdr; try done;
         rewrite relocate_text_absent by (by apply Hd);
         by rewrite insert_id).
  rewrite propagate_location_scenes_absent by (intros; by eapply Hs).
  rewrite (insert_id st "scenes") by done.
  destruct (st !! "draft") as [[draft| | | | | |]|] eqn:Hdr; try done.
  rewrite relocate_text_absent by (by apply Hd).
  by rewrite insert_id.
Qed.

Lemma propagate_location_scenes_shape old_name new_name l :
  let r := propagate_location_scenes re_sub old_name new_name l in
  length r.1 = length l
  ∧ ∀ i s, l !! i = Some s →
      ∃ text, r.1 !! i = Some (Scene.set_environmental_context text s).
Proof.
  induction l as [|s l [IHl IHs]]; [by split; [|intros ? ? ?]|].
  cbn [propagate_location_scenes].
  destruct (relocate_text _ _ _ _) as [text|].
  - destruct (propagate_location_scenes re_sub old_name new_name l)
      as [rest e]. cbn in *. split; [by rewrite IHl|].
    intros [|i] s' Hi; cbn in *.
    + injection Hi as <-. by exists text.
    + by apply IHs.
  - cbn. split; [done|]. intros i s' Hi.
    exists (Scene.environmental_context s').
    by rewrite set_environmental_context_same.
Qed.

(** X22. A location rename reaches the [environmental_context] of the
    scenes and the draft and nothing else, for every regular-expression
    engine and also when the engine rejects the new name: the scenes are
    as many as before, each with its number, its [subject_action], its
    camera fields and its dialogue lines untouched, and every key of the
    state other than [scenes] and [draft] is as it was. *)
Theorem relocation_touches_environment_only (old_name new_name : string)
    (st : state) :
  let st' :=
    final_state (_propagate_location_name_change re_sub old_name new_name st) in
  (∀ l, st !! "scenes" = Some (VScenes l) →
     ∃ l', st' !! "scenes" = Some (VScenes l')
       ∧ length l' = length l
       ∧ ∀ i s, l !! i = Some s →
           ∃ text,
             l' !! i = Some (Scene.set_environmental_context text s))
  ∧ ∀ k, k ≠ "scenes" → k ≠ "draft" → st' !! k = st !! k.
Proof.
  intros st'. split.
  - intros l Hl. unfold st', _propagate_location_name_change.
    rewrite (final_state_bind_key ["draft"]).
    2:{ intros _. unfold propagate_location_draft. frame. }
    2:{ not_in. }
    unfold propagate_location_scene_list, bind, state_get, state_set, ret,
      raise, final_state. rewrite Hl.
    destruct l as [|s l].
    { cbn. exists []. by rewrite Hl. }
    pose proof (propagate_location_scenes_shape old_name new_name (s :: l))
      as [Hlen Hsh].
    destruct (propagate_location_scenes re_sub old_name new_name (s :: l))
      as [l' e]. cbn [fst] in *.
    exists l'. split_and!; try done.
    destruct e; cbn; apply lookup_insert_eq.
  - intros k H1 H2. apply preserves_propagate_location. not_in.
Qed.

Lemma relocate_text_accepted old_name new_name text :
  (∀ text, is_Some (re_sub old_name new_name text)) →
  is_Some (relocate_text re_sub old_name new_name text).
Proof.
  intros Hok. unfold relocate_text.
  destruct (decide (text = "")); [by eexists|].
  destruct (str_in _ _); [apply Hok|by eexists].
Qed.

Lemma propagate_location_scenes_accepted old_name new_name l :
  (∀ text, is_Some (re_sub old_name new_name text)) →
  (propagate_location_scenes re_sub old_name new_name l).2 = None.
Proof.
  intros Hok. induction l as [|s l IH]; [done|].
  cbn [propagate_location_scenes].
  destruct (relocate_text_accepted old_name new_name
              (Scene.environmental_context s) Hok) as [text ->].
  by destruct (propagate_location_scenes re_sub old_name new_name l).
Qed.

Lemma propagate_location_accepted old_name new_name :
  (∀ text, is_Some (re_sub old_name new_name text)) →
  returns (_propagate_location_name_change re_sub old_name new_name).
Proof.
  intros Hok. unfold _propagate_location_name_change.
  apply returns_bind; [|intros _].
  - intros st. exists tt.
    unfold propagate_location_scene_list, bind, state_get, state_set, ret,
      raise.
    destruct (st !! "scenes") as [[| | | | |[|s l]|]|]; try done.
    pose proof (propagate_location_scenes_accepted old_name new_name (s :: l)
                  Hok) as He.
    destruct (propagate_location_scenes re_sub old_name new_name (s :: l))
      as [l' e]. cbn in He. by subst e.
  - intros st. exists tt.
    unfold propagate_location_draft, bind, state_get, state_set, ret, raise.
    destruct (st !! "draft") as [[draft| | | | | |]|]; try done.
    by destruct (relocate_text_accepted old_name new_name draft Hok)
      as [text ->].
Qed.

(** X23. A [modify] that finds its entity replaces it by the payload as a
    whole and keeps the others where they are, for a character whenever
    the old and the new name each have a first word, and for a location
    whenever the name is kept or the regular-expression engine accepts
    the new name as a replacement template. *)
Theorem modify_replaces_first_match (original : option value)
    (change : EntityChange) (target : string) (new e : Entity)
    (pre post : list Entity) (st : state) :
  action change = modify →
  target_name change = Some target → target ≠ "" →
  new_entity change = Some new →
  entities_or_empty original = pre ++ e :: post →
  matches_name target e →
  (∀ x, x ∈ pre → ¬ matches_name target x) →
  (is_Some (first_name (name e)) → is_Some (first_name (name new)) →
   final_state (_update_specific_character original (Returned change) st)
   !! "characters" = Some (VEntities (pre ++ new :: post)))
  ∧ (name e = name new
     ∨ (∀ text, is_Some (re_sub (name e) (name new) text)) →
     final_state
       (_update_specific_location re_sub original (Returned change) st)
     !! "locations" = Some (VEntities (pre ++ new :: post))).
Proof.
  intros Ha Ht Hne Hn Hl He Hpre. split.
  - intros [old_first Ho] [new_first Hnf].
    unfold _update_specific_character.
    rewrite (entity_modify_outcome _ _ _ _ target new pre e post) by done.
    case_decide; [apply lookup_insert_eq|].
    rewrite (run_propagate_character _ _ _ old_first new_first) by done.
    apply lookup_insert_eq.
  - intros Hok. unfold _update_specific_location.
    rewrite (entity_modify_outcome _ _ _ _ target new pre e post) by done.
    case_decide as Hname; [apply lookup_insert_eq|].
    destruct Hok as [?|Hok]; [done|].
    destruct (propagate_location_accepted (name e) (name new) Hok st)
      as [[] Hr].
    destruct (_propagate_location_name_change re_sub (name e) (name new) st)
      as [[[[]|x] st1] out1]; [apply lookup_insert_eq|done].
Qed.

End Locations.

(** ** DocumentAssembler: what a revision writes *)

Lemma maintains_bind {A B} P (m : M A) (f : A → M B) :
  maintains P m → (∀ a, maintains P (f a)) → maintains P (bind m f).
Proof.
  intros Hm Hf st HP. specialize (Hm st HP).
  unfold bind, final_state in *.
  destruct (m st) as [[[a|e] st1] out1]; [|done].
  specialize (Hf a st1 Hm). unfold final_state in Hf.
  by destruct (f a st1) as [[r st2] out2].
Qed.

Lemma maintains_ret {A} P (a : A) : maintains P (ret a).
Proof. by intros st. Qed.

Section Revisions.

Variable re_sub : string → string → string → option string.

Lemma final_state_node_branch (key fk : string) (ok1 ok2 warn err : string)
    (node : reply state) (st : state) :
  key ≠ fk →
  final_state
    (bind
       (try_except
          (result <- invoke node;;
           match result !! key with
           | Some v =>
               state_set key v;;;
               print OK ok1;;;
               print OK ok2
           | None => print WARNING warn
           end)
          (λ _, print ERROR err))
       (λ _, clear fk) st)
  = delete fk
      match node with
      | Returned result =>
          match result !! key with
          | Some v => <[key := v]> st
          | None => st
          end
      | Raised => st
      end.
Proof.
  intros Hne. unfold clear. run_patch. unfold raise, state_del.
  destruct node as [result|]; cbn; [|done].
  by destruct (result !! key).
Qed.

Lemma update_component_draft fb ext st :
  final_state (update_component re_sub "draft" fb ext st)
  = delete "draft_feedback"
      match node_function ext "draft" with
      | Returned result =>
          match result !! "draft" with
          | Some draft => <["draft" := draft]> st
          | None => st
          end
      | Raised => st
      end.
Proof.
  start_component. rewrite final_state_node_branch by done.
  destruct (node_function ext "draft") as [result|];
    [destruct (result !! "draft")|]; cbv beta iota;
    rewrite ?(delete_insert_ne _ "draft_feedback" "draft") by done;
    by rewrite delete_insert_eq.
Qed.

Lemma update_component_visual_lookbook fb ext st :
  final_state (update_component re_sub "visual_lookbook" fb ext st)
  = delete "visual_lookbook_feedback"
      match node_function ext "visual_lookbook" with
      | Returned result =>
          match result !! "visual_lookbook" with
          | Some lookbook => <["visual_lookbook" := lookbook]> st
          | None => st
          end
      | Raised => st
      end.
Proof.
  start_component. rewrite final_state_node_branch by done.
  destruct (node_function ext "visual_lookbook") as [result|];
    [destruct (result !! "visual_lookbook")|]; cbv beta iota;
    rewrite ?(delete_insert_ne _ "visual_lookbook_feedback"
                "visual_lookbook") by done;
    by rewrite delete_insert_eq.
Qed.

(** X24. A revision of the draft, or of the visual lookbook, takes that one
    key from what the generation node returns and nothing else: the state
    afterwards is the state before with the key replaced, whatever other
    keys the node's result holds; when the node raises, or returns no
    such key, the state is as before.  The feedback key is gone in every
    case. *)
Theorem node_revision_takes_one_key (feedback : string) (ext : Externals)
    (st : state) :
  final_state (update_component re_sub "draft" feedback ext st)
  = delete "draft_feedback"
      match node_function ext "draft" with
      | Returned result =>
          match result !! "draft" with
          | Some draft => <["draft" := draft]> st
          | None => st
          end
      | Raised => st
      end
  ∧ final_state (update_component re_sub "visual_lookbook" feedback ext st)
    = delete "visual_lookbook_feedback"
        match node_function ext "visual_lookbook" with
        | Returned result =>
            match result !! "visual_lookbook" with
            | Some lookbook => <["visual_lookbook" := lookbook]> st
            | None => st
            end
        | Raised => st
        end.
Proof.
  split; [apply update_component_draft|apply update_component_visual_lookbook].
Qed.

Lemma update_component_dialogue fb ext st :
  final_state (update_component re_sub "dialogue" fb ext st)
  = delete "dialogue_feedback"
      (final_state
         (_update_specific_dialogue (st !! "dialogue_scenes")
            (dialogue_change ext) (<["dialogue_feedback" := VStr fb]> st))).
Proof.
  start_component.
  rewrite final_state_seq by apply returns_update_specific_dialogue.
  by rewrite final_state_print.
Qed.

Lemma update_component_clears c fk fb ext st :
  component_map !! c = Some fk →
  final_state (update_component re_sub c fb ext st) !! fk = None.
Proof.
  intros Hc. apply component_map_lookup in Hc.
  rewrite !elem_of_cons, elem_of_nil in Hc.
  destruct Hc as [Hc|[Hc|[Hc|[Hc|[Hc|[Hc|[]]]]]]]; injection Hc as -> ->.
  - rewrite update_component_draft. apply lookup_delete_eq.
  - rewrite update_component_characters. apply lookup_delete_eq.
  - rewrite update_component_dialogue. apply lookup_delete_eq.
  - rewrite update_component_locations. apply lookup_delete_eq.
  - rewrite update_component_visual_lookbook. apply lookup_delete_eq.
  - rewrite update_component_scenes.
    rewrite lookup_delete_ne by done. apply lookup_delete_eq.
Qed.

(** X25. The feedback of a revision never stays in the state: for each of
    the six components the key [<component>_feedback] is absent from the
    state [update_component] returns, whatever the collaborators did and
    also when the state held such a key before; for any other component
    name nothing is written at all, and a warning is printed. *)
Theorem feedback_key_is_transient (component_name feedback : string)
    (ext : Externals) (st : state) :
  let components :=
    ["draft"; "characters"; "dialogue"; "locations"; "visual_lookbook";
     "scenes"] in
  let r := update_component re_sub component_name feedback ext st in
  (component_name ∈ components →
     final_state r !! (component_name +:+ "_feedback") = None)
  ∧ (component_name ∉ components →
       r = (Ret tt, st, [(WARNING, "Unknown component")])).
Proof.
  intros components r. split.
  - intros Hin. unfold components in Hin.
    rewrite !elem_of_cons, elem_of_nil in Hin.
    destruct Hin as [->|[->|[->|[->|[->|[->|[]]]]]]];
      by apply update_component_clears.
  - intros Hnot. apply update_component_unknown.
    destruct (component_map !! component_name) eqn:Hc; [|done].
    exfalso. apply Hnot. apply component_map_domain. by eexists.
Qed.

(** X26. [number_of_scenes] records the scenes counted before the patch
    and is not refreshed after it: a scenes revision leaves under that
    key the length of the scene list it found (when there was none or an
    empty one, the former value, or 12 without one), so that after an
    [add] the list is one longer than the count in the state. *)
Theorem number_of_scenes_is_count_before_patch (feedback : string)
    (ext : Externals) (st : state) :
  let st' := final_state (update_component re_sub "scenes" feedback ext st) in
  st' !! "number_of_scenes"
  = Some (if truthy (st !! "scenes")
          then VInt (Z.of_nat (length (scenes_or_empty (st !! "scenes"))))
          else default (VInt 12) (st !! "number_of_scenes"))
  ∧ ∀ l change new,
      st !! "scenes" = Some (VScenes l) → l ≠ [] →
      scene_change ext (scene_patch_state feedback st) = Returned change →
      scene_action change = add → new_scene change = Some new →
      st' !! "scenes" = Some (VScenes (l ++ [new]))
      ∧ st' !! "number_of_scenes" = Some (VInt (Z.of_nat (length l))).
Proof.
  intros st'.
  assert (Hn : st' !! "number_of_scenes"
    = Some (if truthy (st !! "scenes")
            then VInt (Z.of_nat (length (scenes_or_empty (st !! "scenes"))))
            else default (VInt 12) (st !! "number_of_scenes"))).
  { unfold st'. rewrite update_component_scenes.
    rewrite !lookup_delete_ne by done.
    rewrite preserves_update_specific_scene by not_in.
    unfold scene_patch_state. by rewrite lookup_insert_eq. }
  split; [done|].
  intros l change new Hl Hne Hc Ha Hnew. split.
  - unfold st'. rewrite update_component_scenes, Hc.
    rewrite !lookup_delete_ne by done.
    rewrite (run_add _ _ _ new) by done.
    by rewrite lookup_insert_eq, Hl.
  - rewrite Hn, Hl. cbn. destruct l; [done|]. done.
Qed.

End Revisions.

Lemma output_bind {A B} (m : M A) (f : A → M B) st :
  ∀ line, line ∈ output (m st) → line ∈ output (bind m f st).
Proof.
  intros line Hin. unfold bind, output in *.
  destruct (m st) as [[[a|e] st1] out1]; [|done].
  destruct (f a st1) as [[r st2] out2]. cbn in *.
  apply elem_of_app. by left.
Qed.

Lemma output_bind_r {A B} (m : M A) (f : A → M B) st a :
  (m st).1.1 = Ret a →
  ∀ line, line ∈ output (f a (final_state (m st))) →
          line ∈ output (bind m f st).
Proof.
  intros Hr line Hin. unfold bind, output, final_state in *.
  destruct (m st) as [[r st1] out1]. cbn in *. subst r.
  destruct (f a st1) as [[r st2] out2]. cbn in *.
  apply elem_of_app. by right.
Qed.

Section Failures.

Variable re_sub : string → string → string → option string.

Lemma delete_feedback_after (fk key : string) (v w : value) (st : state) :
  fk ≠ key →
  delete fk (<[key := v]> (<[fk := w]> st)) = delete fk (<[key := v]> st).
Proof.
  intros Hne. rewrite !(delete_insert_ne _ fk key) by done.
  by rewrite delete_insert_eq.
Qed.

(** X27. When the model call of a surgical revision raises, the revision
    changes nothing in the document: the targeted collection is written
    back as it was found, as the empty list when the state had none, the
    feedback key is removed, and an error line is printed. A scenes
    revision removes its flag [allow_scene_increase] as well, and still
    records under [number_of_scenes] the scenes it counted. *)
Theorem model_failure_keeps_collection (feedback : string) (ext : Externals)
    (st : state) :
  (location_change ext = Raised →
     let r := update_component re_sub "locations" feedback ext st in
     final_state r
     = delete "locations_feedback"
         (<["locations" := VEntities (entities_or_empty (st !! "locations"))]>
            st)
     ∧ reported_error r)
  ∧ (character_change ext = Raised →
       let r := update_component re_sub "characters" feedback ext st in
       final_state r
       = delete "characters_feedback"
           (<["characters" :=
                VEntities (entities_or_empty (st !! "characters"))]> st)
       ∧ reported_error r)
  ∧ (dialogue_change ext = Raised →
       let r := update_component re_sub "dialogue" feedback ext st in
       final_state r
       = delete "dialogue_feedback"
           (<["dialogue_scenes" :=
                VDialogue (dialogue_or_empty (st !! "dialogue_scenes"))]> st)
       ∧ reported_error r)
  ∧ (scene_change ext (scene_patch_state feedback st) = Raised →
       let r := update_component re_sub "scenes" feedback ext st in
       final_state r
       = delete "allow_scene_increase"
           (delete "scenes_feedback"
              (<["scenes" := VScenes (scenes_or_empty (st !! "scenes"))]>
                 (<["number_of_scenes" :=
                      if truthy (st !! "scenes")
                      then VInt (Z.of_nat
                                   (length (scenes_or_empty (st !! "scenes"))))
                      else default (VInt 12) (st !! "number_of_scenes")]>
                    st)))
       ∧ final_state r !! "scenes_feedback" = None
       ∧ final_state r !! "allow_scene_increase" = None
       ∧ reported_error r).
Proof.
  split_and!.
  - intros Hr r. split.
    + unfold r. rewrite update_component_locations, Hr.
      unfold _update_specific_location, update_specific_entity. run_patch.
      cbn. by apply delete_feedback_after.
    + unfold r, reported_error, update_component.
      change (component_map !! "locations") with (Some "locations_feedback").
      rewrite Hr. unfold output. cbn.
      eexists. repeat first [apply list_elem_of_here | apply list_elem_of_further].
  - intros Hr r. split.
    + unfold r. rewrite update_component_characters, Hr.
      unfold _update_specific_character, update_specific_entity. run_patch.
      cbn. by apply delete_feedback_after.
    + unfold r, reported_error, update_component.
      change (component_map !! "characters") with (Some "characters_feedback").
      rewrite Hr. unfold output. cbn.
      eexists. repeat first [apply list_elem_of_here | apply list_elem_of_further].
  - intros Hr r. split.
    + unfold r. rewrite update_component_dialogue, Hr.
      unfold _update_specific_dialogue. run_patch.
      cbn. by apply delete_feedback_after.
    + unfold r, reported_error, update_component.
      change (component_map !! "dialogue") with (Some "dialogue_feedback").
      rewrite Hr. unfold output. cbn.
      eexists. repeat first [apply list_elem_of_here | apply list_elem_of_further].
  - intros Hr r. split_and!.
    + unfold r. rewrite update_component_scenes, Hr.
      unfold _update_specific_scene. run_patch. cbn.
      unfold scene_patch_state. apply map_eq. intros k.
      destruct (decide (k = "allow_scene_increase")) as [->|H1];
        [by rewrite !lookup_delete_eq|].
      rewrite !(lookup_delete_ne _ "allow_scene_increase") by done.
      destruct (decide (k = "scenes_feedback")) as [->|H2];
        [by rewrite !lookup_delete_eq|].
      rewrite !(lookup_delete_ne _ "scenes_feedback") by done.
      destruct (decide (k = "scenes")) as [->|H3];
        [by rewrite !lookup_insert_eq|].
      rewrite !(lookup_insert_ne _ "scenes") by done.
      destruct (decide (k = "number_of_scenes")) as [->|H4];
        [by rewrite !lookup_insert_eq|].
      by rewrite !lookup_insert_ne by done.
    + unfold r. rewrite update_component_scenes.
      rewrite lookup_delete_ne by done. by rewrite lookup_delete_eq.
    + unfold r. rewrite update_component_scenes. by rewrite lookup_delete_eq.
    + unfold r, reported_error. rewrite update_component_scenes_output, Hr.
      eexists. do 2 apply list_elem_of_further.
      unfold _update_specific_scene. run_patch. apply list_elem_of_here.
Qed.

End Failures.

Section Loop.

Variable re_sub : string → string → string → option string.

Lemma preserves_update_component c fb ext :
  preserves revision_keys (update_component re_sub c fb ext).
Proof.
  destruct (component_map !! c) as [fk|] eqn:Hc.
  - apply component_map_lookup in Hc.
    rewrite !elem_of_cons, elem_of_nil in Hc.
    destruct Hc as [Hc|[Hc|[Hc|[Hc|[Hc|[Hc|[]]]]]]]; injection Hc as -> ->.
    + eapply preserves_weaken; [|apply preserves_update_component_draft].
      unfold revision_keys. sublist_solver.
    + eapply preserves_weaken; [|apply preserves_update_component_characters].
      unfold revision_keys. sublist_solver.
    + eapply preserves_weaken; [|apply preserves_update_component_dialogue].
      unfold revision_keys. sublist_solver.
    + eapply preserves_weaken; [|apply preserves_update_component_locations].
      unfold revision_keys. sublist_solver.
    + eapply preserves_weaken;
        [|apply preserves_update_component_visual_lookbook].
      unfold revision_keys. sublist_solver.
    + eapply preserves_weaken; [|apply preserves_update_component_scenes].
      unfold revision_keys. sublist_solver.
  - intros st k _. by rewrite update_component_unknown.
Qed.

Lemma preserves_apply_updates get_feedback ext i components :
  preserves revision_keys
    (apply_updates re_sub get_feedback ext i components).
Proof.
  revert i. induction components as [|c components IH]; intros i.
  - apply preserves_ret.
  - cbn [apply_updates]. apply preserves_bind; [|intros _; apply IH].
    destruct (truthy_str (get_feedback c)).
    + apply preserves_update_component.
    + apply preserves_ret.
Qed.

(** X28. Whatever sequence of revisions the loop of [orchestrate_revision]
    applies, and whatever the collaborators reply, it writes only the six
    components, their feedback keys, the scene-count flag and the scene
    count: every other key of the state, the title, the genre, the tone
    and the log line among them, is afterwards as it was. *)
Theorem revision_loop_writes_components_only
    (get_feedback : string → option string) (ext : nat → Externals)
    (components_to_update : list string) (st : state) (k : string) :
  let st' :=
    final_state
      (apply_updates re_sub get_feedback ext 0 components_to_update st) in
  (k ∉ revision_keys → st' !! k = st !! k)
  ∧ st' !! "title" = st !! "title"
  ∧ st' !! "genre" = st !! "genre"
  ∧ st' !! "tone" = st !! "tone"
  ∧ st' !! "log_line" = st !! "log_line".
Proof.
  intros st'. unfold st'. split_and!.
  - intros Hk. by apply preserves_apply_updates.
  - apply preserves_apply_updates. unfold revision_keys. not_in.
  - apply preserves_apply_updates. unfold revision_keys. not_in.
  - apply preserves_apply_updates. unfold revision_keys. not_in.
  - apply preserves_apply_updates. unfold revision_keys. not_in.
Qed.

Lemma maintains_update_component c fb ext :
  maintains scratch_free (update_component re_sub c fb ext).
Proof.
  intros st Hfree k Hk.
  destruct (component_map !! c) as [fk|] eqn:Hc;
    [|rewrite update_component_unknown by done; by apply Hfree].
  destruct (decide (k = fk)) as [->|Hne];
    [by apply update_component_clears|].
  specialize (Hfree k Hk).
  apply component_map_lookup in Hc.
  rewrite !elem_of_cons, elem_of_nil in Hc.
  unfold scratch_keys in Hk. rewrite !elem_of_cons, elem_of_nil in Hk.
  destruct Hc as [Hc|[Hc|[Hc|[Hc|[Hc|[Hc|[]]]]]]]; injection Hc as -> ->.
  - rewrite preserves_update_component_draft; [done|]. not_in.
  - rewrite preserves_update_component_characters; [done|]. not_in.
  - rewrite preserves_update_component_dialogue; [done|]. not_in.
  - rewrite preserves_update_component_locations; [done|]. not_in.
  - rewrite preserves_update_component_visual_lookbook; [done|]. not_in.
  - destruct (decide (k = "allow_scene_increase")) as [->|Hflag].
    + rewrite update_component_scenes. apply lookup_delete_eq.
    + rewrite preserves_update_component_scenes; [done|]. not_in.
Qed.

Lemma maintains_apply_updates get_feedback ext i components :
  maintains scratch_free (apply_updates re_sub get_feedback ext i components).
Proof.
  revert i. induction components as [|c components IH]; intros i.
  - apply maintains_ret.
  - cbn [apply_updates]. apply maintains_bind; [|intros _; apply IH].
    destruct (truthy_str (get_feedback c)).
    + apply maintains_update_component.
    + apply maintains_ret.
Qed.

(** X29. The revision loop leaves no scratch state behind: when the state
    holds none of the six feedback keys nor the scene-count flag before
    the loop, it holds none of them after it, whichever components were
    revised and whatever the collaborators replied. *)
Theorem revision_loop_leaves_no_scratch
    (get_feedback : string → option string) (ext : nat → Externals)
    (components_to_update : list string) (st : state) :
  (∀ k, k ∈ scratch_keys → st !! k = None) →
  ∀ k, k ∈ scratch_keys →
    final_state
      (apply_updates re_sub get_feedback ext 0 components_to_update st) !! k
    = None.
Proof. intros Hfree. by apply maintains_apply_updates. Qed.

Lemma loaded_scratch uv st k :
  k ∈ scratch_keys → loaded uv st !! k = st !! k.
Proof.
  unfold scratch_keys. rewrite !elem_of_cons, elem_of_nil.
  intros [->|[->|[->|[->|[->|[->|[->|[]]]]]]]]; unfold loaded;
    destruct (UserView.visual_style uv) as [[|? ?]|];
    destruct (UserView.dialogues_by_character uv) as [[|? ?]|];
    destruct (UserView.scenes uv) as [[|? ?]|];
    by rewrite !lookup_insert_ne by done.
Qed.

(** X30. The document that reaches the export has the title, the genre,
    the tone and the log line of the file that was loaded, whatever
    revisions were applied in between, and no scratch key when the state
    had none before the load. *)
Theorem loaded_title_survives_revisions (uv : UserView.t)
    (get_feedback : string → option string) (ext : nat → Externals)
    (components_to_update : list string) (st : state) :
  let st' :=
    final_state
      (load_and_update re_sub uv get_feedback ext components_to_update st) in
  st' !! "title" = Some (VStr (default "Untitled" (UserView.title uv)))
  ∧ st' !! "genre" = Some (VStr (default "" (UserView.genre uv)))
  ∧ st' !! "tone" = Some (VStr (default "" (UserView.tone uv)))
  ∧ st' !! "log_line" = Some (VStr (default "" (UserView.log_line uv)))
  ∧ ((∀ k, k ∈ scratch_keys → st !! k = None) →
     ∀ k, k ∈ scratch_keys → st' !! k = None).
Proof.
  intros st'. unfold st', load_and_update.
  rewrite final_state_seq by apply returns_update_state_from_user_view.
  rewrite run_update_state_from_user_view.
  assert (Hkey : ∀ k v,
    k ∈ ["title"; "genre"; "tone"; "log_line"] →
    loaded uv st !! k = Some v →
    final_state
      (apply_updates re_sub get_feedback ext 0 components_to_update
         (loaded uv st)) !! k = Some v).
  { intros k v Hk Hv. rewrite preserves_apply_updates; [done|].
    unfold revision_keys. not_in. }
  assert (Hload : ∀ k v,
    k ∈ ["title"; "genre"; "tone"; "log_line"] →
    (<[k := v]> st : state) !! k = Some v) by (intros; apply lookup_insert_eq).
  split_and!.
  - apply Hkey; [in_list|]. unfold loaded.
    destruct (UserView.visual_style uv) as [[|? ?]|];
      destruct (UserView.dialogues_by_character uv) as [[|? ?]|];
      destruct (UserView.scenes uv) as [[|? ?]|];
      rewrite !lookup_insert_ne by done; apply lookup_insert_eq.
  - apply Hkey; [in_list|]. unfold loaded.
    destruct (UserView.visual_style uv) as [[|? ?]|];
      destruct (UserView.dialogues_by_character uv) as [[|? ?]|];
      destruct (UserView.scenes uv) as [[|? ?]|];
      rewrite !lookup_insert_ne by done; apply lookup_insert_eq.
  - apply Hkey; [in_list|]. unfold loaded.
    destruct (UserView.visual_style uv) as [[|? ?]|];
      destruct (UserView.dialogues_by_character uv) as [[|? ?]|];
      destruct (UserView.scenes uv) as [[|? ?]|];
      rewrite !lookup_insert_ne by done; apply lookup_insert_eq.
  - apply Hkey; [in_list|]. unfold loaded.
    destruct (UserView.visual_style uv) as [[|? ?]|];
      destruct (UserView.dialogues_by_character uv) as [[|? ?]|];
      destruct (UserView.scenes uv) as [[|? ?]|];
      rewrite !lookup_insert_ne by done; apply lookup_insert_eq.
  - intros Hfree. apply maintains_apply_updates.
    intros k Hk. rewrite loaded_scratch by done. by apply Hfree.
Qed.

End Loop.

(** ** The further properties at concrete inputs *)

Lemma loaded_scene_count_witness :
  pier_view_scenes ≠ []
  ∧ final_state (update_state_from_user_view pier_view ∅) !! "number_of_scenes"
    = Some (VInt 2)
  ∧ ∃ internal_scenes,
      final_state (update_state_from_user_view pier_view ∅) !! "scenes"
      = Some (VScenes internal_scenes)
      ∧ Scene.scene_number <$> internal_scenes = [1; 0]%Z.
Proof.
  assert (Hne : pier_view_scenes ≠ []) by discriminate.
  destruct (loaded_scene_count pier_view ∅ pier_view_scenes eq_refl Hne)
    as (l & Hs & Hn & _ & Hnum & _).
  split; [exact Hne|]. split; [exact Hn|].
  exists l. split; [exact Hs|exact Hnum].
Defined.

Lemma loaded_dialogue_by_character_witness :
  NoDup pier_view_dialogues.*1
  ∧ ∃ dialogue_scenes,
      final_state (update_state_from_user_view pier_view ∅) !! "dialogue_scenes"
      = Some (VDialogue dialogue_scenes)
      ∧ length dialogue_scenes = 3
      ∧ filter (λ d, DialogueLine.character_name d = "Bob") dialogue_scenes
        = [DialogueLine.mk "Bob" 0 "Fine."].
Proof.
  assert (Hnd : NoDup pier_view_dialogues.*1).
  { unfold pier_view_dialogues. cbn. apply NoDup_cons.
    split; [|apply NoDup_singleton].
    rewrite list_elem_of_singleton. discriminate. }
  destruct (loaded_dialogue_by_character pier_view ∅ pier_view_dialogues
              eq_refl ltac:(discriminate) Hnd)
    as (l & Hl & Hlen & _ & Hgroup).
  split; [exact Hnd|]. exists l. split_and!.
  - exact Hl.
  - exact Hlen.
  - apply (Hgroup "Bob" [UserLine.mk None (Some "Fine.")]).
    unfold pier_view_dialogues. in_list.
Defined.

Lemma remove_deletes_first_match_only_witness :
  matches_name "bob" (mkEntity "Bob" [("role", "first")])
  ∧ final_state
      (_update_specific_character (Some (VEntities two_bobs))
         (Returned (mkEntityChange remove (Some "bob") None)) ∅)
    = <["characters" :=
          VEntities [mkEntity "Elena Cross" [];
                     mkEntity "BOB" [("role", "second")]]]> ∅.
Proof.
  assert (Hm : matches_name "bob" (mkEntity "Bob" [("role", "first")]))
    by reflexivity.
  assert (Hpre : ∀ x, x ∈ [mkEntity "Elena Cross" []] →
                      ¬ matches_name "bob" x).
  { intros x Hx. apply list_elem_of_singleton in Hx. subst x.
    unfold matches_name. vm_compute. discriminate. }
  destruct (remove_deletes_first_match_only re_sub_literal
              (Some (VEntities two_bobs))
              (mkEntityChange remove (Some "bob") None) "bob"
              [mkEntity "Elena Cross" []]
              [mkEntity "BOB" [("role", "second")]]
              (mkEntity "Bob" [("role", "first")]) ∅
              eq_refl eq_refl eq_refl Hm Hpre)
    as [Hfull _].
  destruct (Hfull ltac:(discriminate)) as (_ & _ & Hc & _).
  split; [exact Hm|exact Hc].
Defined.

Lemma add_then_remove_restores_witness :
  matches_name "DANA" (mkEntity "Dana" [])
  ∧ final_state
      (_update_specific_character
         (final_state
            (_update_specific_character (Some (VEntities two_bobs))
               (Returned (mkEntityChange add None (Some (mkEntity "Dana" []))))
               ∅) !! "characters")
         (Returned (mkEntityChange remove (Some "DANA") None))
         (final_state
            (_update_specific_character (Some (VEntities two_bobs))
               (Returned (mkEntityChange add None (Some (mkEntity "Dana" []))))
               ∅)))
    = <["characters" := VEntities two_bobs]> ∅.
Proof.
  assert (Hm : matches_name "DANA" (mkEntity "Dana" [])) by reflexivity.
  assert (Hfresh : ∀ x, x ∈ entities_or_empty (Some (VEntities two_bobs)) →
                        ¬ matches_name "DANA" x).
  { intros x Hx. cbn in Hx. unfold two_bobs in Hx.
    rewrite !elem_of_cons, elem_of_nil in Hx.
    destruct Hx as [->|[->|[->|[]]]]; unfold matches_name; vm_compute;
      discriminate. }
  destruct (add_then_remove_restores re_sub_literal
              (Some (VEntities two_bobs))
              (mkEntityChange add None (Some (mkEntity "Dana" [])))
              (mkEntityChange remove (Some "DANA") None)
              (mkEntity "Dana" []) "DANA" ∅
              eq_refl eq_refl eq_refl eq_refl Hm Hfresh)
    as [Hfull _].
  destruct (Hfull ltac:(discriminate)) as (Hc & _).
  split; [exact Hm|exact Hc].
Defined.

Lemma target_case_is_irrelevant_witness :
  lower "ELENA Cross" = lower "elena cross"
  ∧ _update_specific_character (pier_document !! "characters")
      (Returned (mkEntityChange remove (Some "ELENA Cross") None))
      pier_document
    = _update_specific_character (pier_document !! "characters")
        (Returned (mkEntityChange remove (Some "elena cross") None))
        pier_document.
Proof.
  assert (H : lower "ELENA Cross" = lower "elena cross") by reflexivity.
  destruct (target_case_is_irrelevant re_sub_literal "ELENA Cross"
              "elena cross" pier_document H) as (_ & Hc & _).
  split; [exact H|]. apply Hc.
Defined.

Lemma dialogue_by_index_witness :
  final_state
    (_update_specific_dialogue (Some (VDialogue five_lines))
       (Returned (reword_bob 3)) ∅)
  = <["dialogue_scenes" :=
        VDialogue
          [DialogueLine.mk "Alice" 1 "One."; DialogueLine.mk "Bob" 1 "Two.";
           DialogueLine.mk "Alice" 2 "Reworded.";
           DialogueLine.mk "BOB" 2 "Four.";
           DialogueLine.mk "Carol" 3 "Five."]]> ∅.
Proof.
  destruct (dialogue_by_index (Some (VDialogue five_lines)) (reword_bob 3)
              (mkDialogueIdentification (Some 3%Z) (Some "bob"))
              [DialogueLine.mk "Alice" 1 "One."; DialogueLine.mk "Bob" 1 "Two."]
              [DialogueLine.mk "BOB" 2 "Four.";
               DialogueLine.mk "Carol" 3 "Five."]
              (DialogueLine.mk "Alice" 2 "Three.") ∅
              eq_refl eq_refl eq_refl) as (Hmod & _ & _).
  exact (Hmod eq_refl "Reworded." eq_refl ltac:(discriminate)).
Defined.

Lemma dialogue_add_then_remove_witness :
  final_state
    (_update_specific_dialogue (Some (VDialogue five_lines))
       (Returned
          (mkDialogueChange add None (Some (mkDialogue "Dana" "Hi.")) None
             None)) ∅)
  = <["dialogue_scenes" :=
        VDialogue (five_lines ++ [DialogueLine.mk "Dana" 6 "Hi."])]> ∅
  ∧ final_state
      (_update_specific_dialogue
         (final_state
            (_update_specific_dialogue (Some (VDialogue five_lines))
               (Returned
                  (mkDialogueChange add None (Some (mkDialogue "Dana" "Hi."))
                     None None)) ∅) !! "dialogue_scenes")
         (Returned
            (mkDialogueChange remove
               (Some (mkDialogueIdentification (Some 6%Z) None)) None None
               None))
         (final_state
            (_update_specific_dialogue (Some (VDialogue five_lines))
               (Returned
                  (mkDialogueChange add None (Some (mkDialogue "Dana" "Hi."))
                     None None)) ∅)))
    = <["dialogue_scenes" := VDialogue five_lines]> ∅.
Proof.
  exact (dialogue_add_then_remove (Some (VDialogue five_lines))
           (mkDialogueChange add None (Some (mkDialogue "Dana" "Hi.")) None
              None)
           (mkDialogueChange remove
              (Some (mkDialogueIdentification (Some 6%Z) None)) None None None)
           (mkDialogue "Dana" "Hi.")
           (mkDialogueIdentification (Some 6%Z) None) ∅
           eq_refl eq_refl eq_refl eq_refl eq_refl).
Defined.

Lemma scene_modify_replaces_whole_scene_witness :
  (∀ x, x ∈ [plain_scene 1 "" "" []] → Scene.scene_number x ≠ 2%Z)
  ∧ final_state
      (_update_specific_scene (Some (VScenes three_scenes))
         (Returned
            (mkSceneChange modify (Some 2%Z) None None None
               (Some (plain_scene 9 "rewritten" "" [])))) ∅)
    = <["scenes" :=
          VScenes [plain_scene 1 "" "" []; plain_scene 9 "rewritten" "" [];
                   plain_scene 3 "" "" []]]> ∅
  ∧ ¬ contiguous [plain_scene 1 "" "" []; plain_scene 9 "rewritten" "" [];
                  plain_scene 3 "" "" []].
Proof.
  assert (Hpre : ∀ x, x ∈ [plain_scene 1 "" "" []] →
                      Scene.scene_number x ≠ 2%Z).
  { intros x Hx. apply list_elem_of_singleton in Hx. subst x. discriminate. }
  destruct (scene_modify_replaces_whole_scene (Some (VScenes three_scenes))
              (mkSceneChange modify (Some 2%Z) None None None
                 (Some (plain_scene 9 "rewritten" "" [])))
              2%Z (plain_scene 9 "rewritten" "" []) (plain_scene 2 "" "" [])
              [plain_scene 1 "" "" []] [plain_scene 3 "" "" []] ∅
              eq_refl eq_refl ltac:(discriminate) eq_refl eq_refl eq_refl Hpre)
    as (Hst & Hbreak).
  split; [exact Hpre|]. split; [exact Hst|].
  apply Hbreak; [reflexivity|discriminate].
Defined.

Lemma scene_add_then_remove_restores_witness :
  (7%Z ∉ (Scene.scene_number <$> three_scenes))
  ∧ final_state
      (_update_specific_scene
         (final_state
            (_update_specific_scene (Some (VScenes three_scenes))
               (Returned
                  (mkSceneChange add None None None None
                     (Some (plain_scene 7 "late" "" [])))) ∅) !! "scenes")
         (Returned (mkSceneChange remove (Some 7%Z) None None None None))
         (final_state
            (_update_specific_scene (Some (VScenes three_scenes))
               (Returned
                  (mkSceneChange add None None None None
                     (Some (plain_scene 7 "late" "" [])))) ∅)))
    = <["scenes" := VScenes three_scenes]> ∅.
Proof.
  assert (H7 : 7%Z ∉ (Scene.scene_number <$> three_scenes)).
  { assert (Hc : contiguous three_scenes) by reflexivity.
    rewrite Hc. intros E. apply elem_of_seqZ in E.
    change (length three_scenes) with 3 in E. lia. }
  split; [exact H7|].
  exact (scene_add_then_remove_restores three_scenes
           (mkSceneChange add None None None None
              (Some (plain_scene 7 "late" "" [])))
           (mkSceneChange remove (Some 7%Z) None None None None)
           (plain_scene 7 "late" "" []) ∅
           eq_refl eq_refl eq_refl eq_refl ltac:(discriminate) H7).
Defined.

Lemma insert_between_keeps_ascending_witness :
  ascending gapped_scenes
  ∧ 3%Z ∈ (Scene.scene_number <$> gapped_scenes)
  ∧ ∃ result,
      final_state
        (_update_specific_scene (Some (VScenes gapped_scenes))
           (Returned (insert_one_after 3)) ∅)
      = <["scenes" := VScenes result]> ∅
      ∧ ascending result
      ∧ length result = 4.
Proof.
  assert (Ha : ascending gapped_scenes).
  { unfold ascending, gapped_scenes. cbn.
    repeat (constructor; [|repeat constructor; lia]). constructor. }
  assert (Hin : 3%Z ∈ (Scene.scene_number <$> gapped_scenes)).
  { unfold gapped_scenes. cbn. in_list. }
  split; [exact Ha|]. split; [exact Hin|].
  exact (insert_between_keeps_ascending ∅ gapped_scenes (insert_one_after 3)
           3%Z eq_refl eq_refl Ha Hin).
Defined.

Lemma modify_replaces_first_match_witness :
  matches_name "elena cross" (mkEntity "Elena Cross" [("role", "lead")])
  ∧ final_state
      (_update_specific_character (pier_document !! "characters")
         (Returned rename_elena) pier_document) !! "characters"
    = Some (VEntities [mkEntity "Mara Cross" [("role", "lead")];
                       mkEntity "Bob" []]).
Proof.
  assert (Hm : matches_name "elena cross"
                 (mkEntity "Elena Cross" [("role", "lead")])) by reflexivity.
  assert (Hpre : ∀ x : Entity, x ∈ [] → ¬ matches_name "elena cross" x)
    by (intros x Hx; by apply not_elem_of_nil in Hx).
  destruct (modify_replaces_first_match re_sub_literal
              (pier_document !! "characters") rename_elena "elena cross"
              (mkEntity "Mara Cross" [("role", "lead")])
              (mkEntity "Elena Cross" [("role", "lead")])
              [] [mkEntity "Bob" []] pier_document
              eq_refl eq_refl ltac:(discriminate) eq_refl eq_refl Hm Hpre)
    as (Hc & _).
  split; [exact Hm|].
  apply Hc; [exists "Elena"|exists "Mara"]; reflexivity.
Defined.

Lemma rename_round_trip_on_dialogue_witness :
  (∀ l d, pier_document !! "dialogue_scenes" = Some (VDialogue l) → d ∈ l →
     DialogueLine.character_name d ≠ "Mara Cross")
  ∧ final_state
      (_propagate_character_name_change "Mara Cross" "Elena Cross"
         (final_state
            (_propagate_character_name_change "Elena Cross" "Mara Cross"
               pier_document))) !! "dialogue_scenes"
    = pier_document !! "dialogue_scenes".
Proof.
  assert (Hfresh : ∀ l d,
            pier_document !! "dialogue_scenes" = Some (VDialogue l) → d ∈ l →
            DialogueLine.character_name d ≠ "Mara Cross").
  { intros l d Hl Hd.
    change (pier_document !! "dialogue_scenes")
      with (Some (VDialogue
                    [DialogueLine.mk "Elena Cross" 1 "We leave at dawn.";
                     DialogueLine.mk "Bob" 1 "Fine.";
                     DialogueLine.mk "Elena Cross" 2 "Now."])) in Hl.
    injection Hl as <-. rewrite !elem_of_cons, elem_of_nil in Hd.
    destruct Hd as [->|[->|[->|[]]]]; discriminate. }
  split; [exact Hfresh|].
  exact (rename_round_trip_on_dialogue "Elena Cross" "Mara Cross"
           pier_document Hfresh).
Defined.

Lemma rename_leaves_no_old_attribution_witness :
  ∃ l',
    final_state
      (_propagate_character_name_change "Elena Cross" "Mara Cross"
         pier_document) !! "dialogue_scenes" = Some (VDialogue l')
    ∧ length l' = 3
    ∧ ∀ d, d ∈ l' → DialogueLine.character_name d ≠ "Elena Cross".
Proof.
  exact (rename_leaves_no_old_attribution "Elena Cross" "Mara Cross"
           pier_document
           [DialogueLine.mk "Elena Cross" 1 "We leave at dawn.";
            DialogueLine.mk "Bob" 1 "Fine.";
            DialogueLine.mk "Elena Cross" 2 "Now."]
           ltac:(discriminate) eq_refl).
Defined.

Lemma rename_without_reference_is_noop_witness :
  first_name "Zed Quill" = Some "Zed"
  ∧ first_name "Zed Query" = Some "Zed"
  ∧ _propagate_character_name_change "Zed Quill" "Zed Query" quiet_document
    = (Ret tt, quiet_document, []).
Proof.
  assert (Hno : ∀ text, str_in "Zed Quill" text = false →
                        str_in "Zed" text = false →
                        ¬ names_character "Zed Quill" "Zed" text).
  { intros text H1 H2 [H|[_ H]]; apply str_in_spec in H; congruence. }
  split; [reflexivity|]. split; [reflexivity|].
  apply (rename_without_reference_is_noop "Zed Quill" "Zed Query" "Zed" "Zed"
           quiet_document eq_refl eq_refl).
  - intros l d Hl Hd.
    change (quiet_document !! "dialogue_scenes")
      with (Some (VDialogue [DialogueLine.mk "Bob" 1 "Fine."])) in Hl.
    injection Hl as <-. apply list_elem_of_singleton in Hd. subst d.
    discriminate.
  - intros l s Hl Hs.
    change (quiet_document !! "scenes")
      with (Some (VScenes [plain_scene 1 "The pier" "Bob arrives."
                             [SceneLine.mk "Bob" "Fine."]])) in Hl.
    injection Hl as <-. apply list_elem_of_singleton in Hs. subst s.
    split_and!.
    + intros d Hd. apply list_elem_of_singleton in Hd. subst d. discriminate.
    + apply Hno; reflexivity.
    + apply Hno; reflexivity.
  - intros draft Hd.
    change (quiet_document !! "draft") with (Some (VStr "A story.")) in Hd.
    injection Hd as <-. apply Hno; reflexivity.
Defined.

Lemma relocation_without_reference_is_noop_witness :
  _propagate_location_name_change re_sub_literal "Harbor" "Dock" quiet_document
  = (Ret tt, quiet_document, []).
Proof.
  apply (relocation_without_reference_is_noop re_sub_literal "Harbor" "Dock"
           quiet_document).
  - intros l s Hl Hs.
    change (quiet_document !! "scenes")
      with (Some (VScenes [plain_scene 1 "The pier" "Bob arrives."
                             [SceneLine.mk "Bob" "Fine."]])) in Hl.
    injection Hl as <-. apply list_elem_of_singleton in Hs. subst s.
    apply str_in_false. reflexivity.
  - intros draft Hd.
    change (quiet_document !! "draft") with (Some (VStr "A story.")) in Hd.
    injection Hd as <-. apply str_in_false. reflexivity.
Defined.

Lemma revision_loop_leaves_no_scratch_witness :
  (∀ k, k ∈ scratch_keys → pier_document !! k = None)
  ∧ final_state
      (apply_updates re_sub_literal (λ _, Some "rename Elena to Mara")
         (always (replying_characters rename_elena)) 0
         ["characters"; "scenes"] pier_document) !! "characters_feedback"
    = None.
Proof.
  assert (Hfree : ∀ k, k ∈ scratch_keys → pier_document !! k = None).
  { intros k Hk. unfold scratch_keys in Hk.
    rewrite !elem_of_cons, elem_of_nil in Hk.
    destruct Hk as [->|[->|[->|[->|[->|[->|[->|[]]]]]]]]; reflexivity. }
  split; [exact Hfree|].
  apply (revision_loop_leaves_no_scratch re_sub_literal _ _ _ _ Hfree).
  unfold scratch_keys. in_list.
Defined.
